(** * A shallow embedding of the Liquid template lexer (ext/src/lex.cpp)

    The development follows the three source files:
    - [strings.h]: [notspace], [lstrip], [rstrip], [strip];
    - [lex.h]: the token kinds, [Token], the fixed patterns [re_whitespace]
      and [re_endraw], the classes [State] and [Lexer];
    - [lex.cpp]: the [State] cursor operations and [Lexer::Tokenize].

    Conventions.  Text is a list of characters.  The iterator [it_] of
    [State] is kept as its distance from [begin_]; offsets, lengths and the
    line counter are natural numbers.  The source narrows them to [int]
    and [unsigned int] ([to_int], [to_unsigned_int] below); the narrowing
    is the identity on a source of less than 2^31 characters ([fits_int],
    [narrowing_exact]), and the statements about the movement of the
    cursor and the termination of the loop are made for such sources.
    The patterns the
    source hands to [std::regex] are written as terms of a small
    regular-expression syntax and run by a backtracking matcher with the
    ECMAScript priorities (greedy quantifiers, ordered alternatives,
    leftmost start).  A member function of [State] is a computation in a
    state monad over [State] in which [None] stands for an exception. *)

From Stdlib Require Import List Ascii String Arith ZArith Bool Lia.
Import ListNotations.

(** ** Text *)

Definition str := list ascii.

Definition lit (s : string) : str := list_ascii_of_string s.
Coercion lit : string >-> str.

Local Open Scope string_scope.
Local Open Scope list_scope.
Local Open Scope nat_scope.

Definition str_eqb (a b : str) : bool :=
  if list_eq_dec ascii_dec a b then true else false.

(** [starts_with p s]: the characters of [p] are the first ones of [s]. *)
Fixpoint starts_with (p s : str) : bool :=
  match p, s with
  | [], _ => true
  | _ :: _, [] => false
  | a :: p', b :: s' => Ascii.eqb a b && starts_with p' s'
  end.

(** [std::count(first, last, c)] *)
Definition count (c : ascii) (s : str) : nat :=
  List.length (filter (Ascii.eqb c) s).

Definition newline : ascii := "010"%char.

(** [std::string::substr(pos, len)]: raises [std::out_of_range] ([None])
    when [pos] lies beyond the size; the length is clamped. *)
Definition substr (s : str) (pos len : nat) : option str :=
  if List.length s <? pos then None else Some (firstn len (skipn pos s)).

(** [std::string::substr(pos)] *)
Definition substr_from (s : str) (pos : nat) : option str :=
  if List.length s <? pos then None else Some (skipn pos s).

(** [std::string::back()]: the last character. Its precondition is a
    non-empty string; on the empty string there is no value ([None]). *)
Definition back (s : str) : option ascii :=
  match rev s with
  | [] => None
  | c :: _ => Some c
  end.

(** [std::string::find(c) != npos] *)
Definition contains (c : ascii) (s : str) : bool := existsb (Ascii.eqb c) s.

(** [std::string::rfind(str, pos)]: the highest [xpos <= pos] with
    [xpos + str.size() <= size()] at which [str] occurs; [None] is [npos]. *)
Fixpoint rfind_from (s p : str) (n : nat) : option nat :=
  if starts_with p (skipn n s) then Some n
  else match n with
       | 0 => None
       | S n' => rfind_from s p n'
       end.

Definition rfind (s p : str) (pos : nat) : option nat :=
  if List.length s <? List.length p then None
  else rfind_from s p (Nat.min pos (List.length s - List.length p)).

(** ** strings.h *)

Module strings.

Definition notspace (ch : ascii) : bool :=
  match nat_of_ascii ch with
  | 10 | 32 | 9 | 13 => false
  | _ => true
  end.

(** [std::find_if(first, last, pred)], as the offset of the iterator it
    returns from [first] (the length when no element satisfies [pred]). *)
Fixpoint find_if (pred : ascii -> bool) (s : str) : nat :=
  match s with
  | [] => 0
  | c :: s' => if pred c then 0 else S (find_if pred s')
  end.

(** [s->erase(s->begin(), end)] *)
Definition lstrip (s : str) : str :=
  skipn (find_if notspace s) s.

(** [find_if(rbegin, rend, notspace).base()] sits just after the last
    character that is not a space; everything from there on is erased. *)
Definition rstrip (s : str) : str :=
  firstn (List.length s - find_if notspace (rev s)) s.

Definition strip (s : str) : str := rstrip (lstrip s).

End strings.

(** ** Regular expressions

    The fragment of the ECMAScript grammar the patterns of [lex.h] and
    [lex.cpp] use. *)

Inductive regex : Type :=
| Eps                       (* the empty pattern *)
| Chr (c : ascii)           (* a literal character, [\{] included *)
| Space                     (* [\s] *)
| OneOf (cs : list ascii)   (* a bracket expression [[...]] *)
| Cat (r1 r2 : regex)       (* concatenation *)
| Alt (r1 r2 : regex)       (* [r1|r2] *)
| Opt (r : regex)           (* [r?], greedy *)
| Star (r : regex).         (* [r*], greedy *)

(** [\s] in the classic locale: [std::isspace]. *)
Definition isspace (c : ascii) : bool :=
  match nat_of_ascii c with
  | 9 | 10 | 11 | 12 | 13 | 32 => true
  | _ => false
  end.

Definition orelse {A : Type} (x y : option A) : option A :=
  match x with
  | Some _ => x
  | None => y
  end.

(** The backtracking matcher, in continuation-passing style: [run r s k]
    matches [r] at the head of [s] and hands what is left to [k]; when [k]
    fails the next alternative is tried, in the priority order of
    ECMAScript.  An iteration of [r*] that consumes nothing is rejected. *)
Fixpoint run {A : Type} (r : regex) (s : str) (k : str -> option A) {struct r}
  : option A :=
  match r with
  | Eps => k s
  | Chr c =>
      match s with
      | a :: s' => if Ascii.eqb a c then k s' else None
      | [] => None
      end
  | Space =>
      match s with
      | a :: s' => if isspace a then k s' else None
      | [] => None
      end
  | OneOf cs =>
      match s with
      | a :: s' => if existsb (Ascii.eqb a) cs then k s' else None
      | [] => None
      end
  | Cat r1 r2 => run r1 s (fun s' => run r2 s' k)
  | Alt r1 r2 => orelse (run r1 s k) (run r2 s k)
  | Opt r1 => orelse (run r1 s k) (k s)
  | Star r1 =>
      (fix loop (n : nat) (s : str) {struct n} : option A :=
         match n with
         | 0 => k s
         | S n' =>
             orelse
               (run r1 s (fun s' =>
                            if List.length s' <? List.length s
                            then loop n' s' else None))
               (k s)
         end) (List.length s) s
  end.

(** The length of the match of [r] anchored at the head of [s]. *)
Definition match_here (r : regex) (s : str) : option nat :=
  run r s (fun rest => Some (List.length s - List.length rest)).

(** [std::smatch] after a search: the searched text split around the
    match.  [prefix] is [match.prefix()], [str0] is [match.str(0)]. *)
Inductive smatch : Type :=
| no_match
| found (prefix str0 : str).

Definition matched (m : smatch) : bool :=
  match m with
  | no_match => false
  | found _ _ => true
  end.

(** [match.str(0)]: the empty string for a failed search. *)
Definition str0 (m : smatch) : str :=
  match m with
  | no_match => []
  | found _ s => s
  end.

(** [match.position(0)] and [match.prefix().length()] *)
Definition position0 (m : smatch) : nat :=
  match m with
  | no_match => 0
  | found p _ => List.length p
  end.

(** [match.length()] *)
Definition mlength (m : smatch) : nat := List.length (str0 m).

(** The leftmost start offset in [s] at which [r] matches, with the length
    of the match there.  Every offset up to the end of [s] is tried. *)
Fixpoint search_from (r : regex) (s : str) : option (nat * nat) :=
  match match_here r s with
  | Some n => Some (0, n)
  | None =>
      match s with
      | [] => None
      | _ :: s' =>
          match search_from r s' with
          | Some (p, n) => Some (S p, n)
          | None => None
          end
      end
  end.

(** [std::regex_search(first, last, match, pattern)] over the text [s]. *)
Definition regex_search (r : regex) (s : str) : smatch :=
  match search_from r s with
  | Some (p, n) => found (firstn p s) (firstn n (skipn p s))
  | None => no_match
  end.

(** ** lex.h *)

Definition TOKEN_ILLEGAL : str := "illegal".
Definition TOKEN_STATEMENT : str := "statement".
Definition TOKEN_TAG : str := "tag".
Definition TOKEN_EXPRESSION : str := "expression".
Definition TOKEN_LITERAL : str := "literal".
Definition TOKEN_EOF : str := "eof".

(** A sequence of patterns, one after the other. *)
Definition seq (rs : list regex) : regex := fold_right Cat Eps rs.

(** The pattern [\s*]. *)
Definition re_whitespace : regex := Star Space.

(** The pattern [\{%-?\s*endraw\s*-?%}]. *)
Definition re_endraw : regex :=
  seq [Chr "{"; Chr "%"; Opt (Chr "-"); Star Space;
       Chr "e"; Chr "n"; Chr "d"; Chr "r"; Chr "a"; Chr "w";
       Star Space; Opt (Chr "-"); Chr "%"; Chr "}"].

Record Token : Type := mkToken {
  linenum : nat;
  type : str;
  value : str
}.

Definition stream_t := list Token.

(** [class State]: the source, the iterator [it_] as an offset from
    [begin_] ([end_] is the length of the source) and the line counter,
    an [unsigned int] in the source and a natural number here. *)
Record State : Type := mkState {
  source_ : str;
  it_ : nat;
  linenum_ : nat
}.

Record Lexer : Type := mkLexer {
  statement_start_ : str;
  statement_end_ : str;
  tag_start_ : str;
  tag_end_ : str;
  strip_tags_ : bool;
  re_statement_start_ : regex;
  re_statement_end_ : regex;
  re_tag_start_ : regex;
  re_tag_end_ : regex;
  re_literal_end_ : regex;
  re_name_end_ : regex
}.

(** ** lex.cpp: the cursor *)

(** Member functions of [State] run in a state monad over [State]; [None]
    is an exception leaving the function ([std::out_of_range] is the only
    one the code can raise). *)
Definition M (A : Type) : Type := State -> option (A * State).

Definition ret {A : Type} (a : A) : M A := fun st => Some (a, st).

Definition bind {A B : Type} (c : M A) (f : A -> M B) : M B :=
  fun st =>
    match c st with
    | Some (a, st') => f a st'
    | None => None
    end.

Notation "x <- c1 ;; c2" := (bind c1 (fun x => c2))
  (at level 61, c1 at next level, right associativity).
Notation "' pat <- c1 ;; c2" := (bind c1 (fun x => match x with pat => c2 end))
  (at level 61, pat pattern, c1 at next level, right associativity).
Notation "c1 ;;; c2" := (bind c1 (fun _ => c2))
  (at level 61, right associativity).

(** [State::State(source)] *)
Definition State_new (source : str) : State :=
  {| source_ := source; it_ := 0; linenum_ := 1 |}.

(** [State::Position()]: [std::distance(begin_, it_)].  The source
    returns it as an [unsigned int]; here it is the distance itself, which
    is the same number on a source of less than 2^32 characters. *)
Definition Position (st : State) : nat := it_ st.

(** The range [[it_, end_)] the searches run over. *)
Definition remaining (st : State) : str := skipn (it_ st) (source_ st).

(** [State::linenum()] *)
Definition State_linenum : M nat := fun st => Some (linenum_ st, st).

(** [State::End()] *)
Definition End : M bool :=
  fun st => Some (it_ st =? List.length (source_ st), st).

(** [State::At(str)] *)
Definition At (s : str) : M bool :=
  fun st =>
    let pos := Position st in
    Some (match rfind (source_ st) s pos with
          | Some found_at => found_at =? pos
          | None => false
          end, st).

(** [State::ReadUntil(pattern, match)]; the match object written through
    the pointer is returned next to the text.  The source keeps [pos] and
    [length] in an [int]; here they are natural numbers, which is the
    same on a source of less than 2^31 characters. *)
Definition ReadUntil (pattern : regex) : M (str * smatch) :=
  fun st =>
    let pos := Position st in
    let m := regex_search pattern (remaining st) in
    if matched m then
      let length := position0 m in
      match substr (source_ st) pos length with
      | Some result =>
          Some ((result, m),
                {| source_ := source_ st;
                   it_ := it_ st + length;
                   linenum_ := linenum_ st + count newline result |})
      | None => None
      end
    else
      match substr_from (source_ st) pos with
      | Some result =>
          Some ((result, m),
                {| source_ := source_ st;
                   it_ := List.length (source_ st);
                   linenum_ := linenum_ st + count newline result |})
      | None => None
      end.

(** [State::Read(pattern, match)]; [pos] is an [int] in the source, as
    in [ReadUntil]. *)
Definition Read (pattern : regex) : M (str * smatch) :=
  fun st =>
    let pos := Position st in
    let m := regex_search pattern (remaining st) in
    if matched m && (position0 m =? 0) then
      match substr (source_ st) pos (mlength m) with
      | Some result =>
          Some ((result, m),
                {| source_ := source_ st;
                   it_ := it_ st + mlength m;
                   linenum_ := linenum_ st + count newline result |})
      | None => None
      end
    else Some (([], m), st).

(** [State::EatEnd(pattern, match, strip_tags)] *)
Definition EatEnd (pattern : regex) (strip_tags : bool) : M smatch :=
  '(value, m) <- Read pattern ;;
  if strip_tags || contains "-" value
  then '(_, m') <- Read re_whitespace ;; ret m'
  else ret m.

(** ** lex.cpp: the lexer *)

(** The patterns both constructors install. *)

(** The pattern [\{\{-?\s*]. *)
Definition pat_statement_start : regex :=
  seq [Chr "{"; Chr "{"; Opt (Chr "-"); Star Space].

(** The pattern [\s*-?}}]. *)
Definition pat_statement_end : regex :=
  seq [Star Space; Opt (Chr "-"); Chr "}"; Chr "}"].

(** The pattern [\{%-?\s*]. *)
Definition pat_tag_start : regex :=
  seq [Chr "{"; Chr "%"; Opt (Chr "-"); Star Space].

(** The pattern [\s*-?%}]. *)
Definition pat_tag_end : regex :=
  seq [Star Space; Opt (Chr "-"); Chr "%"; Chr "}"].

(** The pattern [\{[\{%]-?]. *)
Definition pat_literal_end : regex :=
  seq [Chr "{"; OneOf ["{"; "%"]%char; Opt (Chr "-")].

(** The pattern [\s|-?%}]. *)
Definition pat_name_end : regex :=
  Alt Space (seq [Opt (Chr "-"); Chr "%"; Chr "}"]).

(** [Lexer::Lexer(statement_start, statement_end, tag_start, tag_end)] *)
Definition Lexer_new (statement_start statement_end tag_start tag_end : str)
  : Lexer :=
  {| statement_start_ := statement_start;
     statement_end_ := statement_end;
     tag_start_ := tag_start;
     tag_end_ := tag_end;
     strip_tags_ := false;
     re_statement_start_ := pat_statement_start;
     re_statement_end_ := pat_statement_end;
     re_tag_start_ := pat_tag_start;
     re_tag_end_ := pat_tag_end;
     re_literal_end_ := pat_literal_end;
     re_name_end_ := pat_name_end |}.

(** [Lexer::Lexer()] *)
Definition Lexer_default : Lexer :=
  {| statement_start_ := "{{";
     statement_end_ := "}}";
     tag_start_ := "{%";
     tag_end_ := "%}";
     strip_tags_ := false;
     re_statement_start_ := pat_statement_start;
     re_statement_end_ := pat_statement_end;
     re_tag_start_ := pat_tag_start;
     re_tag_end_ := pat_tag_end;
     re_literal_end_ := pat_literal_end;
     re_name_end_ := pat_name_end |}.

(** The statement branch of the loop of [Tokenize]; the result is the list
    of tokens the branch pushes. *)
Definition statement_branch (lx : Lexer) : M stream_t :=
  Read (re_statement_start_ lx) ;;;
  ln <- State_linenum ;;
  '(v, _) <- ReadUntil (re_statement_end_ lx) ;;
  EatEnd (re_statement_end_ lx) (strip_tags_ lx) ;;;
  ret [mkToken ln TOKEN_STATEMENT v].

(** The tag branch, with the special case of the [raw] tag. *)
Definition tag_branch (lx : Lexer) : M stream_t :=
  Read (re_tag_start_ lx) ;;;
  ln <- State_linenum ;;
  '(name, _) <- ReadUntil (re_name_end_ lx) ;;
  let tokens := [mkToken ln TOKEN_TAG name] in
  ln <- State_linenum ;;
  '(v, _) <- ReadUntil (re_tag_end_ lx) ;;
  let v := strings.strip v in
  let tokens :=
    match v with
    | [] => tokens
    | _ :: _ => tokens ++ [mkToken ln TOKEN_EXPRESSION v]
    end in
  EatEnd (re_tag_end_ lx) (strip_tags_ lx) ;;;
  if str_eqb name "raw" then
    ln <- State_linenum ;;
    '(v, _) <- ReadUntil re_endraw ;;
    ret (tokens ++ [mkToken ln TOKEN_LITERAL v])
  else ret tokens.

(** The test [match.str(0).back() == '-'] of the literal branch.  [None]
    when [back()] is applied to an empty string, where it has no value. *)
Definition trim_marked (m : smatch) : option bool :=
  match back (str0 m) with
  | Some c => Some (Ascii.eqb c "-")
  | None => None
  end.

(** The literal branch.  When the search of [ReadUntil] failed the test
    reads the last character of an empty string, which the source leaves
    undefined; the text is then taken as read, as when the character is
    not the trim marker.  What is stated about the text of a Literal
    token is stated for a search that succeeded. *)
Definition literal_branch (lx : Lexer) : M stream_t :=
  ln <- State_linenum ;;
  '(v, m) <- ReadUntil (re_literal_end_ lx) ;;
  let v :=
    match trim_marked m with
    | Some true => strings.rstrip v
    | Some false => v
    | None => v
    end in
  ret [mkToken ln TOKEN_LITERAL v].

(** One turn of the [while] loop of [Tokenize]. *)
Definition iteration (lx : Lexer) : M stream_t :=
  at_statement <- At (statement_start_ lx) ;;
  if at_statement then statement_branch lx
  else
    at_tag <- At (tag_start_ lx) ;;
    if at_tag then tag_branch lx
    else literal_branch lx.

(** What a call can come to: it returns, it leaves by an exception, or
    the model runs out of the turns it was given. *)
Inductive outcome (A : Type) : Type :=
| Returned (a : A)
| Thrown
| OutOfFuel.
Arguments Returned {A} a.
Arguments Thrown {A}.
Arguments OutOfFuel {A}.

(** [while (!state.End()) { ... }], at most [fuel] tests of the condition. *)
Fixpoint while_loop (fuel : nat) (lx : Lexer) (tokens : stream_t) (st : State)
  : outcome (stream_t * State) :=
  match fuel with
  | 0 => OutOfFuel
  | S fuel' =>
      match End st with
      | None => Thrown
      | Some (true, st1) => Returned (tokens, st1)
      | Some (false, st1) =>
          match iteration lx st1 with
          | None => Thrown
          | Some (pushed, st2) => while_loop fuel' lx (tokens ++ pushed) st2
          end
      end
  end.

(** [Lexer::Tokenize(source)] *)
Definition Tokenize (fuel : nat) (lx : Lexer) (source : str)
  : outcome stream_t :=
  match while_loop fuel lx [] (State_new source) with
  | Returned (tokens, st) =>
      match State_linenum st with
      | Some (ln, _) => Returned (tokens ++ [mkToken ln TOKEN_EOF ""])
      | None => Thrown
      end
  | Thrown => Thrown
  | OutOfFuel => OutOfFuel
  end.

(** * The vocabulary of the statements *)

(** The iterator lies between [begin_] and [end_]. *)
Definition in_range (st : State) : Prop :=
  it_ st <= List.length (source_ st).

(** The integer types of [State].  [Position] returns [unsigned int],
    [ReadUntil] and [Read] keep the position and the length of the prefix
    in an [int], and [linenum_] is an [unsigned int]: a size [n] becomes
    [to_unsigned_int n], respectively [to_int n] (32 bits, two's
    complement). *)
Definition to_unsigned_int (n : nat) : Z := (Z.of_nat n mod 2 ^ 32)%Z.

Definition to_int (n : nat) : Z :=
  ((Z.of_nat n + 2 ^ 31) mod 2 ^ 32 - 2 ^ 31)%Z.

(** The source is short enough for every position and every length in it
    to be a value of [int]. *)
Definition fits_int (source : str) : Prop :=
  (Z.of_nat (List.length source) < 2 ^ 31)%Z.

(** The line counter is one more than the number of newlines consumed. *)
Definition lines_counted (st : State) : Prop :=
  linenum_ st = 1 + count newline (firstn (it_ st) (source_ st)).

Definition cursor_inv (st : State) : Prop :=
  in_range st /\ lines_counted st.

(** The cursor after it consumed the text [v]. *)
Definition advance (st : State) (v : str) : State :=
  {| source_ := source_ st;
     it_ := it_ st + List.length v;
     linenum_ := linenum_ st + count newline v |}.

(** What [ReadUntil] returns on the text [s] ahead of the cursor. *)
Definition until_text (pattern : regex) (s : str) : str :=
  match regex_search pattern s with
  | found pre _ => pre
  | no_match => s
  end.

(** What [Read] returns on the text [s] ahead of the cursor. *)
Definition anchored_text (pattern : regex) (s : str) : str :=
  match regex_search pattern s with
  | found [] m0 => m0
  | _ => []
  end.

(** A computation that returns, keeps the source, never moves the cursor
    back and keeps the invariant of the cursor. *)
Definition steps_ok {A : Type} (c : M A) (st : State) : Prop :=
  exists (a : A) (st' : State),
    c st = Some (a, st') /\
    source_ st' = source_ st /\
    it_ st <= it_ st' /\
    cursor_inv st'.

(** The words a pattern denotes. *)
Inductive matches : regex -> str -> Prop :=
| matches_eps : matches Eps []
| matches_chr (c : ascii) : matches (Chr c) [c]
| matches_space (a : ascii) : isspace a = true -> matches Space [a]
| matches_oneof (a : ascii) (cs : list ascii) :
    existsb (Ascii.eqb a) cs = true -> matches (OneOf cs) [a]
| matches_cat (r1 r2 : regex) (w1 w2 : str) :
    matches r1 w1 -> matches r2 w2 -> matches (Cat r1 r2) (w1 ++ w2)
| matches_alt_l (r1 r2 : regex) (w : str) :
    matches r1 w -> matches (Alt r1 r2) w
| matches_alt_r (r1 r2 : regex) (w : str) :
    matches r2 w -> matches (Alt r1 r2) w
| matches_opt_none (r : regex) : matches (Opt r) []
| matches_opt_some (r : regex) (w : str) :
    matches r w -> matches (Opt r) w
| matches_star_nil (r : regex) : matches (Star r) []
| matches_star_cons (r : regex) (w1 w2 : str) :
    matches r w1 -> matches (Star r) w2 -> matches (Star r) (w1 ++ w2).

(** The loop of [run] on [r*], by name. *)
Definition star_loop {A : Type} (r : regex) (k : str -> option A)
  : nat -> str -> option A :=
  fix loop (n : nat) (s : str) {struct n} : option A :=
    match n with
    | 0 => k s
    | S n' =>
        orelse
          (run r s (fun s' =>
                      if List.length s' <? List.length s
                      then loop n' s' else None))
          (k s)
    end.

(** The text [EatEnd] consumes: the anchored match and, when asked for,
    the white space after it. *)
Definition eaten (pattern : regex) (strip_tags : bool) (s : str) : str :=
  let v := anchored_text pattern s in
  let s' := skipn (List.length v) s in
  if strip_tags || contains "-" v
  then v ++ anchored_text re_whitespace s'
  else v.

(** The text after a leading run of white space. *)
Fixpoint skip_spaces (s : str) : str :=
  match s with
  | [] => []
  | a :: s' => if isspace a then skip_spaces s' else s
  end.

(** The text after an optional trim marker. *)
Definition skip_dash (s : str) : str :=
  match s with
  | [] => []
  | a :: s' => if Ascii.eqb a "-" then s' else s
  end.

(** The first character, if any, is not white space. *)
Definition no_space_ahead (s : str) : Prop :=
  match s with
  | [] => True
  | a :: _ => isspace a = false
  end.

(** The last character, if any, is not white space. *)
Definition no_space_behind (s : str) : Prop := no_space_ahead (rev s).

Definition all_space (s : str) : Prop := forallb isspace s = true.

Definition dash_or_empty (d : str) : Prop := d = [] \/ d = ["-"%char].

(** The opening patterns: an opening brace, the character [c], an
    optional trim marker, white space. *)
Definition pat_open (c : ascii) : regex :=
  seq [Chr "{"; Chr c; Opt (Chr "-"); Star Space].

(** The closing patterns: white space, an optional trim marker, the
    character [c], a closing brace. *)
Definition pat_close (c : ascii) : regex :=
  seq [Star Space; Opt (Chr "-"); Chr c; Chr "}"].

Definition statement_view (lx : Lexer) (ln : nat) (rem : str)
  : stream_t * str :=
  let v1 := anchored_text (re_statement_start_ lx) rem in
  let rem1 := skipn (List.length v1) rem in
  let v := until_text (re_statement_end_ lx) rem1 in
  let rem2 := skipn (List.length v) rem1 in
  let e := eaten (re_statement_end_ lx) (strip_tags_ lx) rem2 in
  ([mkToken (ln + count newline v1) TOKEN_STATEMENT v], v1 ++ v ++ e).

Definition expression_tokens (ln : nat) (v : str) : stream_t :=
  match strings.strip v with
  | [] => []
  | _ :: _ => [mkToken ln TOKEN_EXPRESSION (strings.strip v)]
  end.

Definition tag_view (lx : Lexer) (ln : nat) (rem : str) : stream_t * str :=
  let v1 := anchored_text (re_tag_start_ lx) rem in
  let rem1 := skipn (List.length v1) rem in
  let name := until_text (re_name_end_ lx) rem1 in
  let rem2 := skipn (List.length name) rem1 in
  let v := until_text (re_tag_end_ lx) rem2 in
  let rem3 := skipn (List.length v) rem2 in
  let e := eaten (re_tag_end_ lx) (strip_tags_ lx) rem3 in
  let rem4 := skipn (List.length e) rem3 in
  let ln1 := ln + count newline v1 in
  let ln2 := ln1 + count newline name in
  let ln3 := ln2 + count newline v + count newline e in
  let tokens := mkToken ln1 TOKEN_TAG name :: expression_tokens ln2 v in
  if str_eqb name "raw"
  then (tokens ++ [mkToken ln3 TOKEN_LITERAL (until_text re_endraw rem4)],
        v1 ++ name ++ v ++ e ++ until_text re_endraw rem4)
  else (tokens, v1 ++ name ++ v ++ e).

Definition literal_view (lx : Lexer) (ln : nat) (rem : str) : stream_t * str :=
  let v := until_text (re_literal_end_ lx) rem in
  let v' :=
    match trim_marked (regex_search (re_literal_end_ lx) rem) with
    | Some true => strings.rstrip v
    | _ => v
    end in
  ([mkToken ln TOKEN_LITERAL v'], v).

Definition iteration_view (lx : Lexer) (ln : nat) (rem : str)
  : stream_t * str :=
  if starts_with (statement_start_ lx) rem then statement_view lx ln rem
  else if starts_with (tag_start_ lx) rem then tag_view lx ln rem
  else literal_view lx ln rem.

(** A computation of the cursor agrees with a view. *)
Definition agrees (c : M stream_t) (view : nat -> str -> stream_t * str)
           (st : State) : Prop :=
  exists st',
    c st = Some (fst (view (linenum_ st) (remaining st)), st') /\
    st' = advance st (snd (view (linenum_ st) (remaining st))) /\
    in_range st' /\
    remaining st = snd (view (linenum_ st) (remaining st)) ++ remaining st'.

(** White space in the sense of [strings::notspace]: newline, space, tab
    and carriage return. *)
Definition blank (c : ascii) : bool := negb (strings.notspace c).

Definition all_blank (s : str) : Prop := forallb blank s = true.

(** The first character, if any, is not blank. *)
Definition no_blank_ahead (s : str) : Prop :=
  match s with
  | [] => True
  | a :: _ => strings.notspace a = true
  end.

(** The last character, if any, is not blank. *)
Definition no_blank_behind (s : str) : Prop := no_blank_ahead (rev s).

(** The closing of a statement: white space, a trim marker or none, the
    closing delimiter. *)
Definition closing_delimiter (w : str) : Prop :=
  exists ws d, w = ws ++ d ++ lit "}}" /\ all_space ws /\ dash_or_empty d.

(** The tags that end a raw block. *)
Definition endraw_tag (w : str) : Prop :=
  exists d ws ws' d',
    w = lit "{%" ++ d ++ ws ++ lit "endraw" ++ ws' ++ d' ++ lit "%}" /\
    dash_or_empty d /\ all_space ws /\ all_space ws' /\ dash_or_empty d'.

(** The closing of a tag: white space, a trim marker or none, the closing
    delimiter. *)
Definition tag_closing (w : str) : Prop :=
  exists ws d, w = ws ++ d ++ lit "%}" /\ all_space ws /\ dash_or_empty d.

(** What ends the name of a tag: one white space character, or the
    closing delimiter of a tag behind a trim marker or none. *)
Definition name_end (w : str) : Prop :=
  (exists a, w = [a] /\ isspace a = true) \/
  (exists d, w = d ++ lit "%}" /\ dash_or_empty d).

(** In the text [v ++ rest], [v] is the part before the first word of the
    kind [P], or the whole text when no such word starts in it. *)
Definition up_to_first (P : str -> Prop) (v rest : str) : Prop :=
  (forall q w r,
      q < List.length v -> skipn q (v ++ rest) = w ++ r -> ~ P w) /\
  (rest = [] \/ exists w after, rest = w ++ after /\ P w).

(** The four characters [strings::strip] removes, by their codes: line
    feed, space, horizontal tab and carriage return. *)
Definition stripped_char (c : ascii) : Prop :=
  c = "010"%char \/ c = " "%char \/ c = "009"%char \/ c = "013"%char.

(** The first character, if any, is not one of the four. *)
Definition unstripped_ahead (s : str) : Prop :=
  match s with
  | [] => True
  | a :: _ => ~ stripped_char a
  end.

(** The last character, if any, is not one of the four. *)
Definition unstripped_behind (s : str) : Prop := unstripped_ahead (rev s).

(** The line numbers of the tokens do not decrease, from [lo] up to [hi]. *)
Fixpoint lines_chain (lo : nat) (tokens : stream_t) (hi : nat) : Prop :=
  match tokens with
  | [] => lo <= hi
  | t :: rest => lo <= linenum t /\ lines_chain (linenum t) rest hi
  end.

(** Every Expression token comes right after a Tag token; [after_tag]
    says whether the token before the first one is a Tag token. *)
Fixpoint expressions_follow_tags (after_tag : bool) (tokens : stream_t)
  : Prop :=
  match tokens with
  | [] => True
  | t :: rest =>
      (type t = TOKEN_EXPRESSION -> after_tag = true) /\
      expressions_follow_tags (str_eqb (type t) TOKEN_TAG) rest
  end.

(** The kinds of token the loop of [Tokenize] pushes. *)
Definition scanned_kind (t : Token) : Prop :=
  type t = TOKEN_STATEMENT \/ type t = TOKEN_TAG \/
  type t = TOKEN_EXPRESSION \/ type t = TOKEN_LITERAL.

(** The opening delimiters [a] and [c] of a lexer recognise the two
    delimiters its patterns are written for: one of them is a prefix of
    the opening of a statement, and one of them a prefix of the opening of
    a tag. *)
Definition covers (a c : str) : bool :=
  (starts_with a "{{" || starts_with c "{{") &&
  (starts_with a "{%" || starts_with c "{%").

(** A turn of the loop on the text [rem] would leave the cursor where it
    is: neither opening delimiter of the lexer is ahead, and a delimiter
    of the literal-end pattern is. *)
Definition stalls (a c : str) (rem : str) : Prop :=
  starts_with a rem = false /\ starts_with c rem = false /\
  (starts_with "{{" rem = true \/ starts_with "{%" rem = true).

(** * Properties *)

(** ** The lexer on the source of [main] and on small sources *)

Example Tokenize_main :
  Tokenize 9 Lexer_default
    "<html><title>{{ product.title
 -}}
</title>

{%- if true %}hello{% endif %}</html>" =
  Returned [mkToken 1 TOKEN_LITERAL "<html><title>";
            mkToken 1 TOKEN_STATEMENT "product.title";
            mkToken 3 TOKEN_LITERAL "</title>";
            mkToken 5 TOKEN_TAG "if";
            mkToken 5 TOKEN_EXPRESSION "true";
            mkToken 5 TOKEN_LITERAL "hello";
            mkToken 5 TOKEN_TAG "endif";
            mkToken 5 TOKEN_LITERAL "</html>";
            mkToken 5 TOKEN_EOF ""].
Proof. vm_compute. reflexivity. Qed.

Example Tokenize_trim_markers :
  Tokenize 4 Lexer_default
    "{%- if true -%}
 X 
{%- endif -%}" =
  Returned [mkToken 1 TOKEN_TAG "if";
            mkToken 1 TOKEN_EXPRESSION "true";
            mkToken 2 TOKEN_LITERAL "X";
            mkToken 3 TOKEN_TAG "endif";
            mkToken 3 TOKEN_EOF ""].
Proof. vm_compute. reflexivity. Qed.

Example Tokenize_unterminated :
  Tokenize 2 Lexer_default "{{ unterminated" =
  Returned [mkToken 1 TOKEN_STATEMENT "unterminated"; mkToken 1 TOKEN_EOF ""].
Proof. vm_compute. reflexivity. Qed.

Example Tokenize_else :
  Tokenize 4 Lexer_default "a{% else %}b" =
  Returned [mkToken 1 TOKEN_LITERAL "a";
            mkToken 1 TOKEN_TAG "else";
            mkToken 1 TOKEN_LITERAL "b";
            mkToken 1 TOKEN_EOF ""].
Proof. vm_compute. reflexivity. Qed.

Example Tokenize_empty :
  Tokenize 1 Lexer_default "" = Returned [mkToken 1 TOKEN_EOF ""].
Proof. reflexivity. Qed.

(** The patterns at work: leftmost start, greedy white space. *)
Example search_statement_end :
  regex_search pat_statement_end "name  -}} rest" =
  found (lit "name") (lit "  -}}").
Proof. vm_compute. reflexivity. Qed.

Example search_name_end :
  regex_search pat_name_end "endraw-%}" = found (lit "endraw") (lit "-%}").
Proof. vm_compute. reflexivity. Qed.

Example search_whitespace_at_end :
  regex_search re_whitespace "" = found (lit "") (lit "").
Proof. vm_compute. reflexivity. Qed.

Example strip_blanks :
  strings.strip " 	x y
 " = lit "x y".
Proof. vm_compute. reflexivity. Qed.

(** ** Text *)

Lemma starts_with_app (p s : str) :
  starts_with p s = true <-> exists rest, s = p ++ rest.
Proof.
  revert s; induction p as [|a p IH]; intros s; simpl.
  - split; [intros _; now exists s | reflexivity].
  - destruct s as [|b s].
    + split; [discriminate | intros [rest H]; discriminate].
    + rewrite andb_true_iff, Ascii.eqb_eq, IH. split.
      * intros [-> [rest ->]]. now exists rest.
      * intros [rest H]. injection H as -> ->. split; [reflexivity | now exists rest].
Qed.

Lemma starts_with_length (p s : str) :
  starts_with p s = true -> List.length p <= List.length s.
Proof.
  intros H. apply starts_with_app in H. destruct H as [rest ->].
  rewrite length_app. lia.
Qed.

Lemma count_app (c : ascii) (a b : str) :
  count c (a ++ b) = count c a + count c b.
Proof. unfold count. now rewrite filter_app, length_app. Qed.

Lemma firstn_add_skipn (n k : nat) (s : str) :
  firstn (n + k) s = firstn n s ++ firstn k (skipn n s).
Proof.
  revert s; induction n as [|n IH]; intros s; simpl; [reflexivity|].
  destruct s as [|a s]; simpl.
  - now rewrite firstn_nil.
  - now rewrite IH.
Qed.

Lemma firstn_app_exact (n : nat) (a b : str) :
  n = List.length a -> firstn n (a ++ b) = a.
Proof.
  intros ->. rewrite firstn_app, Nat.sub_diag, firstn_all. simpl.
  apply app_nil_r.
Qed.

Lemma skipn_length_app (a b : str) : skipn (List.length a) (a ++ b) = b.
Proof. now rewrite skipn_app, Nat.sub_diag, skipn_all. Qed.

Lemma same_length_prefix (a b c d : str) :
  a ++ b = c ++ d -> List.length a = List.length c -> a = c /\ b = d.
Proof.
  revert c. induction a as [|x a IH]; intros [|y c] H L; try discriminate.
  - now split.
  - simpl in *. injection H as -> H. injection L as L.
    destruct (IH c H L) as [-> ->]. now split.
Qed.

Lemma skipn_skipn_add (n k : nat) (s : str) :
  skipn k (skipn n s) = skipn (n + k) s.
Proof.
  revert s; induction n as [|n IH]; intros s; simpl; [reflexivity|].
  destruct s as [|a s]; simpl; [now rewrite skipn_nil | apply IH].
Qed.

(** ** The matcher *)

(** The continuation of a match is called on a tail of the text. *)
Lemma run_tail (A : Type) (r : regex) :
  forall (s : str) (k : str -> option A) (x : A),
    run r s k = Some x ->
    exists n, n <= List.length s /\ k (skipn n s) = Some x.
Proof.
  induction r as [|c| |cs|r1 IH1 r2 IH2|r1 IH1 r2 IH2|r1 IH1|r1 IH1];
    intros s k x H; simpl in H.
  - exists 0. split; [lia | exact H].
  - destruct s as [|a s]; [discriminate|].
    destruct (Ascii.eqb a c); [|discriminate].
    exists 1. simpl. split; [lia | exact H].
  - destruct s as [|a s]; [discriminate|].
    destruct (isspace a); [|discriminate].
    exists 1. simpl. split; [lia | exact H].
  - destruct s as [|a s]; [discriminate|].
    destruct (existsb (Ascii.eqb a) cs); [|discriminate].
    exists 1. simpl. split; [lia | exact H].
  - apply IH1 in H. destruct H as [n [Hn H]]. cbv beta in H.
    apply IH2 in H. destruct H as [n' [Hn' H]].
    rewrite length_skipn in Hn'. rewrite skipn_skipn_add in H.
    exists (n + n'). split; [lia | exact H].
  - unfold orelse in H. destruct (run r1 s k) eqn:E.
    + injection H as ->. now apply IH1 in E.
    + now apply IH2 in H.
  - unfold orelse in H. destruct (run r1 s k) eqn:E.
    + injection H as ->. now apply IH1 in E.
    + exists 0. split; [lia | exact H].
  - revert H. generalize (List.length s) at 1. intros fuel. revert s.
    induction fuel as [|fuel IHf]; intros s H.
    + exists 0. split; [lia | exact H].
    + unfold orelse in H.
      match type of H with
      | match ?e with _ => _ end = _ => destruct e eqn:E
      end.
      * injection H as ->. apply IH1 in E. destruct E as [n [Hn E]].
        cbv beta in E.
        destruct (List.length (skipn n s) <? List.length s); [|discriminate].
        apply IHf in E. destruct E as [n' [Hn' E]].
        rewrite length_skipn in Hn'. rewrite skipn_skipn_add in E.
        exists (n + n'). split; [lia | exact E].
      * exists 0. split; [lia | exact H].
Qed.

Lemma match_here_le (r : regex) (s : str) (n : nat) :
  match_here r s = Some n -> n <= List.length s.
Proof.
  unfold match_here. intros H. apply run_tail in H.
  destruct H as [m [Hm H]]. injection H as <-. lia.
Qed.

Lemma search_from_spec (r : regex) :
  forall (s : str) (p n : nat),
    search_from r s = Some (p, n) ->
    p <= List.length s /\
    match_here r (skipn p s) = Some n /\
    forall q, q < p -> match_here r (skipn q s) = None.
Proof.
  induction s as [|a s IH]; intros p n H; simpl in H.
  - destruct (match_here r []) eqn:E; [|discriminate].
    injection H as <- <-. simpl. repeat split; [lia | exact E | intros q Hq; lia].
  - destruct (match_here r (a :: s)) eqn:E.
    + injection H as <- <-. simpl. repeat split; [lia | exact E | intros q Hq; lia].
    + destruct (search_from r s) as [[p' n']|] eqn:E'; [|discriminate].
      injection H as <- <-. destruct (IH _ _ eq_refl) as [Hp [Hm Hq]].
      simpl. repeat split; [lia | exact Hm |].
      intros [|q] Hlt; simpl; [exact E | apply Hq; lia].
Qed.

Lemma search_from_none (r : regex) :
  forall (s : str),
    search_from r s = None ->
    forall q, match_here r (skipn q s) = None.
Proof.
  induction s as [|a s IH]; intros H q; simpl in H.
  - destruct (match_here r []) eqn:E; [discriminate|].
    now rewrite skipn_nil.
  - destruct (match_here r (a :: s)) eqn:E; [discriminate|].
    destruct (search_from r s) as [[p' n']|] eqn:E'; [discriminate|].
    destruct q as [|q]; simpl; [exact E | now apply IH].
Qed.

(** A search that finds the pattern at the head reports offset 0. *)
Lemma search_from_here (r : regex) (s : str) (n : nat) :
  match_here r s = Some n -> search_from r s = Some (0, n).
Proof. intros H. destruct s; simpl; now rewrite H. Qed.

(** The match object of a search: its prefix and its text are consecutive
    slices of the searched text. *)
Lemma regex_search_found (r : regex) (s pre m0 : str) :
  regex_search r s = found pre m0 ->
  exists rest,
    s = pre ++ m0 ++ rest /\
    match_here r (m0 ++ rest) = Some (List.length m0) /\
    forall q, q < List.length pre -> match_here r (skipn q s) = None.
Proof.
  unfold regex_search. intros H.
  destruct (search_from r s) as [[p n]|] eqn:E; [|discriminate].
  injection H as <- <-.
  destruct (search_from_spec _ _ _ _ E) as [Hp [Hm Hq]].
  pose proof (match_here_le _ _ _ Hm) as Hn. rewrite length_skipn in Hn.
  exists (skipn n (skipn p s)).
  rewrite firstn_skipn, firstn_skipn.
  rewrite !length_firstn, length_skipn.
  replace (Nat.min n (List.length s - p)) with n by lia.
  replace (Nat.min p (List.length s)) with p by lia.
  repeat split; [exact Hm | exact Hq].
Qed.

Lemma regex_search_no_match (r : regex) (s : str) :
  regex_search r s = no_match ->
  forall q, match_here r (skipn q s) = None.
Proof.
  unfold regex_search. intros H.
  destruct (search_from r s) as [[p n]|] eqn:E; [discriminate|].
  now apply search_from_none.
Qed.

(** ** The cursor *)

Lemma advance_nil (st : State) : advance st [] = st.
Proof.
  destruct st as [src it ln]. unfold advance, count. simpl.
  now rewrite !Nat.add_0_r.
Qed.

Lemma remaining_advance (st : State) (v rest : str) :
  remaining st = v ++ rest -> remaining (advance st v) = rest.
Proof.
  unfold remaining, advance. simpl. intros H.
  rewrite <- skipn_skipn_add, H, skipn_app, Nat.sub_diag, skipn_all.
  reflexivity.
Qed.

Lemma in_range_advance (st : State) (v rest : str) :
  in_range st -> remaining st = v ++ rest -> in_range (advance st v).
Proof.
  unfold in_range, remaining, advance. simpl. intros Hr H.
  assert (L : List.length (skipn (it_ st) (source_ st)) = List.length (v ++ rest))
    by now rewrite H.
  rewrite length_skipn, length_app in L. lia.
Qed.

Lemma lines_counted_advance (st : State) (v rest : str) :
  lines_counted st -> remaining st = v ++ rest -> lines_counted (advance st v).
Proof.
  unfold lines_counted, remaining, advance. simpl. intros Hl H.
  rewrite firstn_add_skipn, count_app, H, firstn_app, Nat.sub_diag.
  simpl. rewrite firstn_all, app_nil_r. lia.
Qed.

Lemma cursor_inv_advance (st : State) (v rest : str) :
  cursor_inv st -> remaining st = v ++ rest -> cursor_inv (advance st v).
Proof.
  intros [Hr Hl] H. split;
    [eapply in_range_advance | eapply lines_counted_advance]; eassumption.
Qed.

Lemma cursor_inv_new (source : str) : cursor_inv (State_new source).
Proof. split; [unfold in_range; simpl; lia | reflexivity]. Qed.

Lemma until_text_split (pattern : regex) (s : str) :
  exists rest, s = until_text pattern s ++ rest.
Proof.
  unfold until_text. destruct (regex_search pattern s) as [|pre m0] eqn:E.
  - exists []. now rewrite app_nil_r.
  - apply regex_search_found in E. destruct E as [rest [E _]].
    now exists (m0 ++ rest).
Qed.

Lemma anchored_text_split (pattern : regex) (s : str) :
  exists rest, s = anchored_text pattern s ++ rest.
Proof.
  unfold anchored_text. destruct (regex_search pattern s) as [|pre m0] eqn:E.
  - now exists s.
  - destruct pre as [|a pre]; [|now exists s].
    apply regex_search_found in E. destruct E as [rest [E _]].
    now exists rest.
Qed.

(** [ReadUntil] on a cursor in range: no exception, the text is
    [until_text], the cursor moves past it. *)
Lemma ReadUntil_eq (pattern : regex) (st : State) :
  in_range st ->
  ReadUntil pattern st =
  Some ((until_text pattern (remaining st),
         regex_search pattern (remaining st)),
        advance st (until_text pattern (remaining st))).
Proof.
  unfold in_range. intros Hr. unfold ReadUntil, until_text, Position.
  destruct (regex_search pattern (remaining st)) as [|pre m0] eqn:E; simpl.
  - unfold substr_from.
    destruct (Nat.ltb_spec (List.length (source_ st)) (it_ st)) as [Hlt|_]; [lia|].
    unfold advance, remaining. rewrite length_skipn.
    repeat f_equal. lia.
  - unfold substr.
    destruct (Nat.ltb_spec (List.length (source_ st)) (it_ st)) as [Hlt|_]; [lia|].
    apply regex_search_found in E. destruct E as [rest [E _]].
    fold (remaining st). rewrite E, firstn_app, Nat.sub_diag. simpl.
    rewrite firstn_all, app_nil_r. reflexivity.
Qed.

(** [Read] on a cursor in range. *)
Lemma Read_eq (pattern : regex) (st : State) :
  in_range st ->
  Read pattern st =
  Some ((anchored_text pattern (remaining st),
         regex_search pattern (remaining st)),
        advance st (anchored_text pattern (remaining st))).
Proof.
  unfold in_range. intros Hr. unfold Read, anchored_text, Position, mlength.
  destruct (regex_search pattern (remaining st)) as [|pre m0] eqn:E; simpl.
  - now rewrite advance_nil.
  - destruct pre as [|a pre]; simpl; [|now rewrite advance_nil].
    unfold substr.
    destruct (Nat.ltb_spec (List.length (source_ st)) (it_ st)) as [Hlt|_]; [lia|].
    apply regex_search_found in E. destruct E as [rest [E _]].
    fold (remaining st). rewrite E. simpl. rewrite firstn_app, Nat.sub_diag.
    simpl. rewrite firstn_all, app_nil_r. reflexivity.
Qed.

Lemma steps_ok_ret (A : Type) (a : A) (st : State) :
  cursor_inv st -> steps_ok (ret a) st.
Proof. intros H. exists a, st. unfold ret. repeat split; try apply H; lia. Qed.

Lemma steps_ok_bind (A B : Type) (c : M A) (f : A -> M B) (st : State) :
  steps_ok c st ->
  (forall a st', cursor_inv st' -> steps_ok (f a) st') ->
  steps_ok (bind c f) st.
Proof.
  intros [a [st1 [E [Hs [Hp Hi]]]]] Hf.
  destruct (Hf a st1 Hi) as [b [st2 [E2 [Hs2 [Hp2 Hi2]]]]].
  exists b, st2. unfold bind. rewrite E.
  repeat split; try apply Hi2; [exact E2 | congruence | lia].
Qed.

Lemma steps_ok_advance (A : Type) (c : M A) (st : State) (a : A) (v : str) :
  cursor_inv st ->
  c st = Some (a, advance st v) ->
  (exists rest, remaining st = v ++ rest) ->
  steps_ok c st.
Proof.
  intros Hi E [rest Hrest]. exists a, (advance st v).
  split; [exact E|]. split; [reflexivity|].
  split; [unfold advance; simpl; lia|].
  eapply cursor_inv_advance; eassumption.
Qed.

Lemma ReadUntil_ok (pattern : regex) (st : State) :
  cursor_inv st -> steps_ok (ReadUntil pattern) st.
Proof.
  intros Hi. eapply steps_ok_advance; [exact Hi | apply ReadUntil_eq, Hi |].
  apply until_text_split.
Qed.

Lemma Read_ok (pattern : regex) (st : State) :
  cursor_inv st -> steps_ok (Read pattern) st.
Proof.
  intros Hi. eapply steps_ok_advance; [exact Hi | apply Read_eq, Hi |].
  apply anchored_text_split.
Qed.

Lemma EatEnd_ok (pattern : regex) (strip_tags : bool) (st : State) :
  cursor_inv st -> steps_ok (EatEnd pattern strip_tags) st.
Proof.
  intros Hi. unfold EatEnd. apply steps_ok_bind; [now apply Read_ok|].
  intros [v m] st1 H1.
  destruct (strip_tags || contains "-" v).
  - apply steps_ok_bind; [now apply Read_ok|].
    intros [v' m'] st2 H2. now apply steps_ok_ret.
  - now apply steps_ok_ret.
Qed.

Lemma query_ok (A : Type) (f : State -> A) (st : State) :
  cursor_inv st -> steps_ok (fun st => Some (f st, st)) st.
Proof. intros H. exists (f st), st. repeat split; try apply H; lia. Qed.

Lemma At_ok (s : str) (st : State) : cursor_inv st -> steps_ok (At s) st.
Proof. apply query_ok. Qed.

Lemma End_ok (st : State) : cursor_inv st -> steps_ok End st.
Proof. apply query_ok. Qed.

Lemma State_linenum_ok (st : State) :
  cursor_inv st -> steps_ok State_linenum st.
Proof. apply query_ok. Qed.

Lemma statement_branch_ok (lx : Lexer) (st : State) :
  cursor_inv st -> steps_ok (statement_branch lx) st.
Proof.
  intros Hi. unfold statement_branch.
  apply steps_ok_bind; [now apply Read_ok | intros _ st1 H1].
  apply steps_ok_bind; [now apply State_linenum_ok | intros ln st2 H2].
  apply steps_ok_bind; [now apply ReadUntil_ok | intros [v m] st3 H3].
  apply steps_ok_bind; [now apply EatEnd_ok | intros _ st4 H4].
  now apply steps_ok_ret.
Qed.

Lemma tag_branch_ok (lx : Lexer) (st : State) :
  cursor_inv st -> steps_ok (tag_branch lx) st.
Proof.
  intros Hi. unfold tag_branch.
  apply steps_ok_bind; [now apply Read_ok | intros _ st1 H1].
  apply steps_ok_bind; [now apply State_linenum_ok | intros ln st2 H2].
  apply steps_ok_bind; [now apply ReadUntil_ok | intros [name m] st3 H3].
  apply steps_ok_bind; [now apply State_linenum_ok | intros ln' st4 H4].
  apply steps_ok_bind; [now apply ReadUntil_ok | intros [v m'] st5 H5].
  apply steps_ok_bind; [now apply EatEnd_ok | intros _ st6 H6].
  destruct (str_eqb name "raw").
  - apply steps_ok_bind; [now apply State_linenum_ok | intros ln'' st7 H7].
    apply steps_ok_bind; [now apply ReadUntil_ok | intros [v' m''] st8 H8].
    now apply steps_ok_ret.
  - now apply steps_ok_ret.
Qed.

Lemma literal_branch_ok (lx : Lexer) (st : State) :
  cursor_inv st -> steps_ok (literal_branch lx) st.
Proof.
  intros Hi. unfold literal_branch.
  apply steps_ok_bind; [now apply State_linenum_ok | intros ln st1 H1].
  apply steps_ok_bind; [now apply ReadUntil_ok | intros [v m] st2 H2].
  now apply steps_ok_ret.
Qed.

Lemma iteration_ok (lx : Lexer) (st : State) :
  cursor_inv st -> steps_ok (iteration lx) st.
Proof.
  intros Hi. unfold iteration.
  apply steps_ok_bind; [now apply At_ok | intros b st1 H1].
  destruct b; [now apply statement_branch_ok|].
  apply steps_ok_bind; [now apply At_ok | intros b st2 H2].
  destruct b; [now apply tag_branch_ok | now apply literal_branch_ok].
Qed.

(** The loop of [Tokenize] never raises, and when it ends the cursor has
    not moved back and satisfies its invariant. *)
Lemma while_loop_inv (lx : Lexer) (fuel : nat) :
  forall (tokens : stream_t) (st : State),
    cursor_inv st ->
    match while_loop fuel lx tokens st with
    | Returned (_, st') =>
        source_ st' = source_ st /\ it_ st <= it_ st' /\ cursor_inv st'
    | Thrown => False
    | OutOfFuel => True
    end.
Proof.
  induction fuel as [|fuel IH]; intros tokens st Hi; simpl; [exact I|].
  destruct (it_ st =? List.length (source_ st)).
  - repeat split; try apply Hi. lia.
  - destruct (iteration_ok lx st Hi) as [pushed [st' [E [Hs [Hp Hi']]]]].
    rewrite E. specialize (IH (tokens ++ pushed) st' Hi').
    destruct (while_loop fuel lx (tokens ++ pushed) st') as [[toks st'']| |];
      [|exact IH|exact I].
    destruct IH as [Hs' [Hp' Hi'']]. repeat split; try apply Hi''; [congruence | lia].
Qed.

Lemma rfind_from_spec (s p : str) :
  forall (n x : nat),
    rfind_from s p n = Some x ->
    x <= n /\ starts_with p (skipn x s) = true.
Proof.
  induction n as [|n IH]; intros x H; cbn [rfind_from] in H.
  - destruct (starts_with p (skipn 0 s)) eqn:E; [|discriminate].
    injection H as <-. split; [lia | exact E].
  - destruct (starts_with p (skipn (S n) s)) eqn:E.
    + injection H as <-. split; [lia | exact E].
    + apply IH in H. split; [lia | apply H].
Qed.

Lemma rfind_from_here (s p : str) (n : nat) :
  starts_with p (skipn n s) = true -> rfind_from s p n = Some n.
Proof. intros H. destruct n; cbn [rfind_from]; now rewrite H. Qed.

(** [source.rfind(str, pos) == pos] says that [str] occurs at [pos]. *)
Lemma rfind_at (s p : str) (pos : nat) :
  pos <= List.length s ->
  (rfind s p pos = Some pos <-> starts_with p (skipn pos s) = true).
Proof.
  intros Hpos. unfold rfind. split.
  - destruct (List.length s <? List.length p); [discriminate|].
    intros H. apply rfind_from_spec in H. apply H.
  - intros H. pose proof (starts_with_length _ _ H) as L.
    rewrite length_skipn in L.
    destruct (Nat.ltb_spec (List.length s) (List.length p)) as [Hlt|Hge].
    + destruct p as [|a p]; simpl in *; [lia|].
      assert (List.length s = pos) by lia. subst pos.
      rewrite skipn_all in H. discriminate.
    + replace (Nat.min pos (List.length s - List.length p)) with pos by lia.
      now apply rfind_from_here.
Qed.

(** The value of [At] on a cursor in range. *)
Lemma At_eq (s : str) (st : State) :
  in_range st -> At s st = Some (starts_with s (remaining st), st).
Proof.
  intros Hr. unfold At, Position. do 2 f_equal.
  pose proof (rfind_at (source_ st) s (it_ st) Hr) as R. unfold remaining.
  destruct (rfind (source_ st) s (it_ st)) as [x|] eqn:E.
  - destruct (Nat.eqb_spec x (it_ st)) as [->|Hne].
    + symmetry. now apply R.
    + destruct (starts_with s (skipn (it_ st) (source_ st))) eqn:E'; [|reflexivity].
      assert (Some x = Some (it_ st)) as Q by now apply R.
      injection Q as ->. contradiction.
  - destruct (starts_with s (skipn (it_ st) (source_ st))) eqn:E'; [|reflexivity].
    assert (None = Some (it_ st)) as Q by now apply R. discriminate.
Qed.

(** ** The claims about the cursor *)

(** The narrowing conversions of [State] are the identity on a cursor
    that satisfies its invariant over a source of less than 2^31
    characters: the position as [unsigned int] and as [int], every length
    of a part of the text ahead as [int], the line counter as
    [unsigned int]. *)
Lemma narrowing_exact (st : State) :
  cursor_inv st -> fits_int (source_ st) ->
  to_unsigned_int (Position st) = Z.of_nat (it_ st) /\
  to_int (Position st) = Z.of_nat (it_ st) /\
  (forall n, n <= List.length (remaining st) -> to_int n = Z.of_nat n) /\
  to_unsigned_int (linenum_ st) = Z.of_nat (linenum_ st).
Proof.
  intros [Hr Hl] Hf. unfold in_range in Hr. unfold fits_int in Hf.
  unfold to_unsigned_int, to_int, Position.
  assert (Hn : forall n, n <= List.length (source_ st) ->
                         ((Z.of_nat n + 2 ^ 31) mod 2 ^ 32 - 2 ^ 31 =
                          Z.of_nat n)%Z).
  { intros n Hle. rewrite Z.mod_small; lia. }
  split; [apply Z.mod_small; lia|]. split; [now apply Hn|]. split.
  - intros n Hle. apply Hn. unfold remaining in Hle.
    rewrite length_skipn in Hle. lia.
  - apply Z.mod_small. rewrite Hl.
    assert (L : count newline (firstn (it_ st) (source_ st)) <=
                List.length (source_ st)).
    { unfold count.
      etransitivity; [apply filter_length_le|].
      rewrite length_firstn. lia. }
    lia.
Qed.

(** C5. The cursor starts with its invariant, and on a source of less
    than 2^31 characters every operation of the cursor, every turn of the
    loop of Tokenize and the loop as a whole return with the source
    unchanged, the iterator not before where it was, the iterator within
    the source and the line counter equal to 1 plus the number of newline
    characters in the source before the iterator. *)
Theorem C5_cursor_invariant :
  (forall source : str, cursor_inv (State_new source)) /\
  (forall st : State,
      cursor_inv st ->
      fits_int (source_ st) ->
      (forall pattern, steps_ok (ReadUntil pattern) st) /\
      (forall pattern, steps_ok (Read pattern) st) /\
      (forall pattern strip_tags, steps_ok (EatEnd pattern strip_tags) st) /\
      (forall s, steps_ok (At s) st) /\
      steps_ok End st /\
      steps_ok State_linenum st /\
      (forall lx, steps_ok (iteration lx) st) /\
      (forall lx fuel tokens,
          match while_loop fuel lx tokens st with
          | Returned (_, st') =>
              source_ st' = source_ st /\
              it_ st <= it_ st' /\
              cursor_inv st'
          | Thrown => False
          | OutOfFuel => True
          end)).
Proof.
  split; [exact cursor_inv_new|].
  intros st Hi _. repeat split.
  - intros pattern. now apply ReadUntil_ok.
  - intros pattern. now apply Read_ok.
  - intros pattern strip_tags. now apply EatEnd_ok.
  - intros s. now apply At_ok.
  - now apply End_ok.
  - now apply State_linenum_ok.
  - intros lx. now apply iteration_ok.
  - intros lx fuel tokens. now apply while_loop_inv.
Qed.

Lemma C5_cursor_invariant_witness :
  let st := mkState "a
{{ b }}" 5 2 in
  cursor_inv st /\ fits_int (source_ st) /\
  steps_ok (ReadUntil pat_statement_end) st /\
  ReadUntil pat_statement_end st =
    Some ((lit "b", found (lit "b") (lit " }}")), mkState "a
{{ b }}" 6 2).
Proof.
  intros st.
  assert (Hi : cursor_inv st)
    by (split; [unfold in_range; simpl; lia | reflexivity]).
  assert (Hf : fits_int (source_ st)) by (vm_compute; reflexivity).
  split; [exact Hi|]. split; [exact Hf|]. split; [|vm_compute; reflexivity].
  apply (proj2 C5_cursor_invariant st Hi Hf).
Defined.

(** C10. On a cursor within its source, At returns true when the text of
    the source that starts at the iterator and has the length of the given
    string is that string, and false when it is not; in both cases it
    returns the cursor as it was given: source, iterator and line counter
    are unchanged. *)
Theorem C10_At_starts_with (s : str) (st : State)
        (H : in_range st) (Hf : fits_int (source_ st)) :
  (firstn (List.length s) (skipn (it_ st) (source_ st)) = s ->
   At s st = Some (true, st)) /\
  (firstn (List.length s) (skipn (it_ st) (source_ st)) <> s ->
   At s st = Some (false, st)).
Proof.
  rewrite (At_eq s st H). fold (remaining st).
  destruct (starts_with s (remaining st)) eqn:E.
  - split; [reflexivity|]. intros N. exfalso. apply N.
    apply starts_with_app in E. destruct E as [rest ->].
    now apply firstn_app_exact.
  - split; [|reflexivity]. intros Q. exfalso.
    assert (T : starts_with s (remaining st) = true).
    { apply starts_with_app. exists (skipn (List.length s) (remaining st)).
      rewrite <- Q at 1. symmetry. apply firstn_skipn. }
    congruence.
Qed.

Lemma C10_At_starts_with_witness :
  let st := mkState "hi {{ name }}!" 3 1 in
  At "{{" st = Some (true, st) /\ At "{%" st = Some (false, st).
Proof.
  intros st.
  assert (Hr : in_range st) by (unfold in_range; simpl; lia).
  assert (Hf : fits_int (source_ st)) by (vm_compute; reflexivity).
  split.
  - apply (proj1 (C10_At_starts_with "{{" st Hr Hf)). reflexivity.
  - apply (proj2 (C10_At_starts_with "{%" st Hr Hf)). simpl. discriminate.
Defined.

(** ** The matcher and the language of a pattern *)

Lemma run_star (A : Type) (r : regex) (s : str) (k : str -> option A) :
  run (Star r) s k = star_loop r k (List.length s) s.
Proof. reflexivity. Qed.

Lemma star_loop_S (A : Type) (r : regex) (k : str -> option A) (n : nat) (s : str) :
  star_loop r k (S n) s =
  orelse
    (run r s (fun s' =>
                if List.length s' <? List.length s
                then star_loop r k n s' else None))
    (k s).
Proof. reflexivity. Qed.

Lemma run_ext (A : Type) (r : regex) :
  forall (s : str) (k1 k2 : str -> option A),
    (forall s', k1 s' = k2 s') -> run r s k1 = run r s k2.
Proof.
  induction r as [|c| |cs|r1 IH1 r2 IH2|r1 IH1 r2 IH2|r1 IH1|r1 IH1];
    intros s k1 k2 H.
  - simpl. apply H.
  - simpl. destruct s as [|a s]; [reflexivity|]. now rewrite H.
  - simpl. destruct s as [|a s]; [reflexivity|]. now rewrite H.
  - simpl. destruct s as [|a s]; [reflexivity|]. now rewrite H.
  - simpl. apply IH1. intros s'. now apply IH2.
  - simpl. now rewrite (IH1 s k1 k2 H), (IH2 s k1 k2 H).
  - simpl. now rewrite (IH1 s k1 k2 H), H.
  - rewrite !run_star. generalize (List.length s). intros n. revert s.
    induction n as [|n IHn]; intros s; [apply H|].
    rewrite !star_loop_S, H. f_equal. apply IH1.
    intros s'. now rewrite IHn.
Qed.

Lemma run_none (A : Type) (r : regex) :
  forall (s : str) (k : str -> option A),
    (forall s', k s' = None) -> run r s k = None.
Proof.
  induction r as [|c| |cs|r1 IH1 r2 IH2|r1 IH1 r2 IH2|r1 IH1|r1 IH1];
    intros s k H.
  - simpl. apply H.
  - simpl. destruct s as [|a s]; [reflexivity|]. now rewrite H; destruct (Ascii.eqb a c).
  - simpl. destruct s as [|a s]; [reflexivity|]. now rewrite H; destruct (isspace a).
  - simpl. destruct s as [|a s]; [reflexivity|].
    now rewrite H; destruct (existsb (Ascii.eqb a) cs).
  - simpl. apply IH1. intros s'. now apply IH2.
  - simpl. now rewrite (IH1 s k H), (IH2 s k H).
  - simpl. now rewrite (IH1 s k H), H.
  - rewrite run_star. generalize (List.length s). intros n. revert s.
    induction n as [|n IHn]; intros s; [apply H|].
    rewrite star_loop_S, H. rewrite IH1; [reflexivity|].
    intros s'. rewrite IHn. now destruct (List.length s' <? List.length s).
Qed.

(** The loop on [r*] needs no more turns than the text has characters. *)
Lemma star_loop_fuel (A : Type) (r : regex) (k : str -> option A) :
  forall (n m : nat) (s : str),
    List.length s <= n -> List.length s <= m ->
    star_loop r k n s = star_loop r k m s.
Proof.
  assert (Z : forall n s, List.length s = 0 -> star_loop r k n s = k s).
  { intros [|n] s Hs; [reflexivity|]. rewrite star_loop_S.
    rewrite run_none; [reflexivity|]. intros s'. rewrite Hs.
    reflexivity. }
  induction n as [|n IHn]; intros m s Hn Hm.
  - rewrite !Z by lia. reflexivity.
  - destruct m as [|m]; [rewrite !Z by lia; reflexivity|].
    rewrite !star_loop_S. f_equal. apply run_ext. intros s'.
    destruct (Nat.ltb_spec (List.length s') (List.length s)) as [Hlt|_];
      [|reflexivity].
    apply IHn; lia.
Qed.

(** Soundness: what the matcher consumes is a word of the pattern. *)
Lemma run_sound (A : Type) (r : regex) :
  forall (s : str) (k : str -> option A) (x : A),
    run r s k = Some x ->
    exists w rest, s = w ++ rest /\ matches r w /\ k rest = Some x.
Proof.
  induction r as [|c| |cs|r1 IH1 r2 IH2|r1 IH1 r2 IH2|r1 IH1|r1 IH1];
    intros s k x H.
  - exists [], s. repeat split; [constructor | exact H].
  - simpl in H. destruct s as [|a s]; [discriminate|].
    destruct (Ascii.eqb_spec a c) as [->|]; [|discriminate].
    exists [c], s. repeat split; [constructor | exact H].
  - simpl in H. destruct s as [|a s]; [discriminate|].
    destruct (isspace a) eqn:E; [|discriminate].
    exists [a], s. repeat split; [now constructor | exact H].
  - simpl in H. destruct s as [|a s]; [discriminate|].
    destruct (existsb (Ascii.eqb a) cs) eqn:E; [|discriminate].
    exists [a], s. repeat split; [now constructor | exact H].
  - simpl in H. apply IH1 in H. destruct H as [w1 [rest1 [-> [M1 H]]]].
    apply IH2 in H. destruct H as [w2 [rest2 [-> [M2 H]]]].
    exists (w1 ++ w2), rest2. rewrite app_assoc.
    repeat split; [now constructor | exact H].
  - simpl in H. unfold orelse in H. destruct (run r1 s k) eqn:E.
    + injection H as ->. apply IH1 in E. destruct E as [w [rest [-> [M E]]]].
      exists w, rest. repeat split; [now apply matches_alt_l | exact E].
    + apply IH2 in H. destruct H as [w [rest [-> [M H]]]].
      exists w, rest. repeat split; [now apply matches_alt_r | exact H].
  - simpl in H. unfold orelse in H. destruct (run r1 s k) eqn:E.
    + injection H as ->. apply IH1 in E. destruct E as [w [rest [-> [M E]]]].
      exists w, rest. repeat split; [now apply matches_opt_some | exact E].
    + exists [], s. repeat split; [constructor | exact H].
  - rewrite run_star in H. revert H. generalize (List.length s) at 1.
    intros n. revert s. induction n as [|n IHn]; intros s H.
    + exists [], s. repeat split; [constructor | exact H].
    + rewrite star_loop_S in H. unfold orelse in H.
      match type of H with
      | match ?e with _ => _ end = _ => destruct e eqn:E
      end.
      * injection H as ->. apply IH1 in E.
        destruct E as [w1 [rest1 [-> [M1 E]]]].
        destruct (List.length rest1 <? List.length (w1 ++ rest1)); [|discriminate].
        apply IHn in E. destruct E as [w2 [rest2 [-> [M2 E]]]].
        exists (w1 ++ w2), rest2. rewrite app_assoc.
        repeat split; [now constructor | exact E].
      * exists [], s. repeat split; [constructor | exact H].
Qed.

(** Completeness: when a word of the pattern is ahead and the continuation
    accepts what follows it, the matcher finds some match. *)
Lemma run_complete (r : regex) (w : str) :
  matches r w ->
  forall (A : Type) (rest : str) (k : str -> option A),
    k rest <> None -> run r (w ++ rest) k <> None.
Proof.
  induction 1 as [|c|a Ha|a cs Ha|r1 r2 w1 w2 _ IH1 _ IH2|r1 r2 w _ IH
                  |r1 r2 w _ IH|r|r w _ IH|r|r w1 w2 _ IH1 _ IH2];
    intros A rest k Hk.
  - exact Hk.
  - simpl. now rewrite Ascii.eqb_refl.
  - simpl. now rewrite Ha.
  - simpl. now rewrite Ha.
  - simpl. rewrite <- app_assoc. apply IH1. now apply IH2.
  - simpl. specialize (IH A rest k Hk).
    destruct (run r1 (w ++ rest) k); [discriminate | contradiction].
  - simpl. specialize (IH A rest k Hk).
    destruct (run r1 (w ++ rest) k); [discriminate | exact IH].
  - simpl. destruct (run r rest k); [discriminate | exact Hk].
  - simpl. specialize (IH A rest k Hk).
    destruct (run r (w ++ rest) k); [discriminate | contradiction].
  - rewrite run_star. destruct (List.length ([] ++ rest)); [exact Hk|].
    rewrite star_loop_S. simpl.
    match goal with |- orelse ?e _ <> None => destruct e end;
      [discriminate | exact Hk].
  - destruct w1 as [|a w1]; [now apply IH2|].
    rewrite run_star. simpl List.length. rewrite star_loop_S.
    match goal with
    | |- orelse ?e _ <> None =>
        assert (Q : e <> None); [|destruct e; [discriminate | contradiction]]
    end.
    rewrite <- app_assoc. apply IH1.
    specialize (IH2 A rest k Hk). rewrite run_star in IH2.
    match goal with
    | |- (if ?a <? ?b then _ else _) <> None =>
        destruct (Nat.ltb_spec a b) as [_|Hge];
        [|simpl in Hge; rewrite !length_app in Hge; lia]
    end.
    rewrite (star_loop_fuel A r k _ (List.length (w2 ++ rest)));
      [exact IH2 | rewrite !length_app; lia | lia].
Qed.

Lemma match_here_sound (r : regex) (s : str) (n : nat) :
  match_here r s = Some n ->
  exists w rest, s = w ++ rest /\ matches r w /\ n = List.length w.
Proof.
  unfold match_here. intros H. apply run_sound in H.
  destruct H as [w [rest [-> [M H]]]]. exists w, rest.
  repeat split; [exact M|]. injection H as <-. rewrite length_app. lia.
Qed.

Lemma match_here_complete (r : regex) (w rest : str) :
  matches r w -> match_here r (w ++ rest) <> None.
Proof. intros M. unfold match_here. now apply run_complete. Qed.

(** ** The cursor operations on the text ahead *)

Lemma Read_spec (pattern : regex) (st : State) :
  in_range st ->
  exists st',
    Read pattern st =
      Some ((anchored_text pattern (remaining st),
             regex_search pattern (remaining st)), st') /\
    st' = advance st (anchored_text pattern (remaining st)) /\
    in_range st' /\
    remaining st = anchored_text pattern (remaining st) ++ remaining st'.
Proof.
  intros Hr. eexists. split; [now apply Read_eq|]. split; [reflexivity|].
  destruct (anchored_text_split pattern (remaining st)) as [rest E].
  split; [eapply in_range_advance; eassumption|].
  now rewrite (remaining_advance _ _ _ E).
Qed.

Lemma ReadUntil_spec (pattern : regex) (st : State) :
  in_range st ->
  exists st',
    ReadUntil pattern st =
      Some ((until_text pattern (remaining st),
             regex_search pattern (remaining st)), st') /\
    st' = advance st (until_text pattern (remaining st)) /\
    in_range st' /\
    remaining st = until_text pattern (remaining st) ++ remaining st'.
Proof.
  intros Hr. eexists. split; [now apply ReadUntil_eq|]. split; [reflexivity|].
  destruct (until_text_split pattern (remaining st)) as [rest E].
  split; [eapply in_range_advance; eassumption|].
  now rewrite (remaining_advance _ _ _ E).
Qed.

Lemma advance_advance (st : State) (a b : str) :
  advance (advance st a) b = advance st (a ++ b).
Proof.
  unfold advance. simpl. rewrite length_app, count_app.
  f_equal; lia.
Qed.

Lemma EatEnd_spec (pattern : regex) (strip_tags : bool) (st : State) :
  in_range st ->
  exists m st',
    EatEnd pattern strip_tags st = Some (m, st') /\
    st' = advance st (eaten pattern strip_tags (remaining st)) /\
    in_range st' /\
    remaining st = eaten pattern strip_tags (remaining st) ++ remaining st'.
Proof.
  intros Hr. unfold EatEnd, bind, eaten.
  destruct (Read_spec pattern st Hr) as [st1 [E1 [A1 [R1 S1]]]].
  rewrite E1. cbv zeta.
  destruct (strip_tags || contains "-" (anchored_text pattern (remaining st))).
  - destruct (Read_spec re_whitespace st1 R1) as [st2 [E2 [A2 [R2 S2]]]].
    rewrite E2. unfold ret. do 2 eexists. split; [reflexivity|].
    assert (Q : skipn (List.length (anchored_text pattern (remaining st)))
                  (remaining st) = remaining st1)
      by (rewrite S1 at 2; apply skipn_length_app).
    rewrite Q. split; [|split; [exact R2|]].
    + now rewrite A2, A1, advance_advance.
    + rewrite <- app_assoc, <- S2. exact S1.
  - unfold ret. do 2 eexists. split; [reflexivity|].
    split; [exact A1 | split; [exact R1 | exact S1]].
Qed.

(** A pattern that matches at the head of the text is read whole. *)
Lemma anchored_text_here (pattern : regex) (s : str) (n : nat) :
  match_here pattern s = Some n -> anchored_text pattern s = firstn n s.
Proof.
  intros H. unfold anchored_text, regex_search.
  now rewrite (search_from_here _ _ _ H).
Qed.

(** A pattern that does not match at the head of the text reads nothing. *)
Lemma anchored_text_miss (pattern : regex) (s : str) :
  match_here pattern s = None -> anchored_text pattern s = [].
Proof.
  intros H. unfold anchored_text.
  destruct (regex_search pattern s) as [|pre m0] eqn:E; [reflexivity|].
  destruct pre as [|a pre]; [|reflexivity].
  apply regex_search_found in E. destruct E as [rest [-> [E _]]].
  simpl in H. congruence.
Qed.

(** [ReadUntil] stops where the pattern first matches, or at the end. *)
Lemma until_text_cases (pattern : regex) (s : str) :
  (regex_search pattern s = no_match /\ until_text pattern s = s /\
   forall q, match_here pattern (skipn q s) = None) \/
  (exists pre m0 rest,
      regex_search pattern s = found pre m0 /\
      until_text pattern s = pre /\
      s = pre ++ m0 ++ rest /\
      match_here pattern (m0 ++ rest) = Some (List.length m0) /\
      forall q, q < List.length pre -> match_here pattern (skipn q s) = None).
Proof.
  unfold until_text. destruct (regex_search pattern s) as [|pre m0] eqn:E.
  - left. repeat split. now apply regex_search_no_match.
  - right. destruct (regex_search_found _ _ _ _ E) as [rest [Hs [Hm Hq]]].
    exists pre, m0, rest. repeat split; assumption.
Qed.

(** A search finds the pattern as soon as one of its words lies ahead. *)
Lemma until_text_first (pattern : regex) (pre w rest : str) :
  matches pattern w ->
  (forall q, q < List.length pre ->
             match_here pattern (skipn q (pre ++ w ++ rest)) = None) ->
  until_text pattern (pre ++ w ++ rest) = pre.
Proof.
  intros M Hq.
  pose proof (match_here_complete pattern w rest M) as C.
  destruct (until_text_cases pattern (pre ++ w ++ rest))
    as [[_ [_ N]]|[pre' [m0 [rest' [_ [U [S [Hm Hq']]]]]]]].
  - specialize (N (List.length pre)). rewrite skipn_length_app in N.
    contradiction.
  - rewrite U.
    destruct (Nat.lt_trichotomy (List.length pre') (List.length pre))
      as [Hlt|[Heq|Hgt]].
    + specialize (Hq _ Hlt). rewrite S, skipn_length_app in Hq. congruence.
    + apply (f_equal (firstn (List.length pre))) in S.
      rewrite firstn_app, Nat.sub_diag, firstn_all in S. simpl in S.
      rewrite app_nil_r in S. rewrite S, <- Heq, firstn_app, Nat.sub_diag.
      rewrite firstn_all. simpl. now rewrite app_nil_r.
    + specialize (Hq' _ Hgt). rewrite skipn_length_app in Hq'. contradiction.
Qed.

(** ** The patterns of the lexer *)

Lemma skip_spaces_split (s : str) :
  exists ws, s = ws ++ skip_spaces s /\ all_space ws.
Proof.
  induction s as [|a s [ws [E H]]]; simpl.
  - now exists [].
  - destruct (isspace a) eqn:Ea.
    + exists (a :: ws). split; [simpl; now f_equal|].
      unfold all_space. simpl. now rewrite Ea.
    + now exists [].
Qed.

Lemma skip_spaces_no_space (s : str) : no_space_ahead (skip_spaces s).
Proof.
  induction s as [|a s IH]; simpl; [exact I|].
  destruct (isspace a) eqn:Ea; [exact IH | exact Ea].
Qed.

Lemma skip_spaces_app (ws s : str) :
  all_space ws -> no_space_ahead s -> skip_spaces (ws ++ s) = s.
Proof.
  unfold all_space. induction ws as [|a ws IH]; simpl; intros Hw Hs.
  - destruct s as [|b s]; [reflexivity|]. simpl in *. now rewrite Hs.
  - apply andb_true_iff in Hw. destruct Hw as [-> Hw]. now apply IH.
Qed.

Lemma skip_dash_split (s : str) :
  exists d,
    s = d ++ skip_dash s /\ dash_or_empty d /\
    (d = [] -> starts_with "-" s = false).
Proof.
  destruct s as [|a s]; cbn [skip_dash].
  - exists []. split; [reflexivity | split; [now left | reflexivity]].
  - destruct (Ascii.eqb_spec a "-") as [->|Hne].
    + exists ["-"%char]. split; [reflexivity | split; [now right | discriminate]].
    + exists []. split; [reflexivity | split; [now left|]].
      intros _. change (starts_with "-" (a :: s)) with (Ascii.eqb "-" a && true).
      destruct (Ascii.eqb_spec "-"%char a); [congruence | reflexivity].
Qed.

(** A greedy [\s*] followed by something that accepts the text after the
    white space takes all of the white space. *)
Lemma run_star_space (A : Type) (k : str -> option A) :
  forall s : str,
    k (skip_spaces s) <> None ->
    run (Star Space) s k = k (skip_spaces s).
Proof.
  induction s as [|a s IH]; intros Hk; [reflexivity|].
  rewrite run_star. simpl List.length. rewrite star_loop_S.
  cbn [run skip_spaces] in Hk |- *. cbv beta. destruct (isspace a) eqn:Ea.
  - simpl List.length.
    destruct (Nat.ltb_spec (List.length s) (S (List.length s))) as [_|]; [|lia].
    rewrite <- run_star, (IH Hk).
    destruct (k (skip_spaces s)); [reflexivity | contradiction].
  - reflexivity.
Qed.

(** The equations of [run], one per construct. *)
Lemma run_eps (A : Type) (s : str) (k : str -> option A) :
  run Eps s k = k s.
Proof. reflexivity. Qed.

Lemma run_chr (A : Type) (c a : ascii) (s : str) (k : str -> option A) :
  run (Chr c) (a :: s) k = if Ascii.eqb a c then k s else None.
Proof. reflexivity. Qed.

Lemma run_chr_nil (A : Type) (c : ascii) (k : str -> option A) :
  run (Chr c) [] k = None.
Proof. reflexivity. Qed.

Lemma run_space (A : Type) (a : ascii) (s : str) (k : str -> option A) :
  run Space (a :: s) k = if isspace a then k s else None.
Proof. reflexivity. Qed.

Lemma run_oneof (A : Type) (cs : list ascii) (a : ascii) (s : str)
      (k : str -> option A) :
  run (OneOf cs) (a :: s) k =
  if existsb (Ascii.eqb a) cs then k s else None.
Proof. reflexivity. Qed.

Lemma run_cat (A : Type) (r1 r2 : regex) (s : str) (k : str -> option A) :
  run (Cat r1 r2) s k = run r1 s (fun s' => run r2 s' k).
Proof. reflexivity. Qed.

Lemma run_alt (A : Type) (r1 r2 : regex) (s : str) (k : str -> option A) :
  run (Alt r1 r2) s k = orelse (run r1 s k) (run r2 s k).
Proof. reflexivity. Qed.

Lemma run_opt (A : Type) (r : regex) (s : str) (k : str -> option A) :
  run (Opt r) s k = orelse (run r s k) (k s).
Proof. reflexivity. Qed.

Ltac run_steps :=
  repeat (first [ rewrite run_cat | rewrite run_chr | rewrite run_chr_nil
                | rewrite run_eps | rewrite run_opt | rewrite run_alt
                | rewrite run_space | rewrite run_oneof ];
          cbv beta).

Lemma pat_open_match (c : ascii) (s : str) :
  match_here (pat_open c) ("{"%char :: c :: s) =
  Some (List.length ("{"%char :: c :: s) -
        List.length (skip_spaces (skip_dash s))).
Proof.
  unfold match_here, pat_open. cbn [seq fold_right]. run_steps.
  rewrite !Ascii.eqb_refl. run_steps.
  destruct s as [|a s].
  - reflexivity.
  - run_steps. cbn [skip_dash]. destruct (Ascii.eqb a "-").
    + run_steps. rewrite run_star_space by discriminate. reflexivity.
    + unfold orelse. run_steps. rewrite run_star_space by discriminate.
      reflexivity.
Qed.

(** What [Read] consumes at an opening delimiter: the delimiter, the trim
    marker if there is one, and all the white space that follows. *)
Lemma pat_open_read (c : ascii) (s : str) :
  exists d ws,
    anchored_text (pat_open c) ("{"%char :: c :: s) =
      "{"%char :: c :: d ++ ws /\
    s = d ++ ws ++ skip_spaces (skip_dash s) /\
    dash_or_empty d /\ all_space ws /\
    (d = [] -> starts_with "-" s = false).
Proof.
  destruct (skip_dash_split s) as [d [Ed [Hd Hn]]].
  destruct (skip_spaces_split (skip_dash s)) as [ws [Ew Hw]].
  exists d, ws.
  assert (E : s = d ++ ws ++ skip_spaces (skip_dash s))
    by (rewrite <- Ew; exact Ed).
  split; [|now repeat split].
  rewrite (anchored_text_here _ _ _ (pat_open_match c s)).
  assert (E' : "{"%char :: c :: s =
               ("{"%char :: c :: d ++ ws) ++ skip_spaces (skip_dash s))
    by (simpl; rewrite <- app_assoc; now rewrite <- E).
  rewrite E' at 1 2. apply firstn_app_exact.
  rewrite length_app. lia.
Qed.

(** ** The branches of the loop, as functions of the text ahead

    Each view gives the tokens a branch pushes and the text it consumes,
    from the line counter [ln] and the text [rem] ahead of the cursor. *)

Lemma remaining_skip (st st' : State) (v : str) :
  remaining st = v ++ remaining st' ->
  skipn (List.length v) (remaining st) = remaining st'.
Proof. intros ->. apply skipn_length_app. Qed.

Lemma statement_branch_view (lx : Lexer) (st : State) :
  in_range st -> agrees (statement_branch lx) (statement_view lx) st.
Proof.
  intros Hr. unfold agrees, statement_branch, statement_view, bind.
  destruct (Read_spec (re_statement_start_ lx) st Hr) as [st1 [E1 [A1 [R1 S1]]]].
  rewrite E1. unfold State_linenum.
  destruct (ReadUntil_spec (re_statement_end_ lx) st1 R1) as [st2 [E2 [A2 [R2 S2]]]].
  rewrite E2.
  destruct (EatEnd_spec (re_statement_end_ lx) (strip_tags_ lx) st2 R2)
    as [m [st3 [E3 [A3 [R3 S3]]]]].
  rewrite E3. unfold ret. cbv zeta.
  rewrite (remaining_skip _ _ _ S1), (remaining_skip _ _ _ S2).
  exists st3. cbn [fst snd].
  split; [rewrite A1; reflexivity|].
  split; [now rewrite A3, A2, A1, !advance_advance|].
  split; [exact R3|].
  rewrite <- !app_assoc, <- S3, <- S2. exact S1.
Qed.

Lemma tag_branch_view (lx : Lexer) (st : State) :
  in_range st -> agrees (tag_branch lx) (tag_view lx) st.
Proof.
  intros Hr. unfold agrees, tag_branch, tag_view, bind.
  destruct (Read_spec (re_tag_start_ lx) st Hr) as [st1 [E1 [A1 [R1 S1]]]].
  rewrite E1. unfold State_linenum.
  destruct (ReadUntil_spec (re_name_end_ lx) st1 R1) as [st2 [E2 [A2 [R2 S2]]]].
  rewrite E2.
  destruct (ReadUntil_spec (re_tag_end_ lx) st2 R2) as [st3 [E3 [A3 [R3 S3]]]].
  rewrite E3.
  destruct (EatEnd_spec (re_tag_end_ lx) (strip_tags_ lx) st3 R3)
    as [m [st4 [E4 [A4 [R4 S4]]]]].
  rewrite E4. cbv zeta.
  rewrite (remaining_skip _ _ _ S1), (remaining_skip _ _ _ S2),
    (remaining_skip _ _ _ S3), (remaining_skip _ _ _ S4).
  assert (T : forall ln v,
             match strings.strip v with
             | [] => [mkToken ln TOKEN_TAG (until_text (re_name_end_ lx) (remaining st1))]
             | _ :: _ =>
                 [mkToken ln TOKEN_TAG (until_text (re_name_end_ lx) (remaining st1))] ++
                 [mkToken (linenum_ st2) TOKEN_EXPRESSION (strings.strip v)]
             end =
             mkToken ln TOKEN_TAG (until_text (re_name_end_ lx) (remaining st1))
               :: expression_tokens (linenum_ st2) v).
  { intros ln v. unfold expression_tokens. now destruct (strings.strip v). }
  rewrite T.
  assert (L2 : linenum_ st2 =
               linenum_ st + count newline (anchored_text (re_tag_start_ lx) (remaining st)) +
               count newline (until_text (re_name_end_ lx) (remaining st1)))
    by (rewrite A2, A1; reflexivity).
  assert (L4 : linenum_ st4 =
               linenum_ st2 +
               count newline (until_text (re_tag_end_ lx) (remaining st2)) +
               count newline (eaten (re_tag_end_ lx) (strip_tags_ lx) (remaining st3)))
    by (rewrite A4, A3; reflexivity).
  destruct (str_eqb (until_text (re_name_end_ lx) (remaining st1)) "raw").
  - destruct (ReadUntil_spec re_endraw st4 R4) as [st5 [E5 [A5 [R5 S5]]]].
    rewrite E5. unfold ret. exists st5. cbn [fst snd].
    split; [rewrite L4, L2, A1; reflexivity|].
    split; [now rewrite A5, A4, A3, A2, A1, !advance_advance|].
    split; [exact R5|].
    rewrite <- !app_assoc, <- S5, <- S4, <- S3, <- S2. exact S1.
  - unfold ret. exists st4. cbn [fst snd].
    split; [rewrite L2, A1; reflexivity|].
    split; [now rewrite A4, A3, A2, A1, !advance_advance|].
    split; [exact R4|].
    rewrite <- !app_assoc, <- S4, <- S3, <- S2. exact S1.
Qed.

Lemma literal_branch_view (lx : Lexer) (st : State) :
  in_range st -> agrees (literal_branch lx) (literal_view lx) st.
Proof.
  intros Hr. unfold agrees, literal_branch, literal_view, bind, State_linenum.
  destruct (ReadUntil_spec (re_literal_end_ lx) st Hr) as [st1 [E1 [A1 [R1 S1]]]].
  rewrite E1. unfold ret. exists st1. cbn [fst snd].
  split; [|split; [exact A1 | split; [exact R1 | exact S1]]].
  now destruct (trim_marked (regex_search (re_literal_end_ lx) (remaining st)))
    as [[|]|].
Qed.

Lemma iteration_agrees (lx : Lexer) (st : State) :
  in_range st -> agrees (iteration lx) (iteration_view lx) st.
Proof.
  intros Hr. unfold agrees, iteration, iteration_view, bind.
  rewrite !At_eq by exact Hr.
  destruct (starts_with (statement_start_ lx) (remaining st));
    [now apply statement_branch_view|].
  rewrite At_eq by exact Hr.
  destruct (starts_with (tag_start_ lx) (remaining st));
    [now apply tag_branch_view | now apply literal_branch_view].
Qed.

(** ** Words of the patterns *)

Ltac invert_matches :=
  repeat match goal with
         | H : matches (Cat _ _) _ |- _ => inversion H; subst; clear H
         | H : matches (Chr _) _ |- _ => inversion H; subst; clear H
         | H : matches Eps _ |- _ => inversion H; subst; clear H
         | H : matches (Opt _) _ |- _ => inversion H; subst; clear H
         | H : matches (Alt _ _) _ |- _ => inversion H; subst; clear H
         | H : matches (OneOf _) _ |- _ => inversion H; subst; clear H
         | H : matches Space _ |- _ => inversion H; subst; clear H
         end.

Lemma matches_star_space (w : str) : matches (Star Space) w -> all_space w.
Proof.
  intros H. remember (Star Space) as r eqn:Er.
  induction H as [|c|a Ha|a cs Ha|r1 r2 w1 w2 _ _ _ _|r1 r2 w _ _
                  |r1 r2 w _ _|r|r w _ _|r|r w1 w2 H1 _ _ IH2];
    try discriminate.
  - reflexivity.
  - injection Er as ->. specialize (IH2 eq_refl).
    inversion H1 as [| |a Ha| | | | | | | |]; subst.
    unfold all_space in *. simpl. now rewrite Ha.
Qed.

Lemma all_space_matches (w : str) : all_space w -> matches (Star Space) w.
Proof.
  unfold all_space. induction w as [|a w IH]; simpl; intros H.
  - constructor.
  - apply andb_true_iff in H. destruct H as [Ha Hw].
    change (a :: w) with ([a] ++ w). constructor; [now constructor | now apply IH].
Qed.

Lemma dash_matches (d : str) : dash_or_empty d -> matches (Opt (Chr "-")) d.
Proof. intros [->| ->]; [constructor | constructor; constructor]. Qed.

(** The words of a closing pattern. *)
Lemma pat_close_words (c : ascii) (w : str) :
  matches (pat_close c) w <->
  exists ws d, w = ws ++ d ++ [c; "}"%char] /\ all_space ws /\ dash_or_empty d.
Proof.
  unfold pat_close. cbn [seq fold_right]. split.
  - intros H. invert_matches.
    + match goal with H : matches (Star Space) ?ws |- _ =>
        exists ws, []; apply matches_star_space in H end.
      repeat split; [assumption | now left].
    + match goal with H : matches (Star Space) ?ws |- _ =>
        exists ws, ["-"%char]; apply matches_star_space in H end.
      repeat split; [assumption | now right].
  - intros [ws [d [-> [Hw Hd]]]].
    constructor; [now apply all_space_matches|].
    constructor; [now apply dash_matches|].
    change [c; "}"%char] with ([c] ++ ["}"%char] ++ []).
    repeat constructor.
Qed.

(** The words of the pattern that ends a literal. *)
Lemma pat_literal_end_words (w : str) :
  matches pat_literal_end w <->
  exists b d,
    w = "{"%char :: b :: d /\ (b = "{"%char \/ b = "%"%char) /\ dash_or_empty d.
Proof.
  unfold pat_literal_end. cbn [seq fold_right]. split.
  - intros H. invert_matches.
    + match goal with H : existsb _ _ = true |- _ =>
        simpl in H; rewrite orb_false_r in H; apply orb_true_iff in H;
        rewrite !Ascii.eqb_eq in H end.
      eexists _, []. repeat split; [assumption | now left].
    + match goal with H : existsb _ _ = true |- _ =>
        simpl in H; rewrite orb_false_r in H; apply orb_true_iff in H;
        rewrite !Ascii.eqb_eq in H end.
      eexists _, ["-"%char]. repeat split; [assumption | now right].
  - intros [b [d [-> [Hb Hd]]]].
    replace ("{"%char :: b :: d) with (["{"%char] ++ [b] ++ d ++ [])
      by (simpl; now rewrite app_nil_r).
    constructor; [constructor|]. constructor.
    + constructor. destruct Hb as [->| ->]; reflexivity.
    + constructor; [now apply dash_matches | constructor].
Qed.

Lemma pat_literal_end_here (s : str) (n : nat) :
  match_here pat_literal_end s = Some n ->
  2 <= n /\
  (starts_with "{{" s = true \/ starts_with "{%" s = true).
Proof.
  intros H. apply match_here_sound in H.
  destruct H as [w [rest [-> [M ->]]]].
  apply pat_literal_end_words in M. destruct M as [b [d [-> [Hb Hd]]]].
  split; [simpl; lia|].
  destruct Hb as [->| ->]; [left | right]; reflexivity.
Qed.

Lemma pat_literal_end_at (s : str) :
  starts_with "{{" s = true \/ starts_with "{%" s = true ->
  match_here pat_literal_end s <> None.
Proof.
  intros [H|H]; apply starts_with_app in H; destruct H as [rest ->];
    apply (match_here_complete pat_literal_end _ rest);
    apply pat_literal_end_words; eexists _, []; repeat split;
      solve [now left | now right].
Qed.

(** ** Progress of the loop *)

Lemma starts_with_2 (a b : ascii) (rem : str) :
  starts_with [a; b] rem = true -> exists s, rem = a :: b :: s.
Proof.
  intros H. apply starts_with_app in H. destruct H as [rest ->].
  now exists rest.
Qed.

Lemma pat_open_read_length (c : ascii) (s : str) :
  2 <= List.length (anchored_text (pat_open c) ("{"%char :: c :: s)).
Proof.
  destruct (pat_open_read c s) as [d [ws [-> _]]]. simpl. lia.
Qed.

(** Under the default delimiters a turn of the loop on a text that is not
    empty consumes at least one character. *)
Lemma iteration_view_progress (ln : nat) (rem : str) :
  rem <> [] ->
  1 <= List.length (snd (iteration_view Lexer_default ln rem)).
Proof.
  intros Hne. unfold iteration_view.
  change (statement_start_ Lexer_default) with (lit "{{").
  change (tag_start_ Lexer_default) with (lit "{%").
  destruct (starts_with "{{" rem) eqn:E1.
  - apply starts_with_2 in E1. destruct E1 as [s ->].
    unfold statement_view. cbn [snd]. rewrite length_app.
    pose proof (pat_open_read_length "{" s) as L.
    change (re_statement_start_ Lexer_default) with (pat_open "{").
    lia.
  - destruct (starts_with "{%" rem) eqn:E2.
    + apply starts_with_2 in E2. destruct E2 as [s ->].
      pose proof (pat_open_read_length "%" s) as L.
      unfold tag_view.
      change (re_tag_start_ Lexer_default) with (pat_open "%").
      destruct (str_eqb _ _); cbn [snd]; rewrite length_app; lia.
    + unfold literal_view. cbn [snd].
      change (re_literal_end_ Lexer_default) with pat_literal_end.
      destruct (until_text_cases pat_literal_end rem)
        as [[_ [-> _]]|[pre [m0 [rest [_ [-> [S [Hm _]]]]]]]].
      * destruct rem; [contradiction | simpl; lia].
      * destruct pre as [|a pre]; [|simpl; lia].
        simpl in S. rewrite <- S in Hm.
        apply pat_literal_end_here in Hm. destruct Hm as [_ [Hm|Hm]]; congruence.
Qed.

Lemma in_range_remaining (st : State) :
  in_range st ->
  List.length (remaining st) = List.length (source_ st) - it_ st.
Proof. intros _. unfold remaining. apply length_skipn. Qed.

Lemma End_false_remaining (st : State) :
  in_range st ->
  (it_ st =? List.length (source_ st)) = false ->
  remaining st <> [].
Proof.
  intros Hr H E. apply Nat.eqb_neq in H.
  apply (f_equal (@List.length ascii)) in E.
  rewrite in_range_remaining in E by exact Hr.
  unfold in_range in Hr. simpl in E. lia.
Qed.

Lemma iteration_progress (st : State) :
  in_range st ->
  (it_ st =? List.length (source_ st)) = false ->
  exists pushed st',
    iteration Lexer_default st = Some (pushed, st') /\
    in_range st' /\ source_ st' = source_ st /\
    Position st < Position st'.
Proof.
  intros Hr HE.
  destruct (iteration_agrees Lexer_default st Hr) as [st' [E [A [R S]]]].
  exists (fst (iteration_view Lexer_default (linenum_ st) (remaining st))), st'.
  split; [exact E|]. split; [exact R|].
  pose proof (iteration_view_progress (linenum_ st) (remaining st)
                (End_false_remaining st Hr HE)) as P.
  rewrite A. unfold Position, advance. simpl. split; [reflexivity | lia].
Qed.

(** With one turn per character left, and one more for the last test,
    the loop of the default lexer returns, at the end of the source. *)
Lemma while_loop_returns (fuel : nat) :
  forall (tokens : stream_t) (st : State),
    in_range st ->
    List.length (source_ st) - it_ st < fuel ->
    exists tokens' st',
      while_loop fuel Lexer_default tokens st = Returned (tokens', st') /\
      source_ st' = source_ st /\
      it_ st' = List.length (source_ st).
Proof.
  induction fuel as [|fuel IH]; intros tokens st Hr Hf; [lia|].
  cbn [while_loop]. unfold End.
  destruct (it_ st =? List.length (source_ st)) eqn:HE.
  - exists tokens, st. apply Nat.eqb_eq in HE. now repeat split.
  - destruct (iteration_progress st Hr HE) as [pushed [st1 [E [R1 [S1 P]]]]].
    rewrite E. pose proof R1 as R1'. unfold in_range in R1'.
    destruct (IH (tokens ++ pushed) st1 R1) as [tokens' [st' [W [S' I']]]];
      [unfold Position in *; rewrite S1 in *; apply Nat.eqb_neq in HE;
       unfold in_range in Hr; lia|].
    exists tokens', st'. rewrite W. repeat split; congruence.
Qed.

(** More turns do not change the result of a loop that returned. *)
Lemma while_loop_more_fuel (lx : Lexer) (fuel : nat) :
  forall (extra : nat) (tokens : stream_t) (st : State) (res : stream_t * State),
    while_loop fuel lx tokens st = Returned res ->
    while_loop (fuel + extra) lx tokens st = Returned res.
Proof.
  induction fuel as [|fuel IH]; intros extra tokens st res H; [discriminate|].
  cbn [while_loop Nat.add] in *. destruct (End st) as [[[|] st1]|];
    [exact H | | discriminate].
  destruct (iteration lx st1) as [[pushed st2]|]; [|discriminate].
  now apply IH.
Qed.

(** No branch pushes an end-of-input token. *)
Lemma iteration_view_no_eof (lx : Lexer) (ln : nat) (rem : str) :
  Forall (fun t => type t <> TOKEN_EOF) (fst (iteration_view lx ln rem)).
Proof.
  unfold iteration_view, statement_view, tag_view, literal_view,
    expression_tokens.
  repeat match goal with
         | |- context [if ?b then _ else _] => destruct b
         | |- context [match strings.strip ?v with _ => _ end] =>
             destruct (strings.strip v)
         end;
    cbn [fst app]; repeat constructor; discriminate.
Qed.

Lemma while_loop_no_eof (lx : Lexer) (fuel : nat) :
  forall (tokens tokens' : stream_t) (st st' : State),
    in_range st ->
    Forall (fun t => type t <> TOKEN_EOF) tokens ->
    while_loop fuel lx tokens st = Returned (tokens', st') ->
    Forall (fun t => type t <> TOKEN_EOF) tokens'.
Proof.
  induction fuel as [|fuel IH]; intros tokens tokens' st st' Hr Ht H;
    [discriminate|].
  cbn [while_loop] in H. unfold End in H.
  destruct (it_ st =? List.length (source_ st)).
  - now injection H as <- <-.
  - destruct (iteration_agrees lx st Hr) as [st1 [E [A [R S]]]].
    rewrite E in H. apply IH in H; [exact H | exact R |].
    apply Forall_app. split; [exact Ht | apply iteration_view_no_eof].
Qed.

(** The default lexer returns on every source; the stream ends with the
    one end-of-input token, which carries the final line number. *)
Lemma Tokenize_default_returns (source : str) :
  exists tokens : stream_t,
    Tokenize (S (List.length source)) Lexer_default source =
      Returned (tokens ++ [mkToken (1 + count newline source) TOKEN_EOF ""]) /\
    Forall (fun t => type t <> TOKEN_EOF) tokens.
Proof.
  assert (Hr : in_range (State_new source)) by apply cursor_inv_new.
  destruct (while_loop_returns (S (List.length source)) [] (State_new source) Hr)
    as [tokens [st' [W [S' I']]]]; [simpl; lia|].
  exists tokens. unfold Tokenize. rewrite W. unfold State_linenum.
  pose proof (while_loop_inv Lexer_default (S (List.length source)) []
                (State_new source) (cursor_inv_new source)) as Inv.
  rewrite W in Inv. destruct Inv as [_ [_ [_ L]]].
  unfold lines_counted in L. rewrite I', S' in L. simpl in L.
  rewrite firstn_all in L. split.
  - now rewrite L.
  - eapply while_loop_no_eof; [exact Hr | constructor | exact W].
Qed.

(** ** The raw tag without an end *)

Lemma str_eqb_eq (a b : str) : str_eqb a b = true <-> a = b.
Proof.
  unfold str_eqb. destruct (list_eq_dec ascii_dec a b); split; congruence.
Qed.

(** A view that starts with the tag of name [raw] and finds no end of the
    raw block consumes the whole text. *)
Lemma iteration_view_raw_to_end (lx : Lexer) (ln ln' : nat) (rem : str)
      (more : stream_t) :
  fst (iteration_view lx ln rem) = mkToken ln' TOKEN_TAG "raw" :: more ->
  (forall q, match_here re_endraw (skipn q rem) = None) ->
  List.length rem <= List.length (snd (iteration_view lx ln rem)).
Proof.
  intros Hfst Hno. unfold iteration_view in *.
  destruct (starts_with (statement_start_ lx) rem).
  { unfold statement_view in Hfst. cbn [fst] in Hfst. discriminate. }
  destruct (starts_with (tag_start_ lx) rem).
  2:{ unfold literal_view in Hfst. cbn [fst] in Hfst. discriminate. }
  unfold tag_view in *.
  set (v1 := anchored_text (re_tag_start_ lx) rem) in *.
  set (name := until_text (re_name_end_ lx) (skipn (List.length v1) rem)) in *.
  set (rem2 := skipn (List.length name) (skipn (List.length v1) rem)) in *.
  set (v := until_text (re_tag_end_ lx) rem2) in *.
  set (e := eaten (re_tag_end_ lx) (strip_tags_ lx) (skipn (List.length v) rem2)) in *.
  set (rem4 := skipn (List.length e) (skipn (List.length v) rem2)) in *.
  assert (Hname : str_eqb name "raw" = true).
  { apply str_eqb_eq.
    destruct (str_eqb name "raw"); cbn [fst app] in Hfst; congruence. }
  rewrite Hname. cbn [snd].
  assert (R4 : rem4 = skipn (List.length v1 + List.length name +
                            List.length v + List.length e) rem).
  { unfold rem4, rem2. rewrite !skipn_skipn_add. f_equal. lia. }
  assert (U : until_text re_endraw rem4 = rem4).
  { destruct (until_text_cases re_endraw rem4)
      as [[_ [U _]]|[pre [m0 [rest [_ [_ [S [Hm _]]]]]]]]; [exact U|].
    specialize (Hno (List.length v1 + List.length name + List.length v +
                     List.length e + List.length pre)).
    rewrite <- skipn_skipn_add, <- R4, S, skipn_length_app in Hno.
    congruence. }
  rewrite U, !length_app, R4, length_skipn. lia.
Qed.

(** ** The claims about the loop *)

(** C8. With the default delimiters and a source of less than 2^31
    characters, every turn of the loop that starts before the end of the
    source returns with the iterator strictly further, and still within
    the source; with one turn per character of the source (and the last
    test) the loop ends and Tokenize returns; and a turn that reads a tag
    named raw with no end of the raw block ahead leaves the cursor at the
    end of the source. *)
Theorem C8_default_progress :
  (forall st : State,
      in_range st ->
      fits_int (source_ st) ->
      End st = Some (false, st) ->
      exists pushed st',
        iteration Lexer_default st = Some (pushed, st') /\
        source_ st' = source_ st /\
        it_ st < it_ st' /\
        it_ st' <= List.length (source_ st)) /\
  (forall source : str,
      fits_int source ->
      exists tokens,
        Tokenize (S (List.length source)) Lexer_default source =
          Returned tokens) /\
  (forall (st st' : State) (pushed more : stream_t) (ln : nat),
      in_range st ->
      fits_int (source_ st) ->
      iteration Lexer_default st = Some (pushed, st') ->
      pushed = mkToken ln TOKEN_TAG "raw" :: more ->
      (forall q, match_here re_endraw (skipn q (remaining st)) = None) ->
      it_ st' = List.length (source_ st)).
Proof.
  split; [|split].
  - intros st Hr _ HE. unfold End in HE. injection HE as HE.
    destruct (iteration_progress st Hr HE) as [pushed [st' [E [R [Hs P]]]]].
    exists pushed, st'. unfold in_range in R. unfold Position in P.
    rewrite Hs in R. now repeat split.
  - intros source _.
    destruct (Tokenize_default_returns source) as [tokens [E _]].
    eexists. exact E.
  - intros st st' pushed more ln Hr _ E Hp Hno.
    destruct (iteration_agrees Lexer_default st Hr) as [st1 [E1 [A [R S]]]].
    rewrite E in E1. injection E1 as Hpushed Hst. subst st1.
    rewrite Hp in Hpushed. symmetry in Hpushed.
    pose proof (iteration_view_raw_to_end _ _ _ _ _ Hpushed Hno) as L.
    apply (f_equal (@List.length ascii)) in S. rewrite length_app in S.
    assert (Z : List.length (remaining st') = 0) by lia.
    rewrite in_range_remaining in Z by exact R.
    assert (Hs : source_ st' = source_ st) by (rewrite A; reflexivity).
    unfold in_range in R. rewrite Hs in *. lia.
Qed.

Lemma C8_default_progress_witness :
  let st := mkState "{% raw %}no end" 0 1 in
  (exists pushed st',
      iteration Lexer_default st = Some (pushed, st') /\
      source_ st' = source_ st /\
      it_ st < it_ st' /\
      it_ st' <= List.length (source_ st)) /\
  iteration Lexer_default st =
    Some ([mkToken 1 TOKEN_TAG "raw"; mkToken 1 TOKEN_LITERAL "no end"],
          mkState "{% raw %}no end" 15 1).
Proof.
  intros st. split; [|vm_compute; reflexivity].
  apply (proj1 C8_default_progress st).
  - unfold in_range. simpl. lia.
  - vm_compute. reflexivity.
  - reflexivity.
Defined.

(** C3. With the default delimiters Tokenize returns on every source,
    with one turn per character and the last test, and the stream ends
    with the one end-of-input token; the empty source gives that token
    alone.  With other delimiters the loop can stay where it is: for the
    lexer built with the delimiters [<<], [>>], [<%], [%>] and the source
    made of two opening braces no number of turns lets Tokenize return. *)
Theorem C3_termination_depends_on_delimiters :
  (forall source : str,
      exists tokens : stream_t,
        Tokenize (S (List.length source)) Lexer_default source =
          Returned (tokens ++
                    [mkToken (1 + count newline source) TOKEN_EOF ""]) /\
        Forall (fun t => type t <> TOKEN_EOF) tokens) /\
  Tokenize 1 Lexer_default "" = Returned [mkToken 1 TOKEN_EOF ""] /\
  (forall fuel : nat,
      Tokenize fuel (Lexer_new "<<" ">>" "<%" "%>") "{{" = OutOfFuel).
Proof.
  split; [exact Tokenize_default_returns|]. split; [reflexivity|].
  assert (L : forall fuel tokens,
             while_loop fuel (Lexer_new "<<" ">>" "<%" "%>") tokens
               (State_new "{{") = OutOfFuel).
  { induction fuel as [|fuel IH]; intros tokens; [reflexivity|].
    cbn [while_loop].
    change (End (State_new "{{")) with (Some (false, State_new "{{")).
    cbv beta iota.
    assert (E : iteration (Lexer_new "<<" ">>" "<%" "%>") (State_new "{{") =
                Some ([mkToken 1 TOKEN_LITERAL ""], State_new "{{"))
      by (vm_compute; reflexivity).
    rewrite E. apply IH. }
  intros fuel. unfold Tokenize. now rewrite L.
Qed.

(** C4. The constructor with four delimiters installs the same six
    patterns as the default constructor, whatever the delimiters; the
    lexer built with [<<], [>>], [<%], [%>] reads the source
    [<< x >>] as one statement whose text is the whole source, the
    delimiters included. *)
Theorem C4_patterns_ignore_delimiters :
  (forall statement_start statement_end tag_start tag_end : str,
      let lx := Lexer_new statement_start statement_end tag_start tag_end in
      re_statement_start_ lx = re_statement_start_ Lexer_default /\
      re_statement_end_ lx = re_statement_end_ Lexer_default /\
      re_tag_start_ lx = re_tag_start_ Lexer_default /\
      re_tag_end_ lx = re_tag_end_ Lexer_default /\
      re_literal_end_ lx = re_literal_end_ Lexer_default /\
      re_name_end_ lx = re_name_end_ Lexer_default) /\
  Tokenize 2 (Lexer_new "<<" ">>" "<%" "%>") "<< x >>" =
    Returned [mkToken 1 TOKEN_STATEMENT "<< x >>"; mkToken 1 TOKEN_EOF ""].
Proof.
  split; [intros; repeat split | vm_compute; reflexivity].
Qed.

(** C6. On the source [hello], which has no opening delimiter, the loop
    takes the literal branch, the search of ReadUntil fails, the text of
    the match is empty and its last character, which the test of the trim
    marker reads, does not exist.  The text of the match is empty exactly
    when the search failed. *)
Theorem C6_literal_without_delimiter :
  (let st := State_new "hello" in
   At (statement_start_ Lexer_default) st = Some (false, st) /\
   At (tag_start_ Lexer_default) st = Some (false, st) /\
   exists st',
     ReadUntil (re_literal_end_ Lexer_default) st =
       Some ((lit "hello", no_match), st') /\
     str0 no_match = [] /\
     back (str0 no_match) = None /\
     trim_marked no_match = None) /\
  (forall s : str,
      str0 (regex_search pat_literal_end s) = [] <->
      regex_search pat_literal_end s = no_match).
Proof.
  split.
  - split; [reflexivity|]. split; [reflexivity|].
    exists (mkState "hello" 5 1). split; [vm_compute; reflexivity|].
    now repeat split.
  - intros s. split.
    + destruct (regex_search pat_literal_end s) as [|pre m0] eqn:E;
        [reflexivity|].
      simpl. intros ->.
      apply regex_search_found in E. destruct E as [rest [_ [Hm _]]].
      apply pat_literal_end_here in Hm. simpl in Hm. lia.
    + now intros ->.
Qed.

(** ** strings.h: what the strip functions remove *)

Lemma find_if_split (p : ascii -> bool) (s : str) :
  strings.find_if p s <= List.length s /\
  forallb (fun c => negb (p c)) (firstn (strings.find_if p s) s) = true /\
  match skipn (strings.find_if p s) s with
  | [] => True
  | a :: _ => p a = true
  end.
Proof.
  induction s as [|a s [IH1 [IH2 IH3]]]; simpl; [repeat split; lia|].
  destruct (p a) eqn:E; simpl.
  - repeat split; [lia | exact E].
  - rewrite E. simpl. repeat split; [lia | exact IH2 | exact IH3].
Qed.

Lemma forallb_rev (f : ascii -> bool) (s : str) :
  forallb f (rev s) = forallb f s.
Proof.
  induction s as [|a s IH]; [reflexivity|].
  simpl. rewrite forallb_app, IH. simpl. rewrite andb_true_r.
  apply andb_comm.
Qed.

Lemma lstrip_spec (s : str) :
  exists l,
    s = l ++ strings.lstrip s /\ all_blank l /\
    no_blank_ahead (strings.lstrip s).
Proof.
  unfold strings.lstrip.
  destruct (find_if_split strings.notspace s) as [_ [H2 H3]].
  exists (firstn (strings.find_if strings.notspace s) s).
  split; [now rewrite firstn_skipn|]. split; [exact H2 | exact H3].
Qed.

Lemma rstrip_spec (s : str) :
  exists r,
    s = strings.rstrip s ++ r /\ all_blank r /\
    no_blank_behind (strings.rstrip s).
Proof.
  unfold strings.rstrip, no_blank_behind.
  destruct (find_if_split strings.notspace (rev s)) as [H1 [H2 H3]].
  set (k := strings.find_if strings.notspace (rev s)) in *.
  exists (skipn (List.length s - k) s).
  split; [now rewrite firstn_skipn|].
  rewrite firstn_rev, forallb_rev in H2. rewrite skipn_rev in H3.
  split; [exact H2 | exact H3].
Qed.

Lemma strip_spec (s : str) :
  exists l r,
    s = l ++ strings.strip s ++ r /\
    all_blank l /\ all_blank r /\
    no_blank_ahead (strings.strip s) /\ no_blank_behind (strings.strip s).
Proof.
  unfold strings.strip.
  destruct (lstrip_spec s) as [l [El [Hl Ha]]].
  destruct (rstrip_spec (strings.lstrip s)) as [r [Er [Hr Hb]]].
  exists l, r. split; [now rewrite <- Er|].
  repeat split; try assumption.
  unfold strings.rstrip in *.
  destruct (strings.lstrip s) as [|a t]; [now rewrite firstn_nil|].
  destruct (List.length (a :: t) -
            strings.find_if strings.notspace (rev (a :: t)));
    [exact I | exact Ha].
Qed.

(** ** The claims about tags *)

(** C9. The tag branch always pushes a Tag token first, whose text is
    what ReadUntil returns for the name pattern after the opening of the
    tag, empty or not; the source made of an opening delimiter, two
    spaces and a closing delimiter gives a Tag token with the empty name,
    followed by the end of input. *)
Theorem C9_tag_token_even_if_empty :
  (forall (lx : Lexer) (st : State),
      in_range st ->
      exists (ln : nat) (opening name after : str) (more : stream_t)
             (st' : State),
        tag_branch lx st = Some (mkToken ln TOKEN_TAG name :: more, st') /\
        opening = anchored_text (re_tag_start_ lx) (remaining st) /\
        remaining st = opening ++ name ++ after /\
        name = until_text (re_name_end_ lx) (name ++ after)) /\
  Tokenize 2 Lexer_default "{%  %}" =
    Returned [mkToken 1 TOKEN_TAG ""; mkToken 1 TOKEN_EOF ""].
Proof.
  split; [|vm_compute; reflexivity].
  intros lx st H.
  destruct (tag_branch_view lx st H) as [st' [E [A [R S]]]].
  unfold tag_view in *.
  set (rem := remaining st) in *.
  set (v1 := anchored_text (re_tag_start_ lx) rem) in *.
  set (name := until_text (re_name_end_ lx) (skipn (List.length v1) rem)) in *.
  destruct (anchored_text_split (re_tag_start_ lx) rem) as [rem1 E1].
  fold v1 in E1.
  assert (Q1 : skipn (List.length v1) rem = rem1)
    by (rewrite E1; apply skipn_length_app).
  destruct (until_text_split (re_name_end_ lx) rem1) as [after E2].
  rewrite <- Q1 in E2 at 2. fold name in E2.
  exists (linenum_ st + count newline v1), v1, name, after.
  assert (Hn : name = until_text (re_name_end_ lx) (name ++ after))
    by (rewrite <- E2, <- Q1; reflexivity).
  assert (Ht : rem = v1 ++ name ++ after) by (rewrite E1 at 1; now rewrite E2 at 1).
  destruct (str_eqb name "raw"); cbn [fst snd] in *.
  - eexists _, st'. split; [rewrite E, <- app_comm_cons; reflexivity|].
    now repeat split.
  - eexists _, st'. split; [rewrite E; reflexivity|]. now repeat split.
Qed.

Lemma C9_tag_token_even_if_empty_witness :
  let st := mkState "{%  %}" 0 1 in
  exists (ln : nat) (opening name after : str) (more : stream_t)
         (st' : State),
    tag_branch Lexer_default st = Some (mkToken ln TOKEN_TAG name :: more, st') /\
    opening = anchored_text (re_tag_start_ Lexer_default) (remaining st) /\
    remaining st = opening ++ name ++ after /\
    name = until_text (re_name_end_ Lexer_default) (name ++ after).
Proof.
  intros st. apply (proj1 C9_tag_token_even_if_empty Lexer_default st).
  unfold in_range. simpl. lia.
Defined.

(** ** The text of a statement *)

Lemma all_space_cons (a : ascii) (ws : str) :
  isspace a = true -> all_space ws -> all_space (a :: ws).
Proof. unfold all_space. simpl. now intros -> ->. Qed.

(** [ReadUntil] with a closing pattern stops at the first place where
    white space, a trim marker or none and the closing delimiter follow;
    the text before that place does not end with white space. *)
Lemma pat_close_until (c : ascii) (s : str) :
  exists rest,
    s = until_text (pat_close c) s ++ rest /\
    (forall q w r,
        q < List.length (until_text (pat_close c) s) ->
        skipn q s = w ++ r ->
        ~ matches (pat_close c) w) /\
    (rest = [] \/
     exists w after,
       rest = w ++ after /\
       matches (pat_close c) w /\
       no_space_behind (until_text (pat_close c) s)).
Proof.
  destruct (until_text_cases (pat_close c) s)
    as [[_ [U N]]|[pre [m0 [rest [_ [U [S [Hm Hq]]]]]]]].
  - exists []. rewrite U, app_nil_r. split; [reflexivity|].
    split; [|now left].
    intros q w r _ E M. apply (match_here_complete _ _ r) in M.
    rewrite <- E in M. now apply M.
  - rewrite U. exists (m0 ++ rest). split; [exact S|].
    assert (First : forall q w r,
               q < List.length pre -> skipn q s = w ++ r ->
               ~ matches (pat_close c) w).
    { intros q w r Hlt E M. apply (match_here_complete _ _ r) in M.
      rewrite <- E in M. now apply M, Hq. }
    split; [exact First | right].
    apply match_here_sound in Hm. destruct Hm as [w [rest' [E [M L]]]].
    destruct (same_length_prefix _ _ _ _ E L) as [<- <-].
    exists m0, rest. split; [reflexivity|]. split; [exact M|].
    apply pat_close_words in M. destruct M as [ws [d [Em0 [Hw Hd]]]].
    unfold no_space_behind, no_space_ahead.
    destruct (rev pre) as [|a t] eqn:Erev; [exact I|].
    destruct (isspace a) eqn:Ea; [|reflexivity].
    assert (Epre : pre = rev t ++ [a])
      by (rewrite <- (rev_involutive pre), Erev; reflexivity).
    exfalso.
    apply (First (List.length (rev t)) ((a :: ws) ++ d ++ [c; "}"%char]) rest).
    + rewrite Epre, length_app. simpl. lia.
    + rewrite S, Epre, Em0, <- !app_assoc, skipn_length_app. reflexivity.
    + apply pat_close_words. exists (a :: ws), d.
      split; [reflexivity|]. split; [now apply all_space_cons | exact Hd].
Qed.

Lemma closing_delimiter_words (w : str) :
  matches (pat_close "}") w <-> closing_delimiter w.
Proof. apply pat_close_words. Qed.

(** The statement branch of the default lexer on a text that opens a
    statement. *)
Lemma statement_view_text (ln : nat) (body : str) :
  exists d ws v rest,
    fst (statement_view Lexer_default ln ("{"%char :: "{"%char :: body)) =
      [mkToken (ln + count newline (d ++ ws)) TOKEN_STATEMENT v] /\
    body = d ++ ws ++ v ++ rest /\
    dash_or_empty d /\ all_space ws /\
    (d = [] -> starts_with "-" body = false) /\
    no_space_ahead (v ++ rest) /\
    (forall q w r,
        q < List.length v -> skipn q (v ++ rest) = w ++ r ->
        ~ closing_delimiter w) /\
    (rest = [] \/
     exists w after,
       rest = w ++ after /\ closing_delimiter w /\ no_space_behind v).
Proof.
  unfold statement_view. cbn [fst].
  change (re_statement_start_ Lexer_default) with (pat_open "{").
  change (re_statement_end_ Lexer_default) with (pat_close "}").
  destruct (pat_open_read "{" body) as [d [ws [E1 [E2 [Hd [Hw Hn]]]]]].
  rewrite E1.
  assert (Q : skipn (List.length ("{"%char :: "{"%char :: d ++ ws))
                ("{"%char :: "{"%char :: body) = skip_spaces (skip_dash body)).
  { rewrite E2 at 1.
    replace ("{"%char :: "{"%char :: d ++ ws ++ skip_spaces (skip_dash body))
      with (("{"%char :: "{"%char :: d ++ ws) ++ skip_spaces (skip_dash body))
      by (simpl; now rewrite <- app_assoc).
    apply skipn_length_app. }
  rewrite Q.
  destruct (pat_close_until "}" (skip_spaces (skip_dash body)))
    as [rest [E3 [First Hrest]]].
  exists d, ws, (until_text (pat_close "}") (skip_spaces (skip_dash body))), rest.
  split; [reflexivity|].
  split; [rewrite <- E3; exact E2|].
  split; [exact Hd|]. split; [exact Hw|]. split; [exact Hn|].
  split; [rewrite <- E3; apply skip_spaces_no_space|].
  split.
  - intros q w r Hlt E M. apply closing_delimiter_words in M.
    rewrite <- E3 in E. exact (First q w r Hlt E M).
  - destruct Hrest as [->|[w [after [-> [M Hb]]]]]; [now left | right].
    exists w, after. split; [reflexivity|].
    split; [now apply closing_delimiter_words | exact Hb].
Qed.

(** C2, as the code has it.  On a text that opens a statement the turn of
    the default lexer pushes exactly one Statement token; its text is the
    slice of the source that follows the opening delimiter, the trim
    marker if there is one and all the white space after them, and that
    runs up to the first closing of a statement (white space, a trim
    marker or none, the closing delimiter), or to the end of the source
    when there is none; before a closing the text does not end with white
    space.  The source of scenario 1 gives Literal [hi ], Statement
    [name], Literal [!] and the end of input. *)
Theorem C2_statement_text_without_outer_space :
  (forall (st : State) (body : str),
      in_range st ->
      remaining st = lit "{{" ++ body ->
      exists (ln : nat) (d ws v rest : str) (st' : State),
        iteration Lexer_default st =
          Some ([mkToken ln TOKEN_STATEMENT v], st') /\
        body = d ++ ws ++ v ++ rest /\
        dash_or_empty d /\ all_space ws /\
        (d = [] -> starts_with "-" body = false) /\
        no_space_ahead (v ++ rest) /\
        (forall q w r,
            q < List.length v -> skipn q (v ++ rest) = w ++ r ->
            ~ closing_delimiter w) /\
        (rest = [] \/
         exists w after,
           rest = w ++ after /\ closing_delimiter w /\ no_space_behind v)) /\
  Tokenize 4 Lexer_default "hi {{ name }}!" =
    Returned [mkToken 1 TOKEN_LITERAL "hi ";
              mkToken 1 TOKEN_STATEMENT "name";
              mkToken 1 TOKEN_LITERAL "!";
              mkToken 1 TOKEN_EOF ""].
Proof.
  split; [|vm_compute; reflexivity].
  intros st body Hr Hrem.
  destruct (iteration_agrees Lexer_default st Hr) as [st' [E [_ _]]].
  unfold iteration_view in E. rewrite Hrem in E.
  change (starts_with (statement_start_ Lexer_default) (lit "{{" ++ body))
    with (starts_with [] body) in E.
  cbn [starts_with] in E.
  destruct (statement_view_text (linenum_ st) body)
    as [d [ws [v [rest [F H]]]]].
  change (lit "{{" ++ body) with ("{"%char :: "{"%char :: body) in E.
  rewrite F in E.
  now exists (linenum_ st + count newline (d ++ ws)), d, ws, v, rest, st'.
Qed.

Lemma C2_statement_text_without_outer_space_witness :
  let st := mkState "hi {{ name }}!" 3 1 in
  exists (ln : nat) (d ws v rest : str) (st' : State),
    iteration Lexer_default st = Some ([mkToken ln TOKEN_STATEMENT v], st') /\
    lit " name }}!" = d ++ ws ++ v ++ rest /\
    dash_or_empty d /\ all_space ws /\
    (d = [] -> starts_with "-" (lit " name }}!") = false) /\
    no_space_ahead (v ++ rest) /\
    (forall q w r,
        q < List.length v -> skipn q (v ++ rest) = w ++ r ->
        ~ closing_delimiter w) /\
    (rest = [] \/
     exists w after,
       rest = w ++ after /\ closing_delimiter w /\ no_space_behind v).
Proof.
  intros st.
  apply (proj1 C2_statement_text_without_outer_space st (lit " name }}!")).
  - unfold in_range. simpl. lia.
  - reflexivity.
Defined.

(** C2, as the specification has it: the stream it gives for scenario 1,
    with the statement text untrimmed, is not the one Tokenize returns,
    with any number of turns. *)
Lemma C2_scenario_1_differs :
  ~ exists fuel : nat,
      Tokenize fuel Lexer_default "hi {{ name }}!" =
      Returned [mkToken 1 TOKEN_LITERAL "hi ";
                mkToken 1 TOKEN_STATEMENT " name ";
                mkToken 1 TOKEN_LITERAL "!";
                mkToken 1 TOKEN_EOF ""].
Proof.
  intros [[|[|[|[|fuel]]]] H]; vm_compute in H; discriminate.
Qed.

(** ** The raw block *)

Lemma re_endraw_words (w : str) : matches re_endraw w <-> endraw_tag w.
Proof.
  unfold re_endraw, endraw_tag. cbn [seq fold_right]. split.
  - intros H. invert_matches;
      match goal with
      | H1 : matches (Star Space) ?a, H2 : matches (Star Space) ?b |- _ =>
          apply matches_star_space in H1; apply matches_star_space in H2
      end;
      match goal with
      | |- context [["{"%char] ++ ["%"%char] ++ ?d ++ ?a ++ ["e"%char] ++
                    ["n"%char] ++ ["d"%char] ++ ["r"%char] ++ ["a"%char] ++
                    ["w"%char] ++ ?b ++ ?d' ++ _] =>
          exists d, a, b, d'
      end;
      (split; [simpl; rewrite <- ?app_assoc; simpl; rewrite ?app_nil_r;
               reflexivity|]);
      repeat split; solve [assumption | now left | now right].
  - intros [d [ws [ws' [d' [-> [Hd [Hw [Hw' Hd']]]]]]]].
    change (lit "{%" ++ d ++ ws ++ lit "endraw" ++ ws' ++ d' ++ lit "%}")
      with (["{"%char] ++ ["%"%char] ++ d ++ ws ++ ["e"%char] ++ ["n"%char] ++
            ["d"%char] ++ ["r"%char] ++ ["a"%char] ++ ["w"%char] ++
            ws' ++ d' ++ ["%"%char] ++ ["}"%char] ++ []).
    repeat first
           [ apply matches_eps
           | apply matches_cat
           | apply matches_chr
           | now apply dash_matches
           | now apply all_space_matches ].
Qed.

Lemma skip_open (d ws t : str) (x : ascii) :
  dash_or_empty d -> all_space ws ->
  isspace x = false -> x <> "-"%char ->
  skip_spaces (skip_dash (d ++ ws ++ x :: t)) = x :: t.
Proof.
  intros Hd Hw Hx Hx'.
  assert (S : skip_spaces (ws ++ x :: t) = x :: t)
    by (apply skip_spaces_app; [exact Hw | exact Hx]).
  destruct Hd as [->| ->].
  - cbn [app]. destruct ws as [|a ws]; cbn [app skip_dash] in *.
    + destruct (Ascii.eqb_spec x "-"); [contradiction | exact S].
    + destruct (Ascii.eqb_spec a "-") as [->|_]; [|exact S].
      unfold all_space in Hw. simpl in Hw. discriminate.
  - cbn [app skip_dash]. rewrite Ascii.eqb_refl. exact S.
Qed.

(** What follows the name of a tag: white space or the closing of the
    tag; a word of the name-end pattern is ahead. *)
Lemma name_end_ahead (ws d after : str) :
  all_space ws -> dash_or_empty d ->
  exists w rest,
    ws ++ d ++ lit "%}" ++ after = w ++ rest /\ matches pat_name_end w.
Proof.
  intros Hw Hd. unfold pat_name_end. destruct ws as [|a ws].
  - exists (d ++ lit "%}"), after. split; [now rewrite <- app_assoc|].
    apply matches_alt_r. cbn [seq fold_right].
    constructor; [now apply dash_matches|].
    change (lit "%}") with (["%"%char] ++ ["}"%char] ++ []).
    repeat constructor.
  - exists [a], (ws ++ d ++ lit "%}" ++ after). split; [reflexivity|].
    apply matches_alt_l. constructor.
    unfold all_space in Hw. simpl in Hw. now apply andb_true_iff in Hw.
Qed.

(** The turn of the default lexer on a tag that ends a raw block pushes
    the Tag token of name [endraw] and nothing else. *)
Lemma endraw_view (ln : nat) (d ws ws' d' after : str) :
  dash_or_empty d -> all_space ws -> all_space ws' -> dash_or_empty d' ->
  exists ln',
    fst (iteration_view Lexer_default ln
           (lit "{%" ++ d ++ ws ++ lit "endraw" ++ ws' ++ d' ++ lit "%}" ++ after)) =
    [mkToken ln' TOKEN_TAG "endraw"].
Proof.
  intros Hd Hw Hw' Hd'.
  set (tail := ws' ++ d' ++ lit "%}" ++ after).
  set (body := d ++ ws ++ lit "endraw" ++ tail).
  unfold iteration_view.
  change (starts_with (statement_start_ Lexer_default) (lit "{%" ++ body))
    with false.
  change (starts_with (tag_start_ Lexer_default) (lit "{%" ++ body))
    with true.
  cbv beta iota. unfold tag_view.
  change (re_tag_start_ Lexer_default) with (pat_open "%").
  change (re_name_end_ Lexer_default) with pat_name_end.
  change (re_tag_end_ Lexer_default) with (pat_close "%").
  change (lit "{%" ++ body) with ("{"%char :: "%"%char :: body).
  destruct (pat_open_read "%" body) as [d0 [ws0 [E1 [E2 _]]]].
  assert (K : skip_spaces (skip_dash body) = lit "endraw" ++ tail)
    by (apply skip_open; [assumption | assumption | reflexivity | discriminate]).
  rewrite K in E2. rewrite E1.
  assert (Q : skipn (List.length ("{"%char :: "%"%char :: d0 ++ ws0))
                ("{"%char :: "%"%char :: body) = lit "endraw" ++ tail).
  { rewrite E2 at 1.
    replace ("{"%char :: "%"%char :: d0 ++ ws0 ++ lit "endraw" ++ tail)
      with (("{"%char :: "%"%char :: d0 ++ ws0) ++ lit "endraw" ++ tail)
      by (simpl; now rewrite <- app_assoc).
    apply skipn_length_app. }
  rewrite Q.
  assert (N : until_text pat_name_end (lit "endraw" ++ tail) = lit "endraw").
  { destruct (name_end_ahead ws' d' after Hw' Hd') as [w [rest [E M]]].
    fold tail in E. rewrite E. apply until_text_first; [exact M|].
    intros [|[|[|[|[|[|q]]]]]] Hq; try reflexivity.
    simpl in Hq. lia. }
  rewrite N, skipn_length_app.
  assert (V : until_text (pat_close "%") tail = []).
  { unfold tail.
    replace (ws' ++ d' ++ lit "%}" ++ after)
      with ([] ++ (ws' ++ d' ++ lit "%}") ++ after)
      by (simpl; now rewrite <- !app_assoc).
    apply (until_text_first (pat_close "%") [] (ws' ++ d' ++ lit "%}") after).
    - apply pat_close_words. exists ws', d'. now repeat split.
    - intros q Hq. simpl in Hq. lia. }
  rewrite V.
  change (str_eqb (lit "endraw") (lit "raw")) with false.
  cbv beta iota. cbn [fst]. eexists. reflexivity.
Qed.

(** ** The text of a tag *)

Lemma until_text_nil (pattern : regex) : until_text pattern [] = [].
Proof.
  destruct (until_text_split pattern []) as [rest E].
  symmetry in E. now apply app_eq_nil in E.
Qed.

Lemma anchored_text_nil (pattern : regex) : anchored_text pattern [] = [].
Proof.
  destruct (anchored_text_split pattern []) as [rest E].
  symmetry in E. now apply app_eq_nil in E.
Qed.

Lemma eaten_nil (pattern : regex) (strip_tags : bool) :
  eaten pattern strip_tags [] = [].
Proof.
  unfold eaten. rewrite anchored_text_nil. simpl.
  rewrite anchored_text_nil. now destruct (strip_tags || false).
Qed.

(** The text [ReadUntil] returns holds no start of a match of the
    pattern. *)
Lemma until_text_free (pattern : regex) (s : str) :
  forall q w r,
    q < List.length (until_text pattern s) ->
    skipn q s = w ++ r ->
    ~ matches pattern w.
Proof.
  intros q w r Hlt E M. apply (match_here_complete _ _ r) in M.
  rewrite <- E in M.
  destruct (until_text_cases pattern s)
    as [[_ [_ N]]|[pre [m0 [rest [_ [U [_ [_ Hq]]]]]]]].
  - now apply M.
  - rewrite U in Hlt. now apply M, Hq.
Qed.

Lemma re_whitespace_read (s : str) :
  exists ws,
    anchored_text re_whitespace s = ws /\
    s = ws ++ skip_spaces s /\ all_space ws.
Proof.
  destruct (skip_spaces_split s) as [ws [E Hw]]. exists ws.
  split; [|now split].
  assert (M : match_here re_whitespace s =
              Some (List.length s - List.length (skip_spaces s))).
  { unfold match_here, re_whitespace.
    now rewrite run_star_space by discriminate. }
  rewrite (anchored_text_here _ _ _ M).
  assert (L : List.length s - List.length (skip_spaces s) = List.length ws)
    by (rewrite E at 1; rewrite length_app; lia).
  rewrite L, E. now apply firstn_app_exact.
Qed.

Lemma contains_In (c : ascii) (s : str) : contains c s = true <-> In c s.
Proof.
  unfold contains. rewrite existsb_exists. split.
  - intros [x [Hx E]]. apply Ascii.eqb_eq in E. now subst.
  - intros H. exists c. split; [exact H | apply Ascii.eqb_refl].
Qed.

Lemma blank_stripped_char (c : ascii) : blank c = true <-> stripped_char c.
Proof.
  unfold stripped_char. split.
  - destruct c as [[] [] [] [] [] [] [] []]; intros H;
      try discriminate H; auto.
  - intros [->|[->|[->| ->]]]; reflexivity.
Qed.

Lemma all_blank_stripped (s : str) : all_blank s <-> Forall stripped_char s.
Proof.
  unfold all_blank. rewrite forallb_forall, Forall_forall.
  split; intros H c Hc; apply blank_stripped_char; now apply H.
Qed.

Lemma no_blank_ahead_unstripped (s : str) :
  no_blank_ahead s <-> unstripped_ahead s.
Proof.
  destruct s as [|a s]; [reflexivity|]. cbn [no_blank_ahead unstripped_ahead].
  rewrite <- blank_stripped_char. unfold blank.
  destruct (strings.notspace a); simpl; split; congruence.
Qed.

(** [strings::strip] removes the four characters at both ends and nothing
    else. *)
Lemma strip_chars (v : str) :
  exists l r,
    v = l ++ strings.strip v ++ r /\
    Forall stripped_char l /\ Forall stripped_char r /\
    unstripped_ahead (strings.strip v) /\
    unstripped_behind (strings.strip v).
Proof.
  destruct (strip_spec v) as [l [r [E [Hl [Hr [Ha Hb]]]]]].
  exists l, r. split; [exact E|].
  split; [now apply all_blank_stripped|].
  split; [now apply all_blank_stripped|].
  split; [now apply no_blank_ahead_unstripped|].
  now apply no_blank_ahead_unstripped.
Qed.

Lemma eaten_split (pattern : regex) (strip_tags : bool) (s : str) :
  exists rest, s = eaten pattern strip_tags s ++ rest.
Proof.
  unfold eaten.
  destruct (anchored_text_split pattern s) as [rest E].
  set (t := anchored_text pattern s) in *.
  assert (Q : skipn (List.length t) s = rest)
    by (rewrite E; apply skipn_length_app).
  rewrite Q.
  destruct (strip_tags || contains "-" t).
  - destruct (anchored_text_split re_whitespace rest) as [rest' E'].
    exists rest'. rewrite <- app_assoc, <- E'. exact E.
  - now exists rest.
Qed.

(** The view of the tag branch, part by part: the opening [v1], the name,
    the text [v] up to the closing, the closing [e] that is eaten, and the
    text [body] up to the end of a raw block. *)
Lemma tag_view_chain (lx : Lexer) (ln : nat) (rem : str) :
  exists v1 name v e body rem1 rem2 rem3 rem4 rem5,
    rem = v1 ++ rem1 /\ v1 = anchored_text (re_tag_start_ lx) rem /\
    rem1 = name ++ rem2 /\ name = until_text (re_name_end_ lx) rem1 /\
    rem2 = v ++ rem3 /\ v = until_text (re_tag_end_ lx) rem2 /\
    rem3 = e ++ rem4 /\ e = eaten (re_tag_end_ lx) (strip_tags_ lx) rem3 /\
    rem4 = body ++ rem5 /\ body = until_text re_endraw rem4 /\
    tag_view lx ln rem =
      if str_eqb name "raw"
      then (mkToken (ln + count newline v1) TOKEN_TAG name
              :: expression_tokens (ln + count newline v1 + count newline name) v
              ++ [mkToken (ln + count newline v1 + count newline name +
                           count newline v + count newline e)
                    TOKEN_LITERAL body],
            v1 ++ name ++ v ++ e ++ body)
      else (mkToken (ln + count newline v1) TOKEN_TAG name
              :: expression_tokens (ln + count newline v1 + count newline name) v,
            v1 ++ name ++ v ++ e).
Proof.
  unfold tag_view.
  destruct (anchored_text_split (re_tag_start_ lx) rem) as [rem1 E1].
  set (v1 := anchored_text (re_tag_start_ lx) rem) in *.
  assert (Q1 : skipn (List.length v1) rem = rem1)
    by (rewrite E1; apply skipn_length_app).
  rewrite Q1.
  destruct (until_text_split (re_name_end_ lx) rem1) as [rem2 E2].
  set (name := until_text (re_name_end_ lx) rem1) in *.
  assert (Q2 : skipn (List.length name) rem1 = rem2)
    by (rewrite E2; apply skipn_length_app).
  rewrite Q2.
  destruct (until_text_split (re_tag_end_ lx) rem2) as [rem3 E3].
  set (v := until_text (re_tag_end_ lx) rem2) in *.
  assert (Q3 : skipn (List.length v) rem2 = rem3)
    by (rewrite E3; apply skipn_length_app).
  rewrite Q3.
  destruct (eaten_split (re_tag_end_ lx) (strip_tags_ lx) rem3) as [rem4 E4].
  set (e := eaten (re_tag_end_ lx) (strip_tags_ lx) rem3) in *.
  assert (Q4 : skipn (List.length e) rem3 = rem4)
    by (rewrite E4; apply skipn_length_app).
  rewrite Q4.
  destruct (until_text_split re_endraw rem4) as [rem5 E5].
  exists v1, name, v, e, (until_text re_endraw rem4), rem1, rem2, rem3, rem4, rem5.
  repeat (split; [first [assumption | reflexivity]|]).
  cbv zeta. destruct (str_eqb name "raw"); reflexivity.
Qed.

(** [ReadUntil] and the [Read] that follows it, on the text ahead. *)
Lemma until_text_pinned (pattern : regex) (s : str) :
  exists rest,
    s = until_text pattern s ++ rest /\
    (forall q w r,
        q < List.length (until_text pattern s) ->
        skipn q s = w ++ r -> ~ matches pattern w) /\
    ((rest = [] /\ regex_search pattern s = no_match) \/
     exists w after,
       rest = w ++ after /\ matches pattern w /\
       anchored_text pattern rest = w).
Proof.
  destruct (until_text_cases pattern s)
    as [[N [U _]]|[pre [m0 [rest [_ [U [Es [Hm _]]]]]]]].
  - exists []. split; [now rewrite U, app_nil_r|].
    split; [apply until_text_free | now left].
  - exists (m0 ++ rest). split; [now rewrite U|].
    split; [apply until_text_free | right].
    exists m0, rest. split; [reflexivity|].
    rewrite (anchored_text_here _ _ _ Hm).
    apply match_here_sound in Hm. destruct Hm as [w [rest' [Ew [M L]]]].
    destruct (same_length_prefix _ _ _ _ Ew L) as [<- <-].
    split; [exact M | now apply firstn_app_exact].
Qed.

Lemma up_to_first_until (pattern : regex) (P : str -> Prop) (s : str) :
  (forall w, matches pattern w <-> P w) ->
  exists rest,
    s = until_text pattern s ++ rest /\
    up_to_first P (until_text pattern s) rest /\
    ((rest = [] /\ regex_search pattern s = no_match) \/
     exists w after,
       rest = w ++ after /\ P w /\ anchored_text pattern rest = w).
Proof.
  intros HP. destruct (until_text_pinned pattern s) as [rest [E [Free Hrest]]].
  exists rest. split; [exact E|]. split; [split|].
  - intros q w r Hq Hw M. rewrite <- E in Hw.
    apply (Free q w r Hq Hw). now apply HP.
  - destruct Hrest as [[-> _]|[w [after [-> [M _]]]]]; [now left | right].
    exists w, after. split; [reflexivity | now apply HP].
  - destruct Hrest as [H|[w [after [-> [M A]]]]]; [now left | right].
    exists w, after. split; [reflexivity|]. split; [now apply HP | exact A].
Qed.

Lemma pat_name_end_words (w : str) : matches pat_name_end w <-> name_end w.
Proof.
  unfold pat_name_end, name_end. cbn [seq fold_right]. split.
  - intros H. invert_matches.
    + left. eexists. split; [reflexivity | assumption].
    + right. exists []. split; [reflexivity | now left].
    + right. exists ["-"%char]. split; [reflexivity | now right].
  - intros [[a [-> Ha]]|[d [-> Hd]]].
    + apply matches_alt_l. now constructor.
    + apply matches_alt_r. constructor; [now apply dash_matches|].
      change (lit "%}") with (["%"%char] ++ ["}"%char] ++ []).
      repeat constructor.
Qed.

Lemma pat_tag_end_words (w : str) : matches pat_tag_end w <-> tag_closing w.
Proof. apply (pat_close_words "%"). Qed.

(** The text before the end of a name holds no newline. *)
Lemma name_without_newline (name rest : str) :
  up_to_first name_end name rest -> count newline name = 0.
Proof.
  intros [Free _]. unfold count.
  destruct (filter (Ascii.eqb newline) name) as [|c l] eqn:F; [reflexivity|].
  exfalso.
  assert (Hc : In c (filter (Ascii.eqb newline) name))
    by (rewrite F; now left).
  apply filter_In in Hc. destruct Hc as [Hc Ec].
  apply Ascii.eqb_eq in Ec. subst c.
  apply in_split in Hc. destruct Hc as [a [b Hn]].
  apply (Free (List.length a) [newline] (b ++ rest)).
  - rewrite Hn, length_app. simpl. lia.
  - rewrite Hn, <- app_assoc. apply skipn_length_app.
  - left. exists newline. now split.
Qed.

(** What [EatEnd] consumes at a word [w] the pattern reads there. *)
Lemma eaten_at_word (pattern : regex) (strip_tags : bool) (w after : str) :
  anchored_text pattern (w ++ after) = w ->
  exists trail rest,
    eaten pattern strip_tags (w ++ after) = w ++ trail /\
    after = trail ++ rest /\
    all_space trail /\
    (strip_tags = true \/ In "-"%char w -> no_space_ahead rest) /\
    (strip_tags = false -> ~ In "-"%char w -> trail = []).
Proof.
  intros A. unfold eaten. rewrite A, skipn_length_app.
  destruct (re_whitespace_read after) as [ws [Ew [Es Hw]]].
  destruct (strip_tags || contains "-" w) eqn:B.
  - exists ws, (skip_spaces after). rewrite Ew.
    split; [reflexivity|]. split; [exact Es|]. split; [exact Hw|].
    split; [intros _; apply skip_spaces_no_space|].
    intros -> Hn. simpl in B. apply contains_In in B. contradiction.
  - exists [], after. rewrite app_nil_r.
    split; [reflexivity|]. split; [reflexivity|]. split; [reflexivity|].
    apply orb_false_iff in B. destruct B as [B1 B2].
    split; [|reflexivity].
    intros [->|H]; [discriminate|]. apply contains_In in H. congruence.
Qed.

(** The tag branch of a lexer that has the patterns the constructors
    install, on a text that opens a tag: the tokens it pushes, the parts
    of the text it consumes and what delimits each part. *)
Lemma tag_branch_text (lx : Lexer) (st : State) (body : str) :
  re_tag_start_ lx = pat_tag_start ->
  re_name_end_ lx = pat_name_end ->
  re_tag_end_ lx = pat_tag_end ->
  in_range st ->
  remaining st = lit "{%" ++ body ->
  exists (d ws name v t trail raw : str) (st' : State),
    tag_branch lx st =
      Some (mkToken (linenum_ st + count newline (d ++ ws)) TOKEN_TAG name
              :: expression_tokens (linenum_ st + count newline (d ++ ws)) v
              ++ (if str_eqb name "raw"
                  then [mkToken (linenum_ st +
                                 count newline (d ++ ws ++ v ++ t ++ trail))
                          TOKEN_LITERAL raw]
                  else []),
            st') /\
    body = d ++ ws ++ name ++ v ++ t ++ trail ++ raw ++ remaining st' /\
    in_range st' /\
    source_ st' = source_ st /\
    dash_or_empty d /\ all_space ws /\
    (d = [] -> starts_with "-" body = false) /\
    no_space_ahead (name ++ v ++ t ++ trail ++ raw ++ remaining st') /\
    up_to_first name_end name (v ++ t ++ trail ++ raw ++ remaining st') /\
    up_to_first tag_closing v (t ++ trail ++ raw ++ remaining st') /\
    ((t = [] /\ trail = [] /\ raw = [] /\ remaining st' = []) \/
     tag_closing t) /\
    all_space trail /\
    (strip_tags_ lx = true \/ In "-"%char t ->
     no_space_ahead (raw ++ remaining st')) /\
    (strip_tags_ lx = false -> ~ In "-"%char t -> trail = []) /\
    (name <> lit "raw" -> raw = []) /\
    (name = lit "raw" -> up_to_first endraw_tag raw (remaining st')).
Proof.
  intros Hs Hn He Hr Hrem.
  destruct (tag_branch_view lx st Hr) as [st' [E [A [R S]]]].
  destruct (tag_view_chain lx (linenum_ st) (remaining st))
    as [v1 [name [v [e [bd [rem1 [rem2 [rem3 [rem4 [rem5
       [C1 [C1' [C2 [C2' [C3 [C3' [C4 [C4' [C5 [C5' CV]]]]]]]]]]]]]]]]]]]].
  rewrite CV in E, S. clear CV.
  assert (Hsrc : source_ st' = source_ st) by (rewrite A; reflexivity).
  rewrite Hs in C1'. rewrite Hn in C2'. rewrite He in C3', C4'.
  pose proof C1 as C1r.
  rewrite Hrem in C1, C1'.
  change (lit "{%" ++ body) with ("{"%char :: "%"%char :: body) in C1, C1'.
  change pat_tag_start with (pat_open "%") in C1'.
  (* the opening *)
  destruct (pat_open_read "%" body) as [d [ws [O1 [O2 [Hd [Hw Hdash]]]]]].
  rewrite O1 in C1'.
  assert (R1 : rem1 = skip_spaces (skip_dash body)).
  { rewrite C1' in C1. rewrite O2 in C1 at 1. simpl in C1. injection C1 as C1.
    rewrite <- app_assoc in C1. now do 2 apply app_inv_head in C1. }
  assert (N1 : no_space_ahead rem1)
    by (rewrite R1; apply skip_spaces_no_space).
  assert (B1 : body = d ++ ws ++ rem1) by (rewrite R1; exact O2).
  assert (L1 : count newline v1 = count newline (d ++ ws))
    by (rewrite C1'; reflexivity).
  (* the name *)
  destruct (up_to_first_until pat_name_end name_end rem1 pat_name_end_words)
    as [rest2 [F2 [U2 _]]].
  rewrite <- C2' in F2, U2.
  assert (R2 : rest2 = rem2)
    by (rewrite C2 in F2 at 1; now apply app_inv_head in F2).
  subst rest2.
  pose proof (name_without_newline _ _ U2) as L2.
  (* the text up to the closing *)
  destruct (up_to_first_until pat_tag_end tag_closing rem2 pat_tag_end_words)
    as [rest3 [F3 [U3 T3]]].
  rewrite <- C3' in F3, U3.
  assert (R3 : rest3 = rem3)
    by (rewrite C3 in F3 at 1; now apply app_inv_head in F3).
  subst rest3.
  (* the raw block *)
  destruct (up_to_first_until re_endraw endraw_tag rem4 re_endraw_words)
    as [rest5 [F5 [U5 _]]].
  rewrite <- C5' in F5, U5.
  assert (R5 : rest5 = rem5)
    by (rewrite C5 in F5 at 1; now apply app_inv_head in F5).
  subst rest5.
  (* the closing *)
  assert (Hclose :
            exists t trail,
              e = t ++ trail /\
              ((t = [] /\ trail = [] /\ rem4 = []) \/ tag_closing t) /\
              all_space trail /\
              (strip_tags_ lx = true \/ In "-"%char t -> no_space_ahead rem4) /\
              (strip_tags_ lx = false -> ~ In "-"%char t -> trail = [])).
  { destruct T3 as [[Z _]|[w [after [Ew [Pw Aw]]]]].
    - exists [], []. rewrite Z, eaten_nil in C4'.
      rewrite Z, C4' in C4. simpl in C4. subst rem4.
      split; [exact C4'|]. split; [now left|]. split; [reflexivity|].
      split; [intros _; exact I | reflexivity].
    - rewrite Ew in Aw.
      destruct (eaten_at_word pat_tag_end (strip_tags_ lx) w after Aw)
        as [trail [rest [Ee [Ea [Ht [Hy Hz]]]]]].
      rewrite <- Ew, <- C4' in Ee.
      assert (R4 : rest = rem4).
      { rewrite Ew, Ee, Ea, <- app_assoc in C4.
        now do 2 apply app_inv_head in C4. }
      subst rest. exists w, trail.
      split; [exact Ee|]. split; [now right|]. split; [exact Ht|].
      split; [exact Hy | exact Hz]. }
  destruct Hclose as [t [trail [Ee [Ht [Htr [Hy Hz]]]]]].
  assert (Ln3 : linenum_ st + count newline (d ++ ws ++ v ++ t ++ trail) =
                linenum_ st + count newline v1 + count newline name +
                count newline v + count newline e)
    by (rewrite L1, L2, Ee, !count_app; lia).
  assert (Ln2 : linenum_ st + count newline v1 + count newline name =
                linenum_ st + count newline (d ++ ws))
    by (rewrite L1, L2; lia).
  (* the pins, for what the branch leaves ahead *)
  assert (Fin : forall raw,
             raw ++ remaining st' = rem4 ->
             (name <> lit "raw" -> raw = []) ->
             (name = lit "raw" ->
              up_to_first endraw_tag raw (remaining st')) ->
             body = d ++ ws ++ name ++ v ++ t ++ trail ++ raw ++ remaining st' /\
             in_range st' /\
             source_ st' = source_ st /\
             dash_or_empty d /\ all_space ws /\
             (d = [] -> starts_with "-" body = false) /\
             no_space_ahead (name ++ v ++ t ++ trail ++ raw ++ remaining st') /\
             up_to_first name_end name (v ++ t ++ trail ++ raw ++ remaining st') /\
             up_to_first tag_closing v (t ++ trail ++ raw ++ remaining st') /\
             ((t = [] /\ trail = [] /\ raw = [] /\ remaining st' = []) \/
              tag_closing t) /\
             all_space trail /\
             (strip_tags_ lx = true \/ In "-"%char t ->
              no_space_ahead (raw ++ remaining st')) /\
             (strip_tags_ lx = false -> ~ In "-"%char t -> trail = []) /\
             (name <> lit "raw" -> raw = []) /\
             (name = lit "raw" -> up_to_first endraw_tag raw (remaining st'))).
  { intros raw E4 Hraw Hend.
    assert (E3 : t ++ trail ++ raw ++ remaining st' = rem3)
      by (rewrite E4, app_assoc, <- Ee; now symmetry).
    assert (E2 : v ++ t ++ trail ++ raw ++ remaining st' = rem2)
      by (rewrite E3; now symmetry).
    assert (E1 : name ++ v ++ t ++ trail ++ raw ++ remaining st' = rem1)
      by (rewrite E2; now symmetry).
    rewrite E1, E2, E3, E4.
    split; [exact B1|]. split; [exact R|]. split; [exact Hsrc|].
    split; [exact Hd|]. split; [exact Hw|]. split; [exact Hdash|].
    split; [exact N1|]. split; [exact U2|]. split; [exact U3|].
    split.
    { destruct Ht as [[-> [-> Z]]|Ht]; [left | now right].
      rewrite Z in E4. apply app_eq_nil in E4. now repeat split. }
    split; [exact Htr|]. split; [exact Hy|]. split; [exact Hz|].
    split; [exact Hraw | exact Hend]. }
  rewrite <- Ln3, Ln2, L1 in E.
  destruct (str_eqb name "raw") eqn:Eq; cbn [fst snd] in E, S.
  - assert (Hname : name = lit "raw") by now apply str_eqb_eq.
    assert (Hst' : remaining st' = rem5).
    { rewrite C1r in S at 1. rewrite C2 in S at 1. rewrite C3 in S at 1.
      rewrite C4 in S at 1. rewrite C5 in S at 1.
      rewrite <- !app_assoc in S. now repeat apply app_inv_head in S. }
    exists d, ws, name, v, t, trail, bd, st'.
    split; [rewrite Eq; exact E|]. apply Fin.
    + rewrite Hst'. now symmetry.
    + intros N. contradiction.
    + intros _. rewrite Hst'. exact U5.
  - assert (Hname : name <> lit "raw")
      by (intros Q; apply str_eqb_eq in Q; congruence).
    assert (Hst' : remaining st' = rem4).
    { rewrite C1r in S at 1. rewrite C2 in S at 1. rewrite C3 in S at 1.
      rewrite C4 in S at 1.
      rewrite <- !app_assoc in S. now repeat apply app_inv_head in S. }
    exists d, ws, name, v, t, trail, [], st'.
    split; [rewrite Eq, app_nil_r; exact E|]. apply Fin.
    + exact Hst'.
    + reflexivity.
    + intros Q. contradiction.
Qed.

(** ** The claims about the text of a tag *)

(** C7. In the tag branch of a lexer with the patterns the constructors
    install, on a text that opens a tag, the text [v] read from the end of
    the tag name up to the closing of the tag (or to the end of the source
    when the tag is not closed) is stripped of the line feeds, spaces,
    tabs and carriage returns at both of its ends; when what is left, [e],
    is not empty, one Expression token with the text [e] is pushed right
    after the Tag token, and when it is empty none is; no other token the
    branch pushes is an Expression token. *)
Theorem C7_tag_expression (lx : Lexer) (st : State) (body : str)
        (Hs : re_tag_start_ lx = pat_tag_start)
        (Hn : re_name_end_ lx = pat_name_end)
        (He : re_tag_end_ lx = pat_tag_end)
        (H : in_range st) (Hf : fits_int (source_ st))
        (Hrem : remaining st = lit "{%" ++ body) :
  exists (ln : nat) (d ws name v rest l e r : str)
         (expression last : stream_t) (st' : State),
    tag_branch lx st =
      Some (mkToken ln TOKEN_TAG name :: expression ++ last, st') /\
    body = d ++ ws ++ name ++ v ++ rest /\
    dash_or_empty d /\ all_space ws /\
    (d = [] -> starts_with "-" body = false) /\
    no_space_ahead (name ++ v ++ rest) /\
    up_to_first name_end name (v ++ rest) /\
    up_to_first tag_closing v rest /\
    v = l ++ e ++ r /\
    Forall stripped_char l /\ Forall stripped_char r /\
    unstripped_ahead e /\ unstripped_behind e /\
    (e = [] -> expression = []) /\
    (e <> [] -> expression = [mkToken ln TOKEN_EXPRESSION e]) /\
    Forall (fun t => type t = TOKEN_LITERAL) last.
Proof.
  destruct (tag_branch_text lx st body Hs Hn He H Hrem)
    as (d & ws & name & v & t & trail & raw & st' & E & B & _ & _ & Hd & Hw &
        Hdash & N1 & U2 & U3 & _).
  destruct (strip_chars v) as [l [r [Ev [Hl [Hr' [Ha Hb]]]]]].
  exists (linenum_ st + count newline (d ++ ws)), d, ws, name, v,
    (t ++ trail ++ raw ++ remaining st'), l, (strings.strip v), r.
  exists (expression_tokens (linenum_ st + count newline (d ++ ws)) v).
  eexists _, st'.
  split; [exact E|]. split; [exact B|]. split; [exact Hd|].
  split; [exact Hw|]. split; [exact Hdash|]. split; [exact N1|].
  split; [exact U2|]. split; [exact U3|]. split; [exact Ev|].
  split; [exact Hl|]. split; [exact Hr'|]. split; [exact Ha|].
  split; [exact Hb|]. unfold expression_tokens.
  split; [|split].
  - now intros ->.
  - destruct (strings.strip v); [congruence | reflexivity].
  - destruct (str_eqb name "raw"); repeat constructor.
Qed.

Lemma C7_tag_expression_witness :
  let st := mkState "a{% if  x > 1
%}b" 1 1 in
  tag_branch Lexer_default st =
    Some ([mkToken 1 TOKEN_TAG "if"; mkToken 1 TOKEN_EXPRESSION "x > 1"],
          mkState "a{% if  x > 1
%}b" 16 2) /\
  tag_branch Lexer_default (mkState "{% else %}" 0 1) =
    Some ([mkToken 1 TOKEN_TAG "else"], mkState "{% else %}" 10 1) /\
  exists (ln : nat) (d ws name v rest l e r : str)
         (expression last : stream_t) (st' : State),
    tag_branch Lexer_default st =
      Some (mkToken ln TOKEN_TAG name :: expression ++ last, st') /\
    lit " if  x > 1
%}b" = d ++ ws ++ name ++ v ++ rest /\
    dash_or_empty d /\ all_space ws /\
    (d = [] -> starts_with "-" (lit " if  x > 1
%}b") = false) /\
    no_space_ahead (name ++ v ++ rest) /\
    up_to_first name_end name (v ++ rest) /\
    up_to_first tag_closing v rest /\
    v = l ++ e ++ r /\
    Forall stripped_char l /\ Forall stripped_char r /\
    unstripped_ahead e /\ unstripped_behind e /\
    (e = [] -> expression = []) /\
    (e <> [] -> expression = [mkToken ln TOKEN_EXPRESSION e]) /\
    Forall (fun t => type t = TOKEN_LITERAL) last.
Proof.
  intros st. split; [vm_compute; reflexivity|].
  split; [vm_compute; reflexivity|].
  apply (C7_tag_expression Lexer_default st (lit " if  x > 1
%}b")).
  - reflexivity.
  - reflexivity.
  - reflexivity.
  - unfold in_range. simpl. lia.
  - vm_compute. reflexivity.
  - reflexivity.
Defined.

(** A turn of the loop that pushes a Tag token first took the tag
    branch. *)
Lemma iteration_at_tag (lx : Lexer) (st st' : State) (ln : nat) (name : str)
      (more : stream_t) :
  in_range st ->
  iteration lx st = Some (mkToken ln TOKEN_TAG name :: more, st') ->
  starts_with (tag_start_ lx) (remaining st) = true /\
  tag_branch lx st = Some (mkToken ln TOKEN_TAG name :: more, st').
Proof.
  intros Hr E. unfold iteration, bind in E. rewrite At_eq in E by exact Hr.
  destruct (starts_with (statement_start_ lx) (remaining st)).
  - destruct (statement_branch_view lx st Hr) as [st1 [E1 _]].
    rewrite E1 in E. unfold statement_view in E. cbn [fst] in E. discriminate.
  - rewrite At_eq in E by exact Hr.
    destruct (starts_with (tag_start_ lx) (remaining st)); [now split|].
    destruct (literal_branch_view lx st Hr) as [st1 [E1 _]].
    rewrite E1 in E. unfold literal_view in E. cbn [fst] in E. discriminate.
Qed.

(** C1, as the code has it.  A turn of the default lexer that reads a tag
    named raw pushes, after the Tag token and the Expression token if
    there is one, one Literal token.  The text of that token starts where
    the raw tag ends: after the opening delimiter, its trim marker if any,
    white space, the name, the text up to the closing of the tag, the
    closing itself and, when the closing has a trim marker, all the white
    space that follows.  It runs up to the first tag that ends a raw
    block, or up to the end of the source when there is none.  The cursor
    stops in front of that tag: the pattern is not consumed, and the next
    turn reads it as a tag and pushes the Tag token of name endraw.  The
    source of scenario 3 gives Tag [raw], Literal, Tag [endraw] and the
    end of input. *)
Theorem C1_raw_block_leaves_endraw_tag :
  (forall (st st' : State) (ln : nat) (more : stream_t),
      in_range st ->
      fits_int (source_ st) ->
      iteration Lexer_default st =
        Some (mkToken ln TOKEN_TAG "raw" :: more, st') ->
      exists (expression : stream_t) (ln' : nat) (d ws v t trail body : str),
        more = expression ++ [mkToken ln' TOKEN_LITERAL body] /\
        (expression = [] \/
         exists ln2 e, expression = [mkToken ln2 TOKEN_EXPRESSION e]) /\
        remaining st =
          lit "{%" ++ d ++ ws ++ lit "raw" ++ v ++ t ++ trail ++
          body ++ remaining st' /\
        dash_or_empty d /\ all_space ws /\
        up_to_first name_end (lit "raw")
          (v ++ t ++ trail ++ body ++ remaining st') /\
        up_to_first tag_closing v (t ++ trail ++ body ++ remaining st') /\
        ((t = [] /\ trail = [] /\ body = [] /\ remaining st' = []) \/
         tag_closing t) /\
        all_space trail /\
        (In "-"%char t -> no_space_ahead (body ++ remaining st')) /\
        (~ In "-"%char t -> trail = []) /\
        (forall q w rest,
            q < List.length body ->
            skipn q (body ++ remaining st') = w ++ rest ->
            ~ endraw_tag w) /\
        (remaining st' = [] \/
         exists (w after : str) (ln'' : nat) (st'' : State),
           remaining st' = w ++ after /\
           endraw_tag w /\
           iteration Lexer_default st' =
             Some ([mkToken ln'' TOKEN_TAG "endraw"], st''))) /\
  Tokenize 3 Lexer_default "{% raw %}{{ not a statement }}{% endraw %}" =
    Returned [mkToken 1 TOKEN_TAG "raw";
              mkToken 1 TOKEN_LITERAL "{{ not a statement }}";
              mkToken 1 TOKEN_TAG "endraw";
              mkToken 1 TOKEN_EOF ""].
Proof.
  split; [|vm_compute; reflexivity].
  intros st st' ln more Hr _ E.
  destruct (iteration_at_tag Lexer_default st st' ln "raw" more Hr E)
    as [Hat Eb].
  change (tag_start_ Lexer_default) with (lit "{%") in Hat.
  apply starts_with_app in Hat. destruct Hat as [body Hrem].
  destruct (tag_branch_text Lexer_default st body eq_refl eq_refl eq_refl
              Hr Hrem)
    as (d & ws & name & v & t & trail & raw & st1 & E1 & B & R & _ & Hd & Hw &
        _ & _ & U2 & U3 & Ht & Htr & Hy & Hz & _ & Hend).
  rewrite Eb in E1.
  assert (Hname : name = lit "raw") by (injection E1 as _ Hn _ _; now symmetry).
  subst name.
  change (str_eqb (lit "raw") (lit "raw")) with true in E1. cbv iota in E1.
  assert (Hst : st1 = st') by (injection E1 as _ _ Hst; now symmetry).
  subst st1.
  specialize (Hend eq_refl). destruct Hend as [Free Hnext].
  exists (expression_tokens (linenum_ st + count newline (d ++ ws)) v),
    (linenum_ st + count newline (d ++ ws ++ v ++ t ++ trail)),
    d, ws, v, t, trail, raw.
  split; [now injection E1 as _ Hm|].
  split.
  { unfold expression_tokens. destruct (strings.strip v) as [|a e'];
      [now left | right; now eexists _, (a :: e')]. }
  split; [now rewrite Hrem, B|].
  split; [exact Hd|]. split; [exact Hw|]. split; [exact U2|].
  split; [exact U3|]. split; [exact Ht|]. split; [exact Htr|].
  split; [intros Hin; apply Hy; now right|].
  split; [intros Hin; now apply Hz|].
  split; [exact Free|].
  destruct Hnext as [Z|[w [after [Ew Pw]]]]; [now left | right].
  pose proof Pw as Pw'.
  destruct Pw as [d0 [ws0 [ws' [d' [Ew' [Hd0 [Hw0 [Hw' Hd']]]]]]]].
  destruct (iteration_agrees Lexer_default st' R) as [st'' [E'' _]].
  destruct (endraw_view (linenum_ st') d0 ws0 ws' d' after Hd0 Hw0 Hw' Hd')
    as [ln'' V].
  exists w, after, ln'', st''. split; [exact Ew|]. split; [exact Pw'|].
  rewrite E'', Ew, Ew', <- !app_assoc. now rewrite V.
Qed.

Lemma C1_raw_block_leaves_endraw_tag_witness :
  let st := State_new "{% raw %}{{ not a statement }}{% endraw %}" in
  let st' := mkState "{% raw %}{{ not a statement }}{% endraw %}" 30 1 in
  exists (expression : stream_t) (ln' : nat) (d ws v t trail body : str),
    [mkToken 1 TOKEN_LITERAL "{{ not a statement }}"] =
      expression ++ [mkToken ln' TOKEN_LITERAL body] /\
    (expression = [] \/
     exists ln2 e, expression = [mkToken ln2 TOKEN_EXPRESSION e]) /\
    remaining st =
      lit "{%" ++ d ++ ws ++ lit "raw" ++ v ++ t ++ trail ++
      body ++ remaining st' /\
    dash_or_empty d /\ all_space ws /\
    up_to_first name_end (lit "raw")
      (v ++ t ++ trail ++ body ++ remaining st') /\
    up_to_first tag_closing v (t ++ trail ++ body ++ remaining st') /\
    ((t = [] /\ trail = [] /\ body = [] /\ remaining st' = []) \/
     tag_closing t) /\
    all_space trail /\
    (In "-"%char t -> no_space_ahead (body ++ remaining st')) /\
    (~ In "-"%char t -> trail = []) /\
    (forall q w rest,
        q < List.length body ->
        skipn q (body ++ remaining st') = w ++ rest ->
        ~ endraw_tag w) /\
    (remaining st' = [] \/
     exists (w after : str) (ln'' : nat) (st'' : State),
       remaining st' = w ++ after /\
       endraw_tag w /\
       iteration Lexer_default st' =
         Some ([mkToken ln'' TOKEN_TAG "endraw"], st'')).
Proof.
  intros st st'.
  apply (proj1 C1_raw_block_leaves_endraw_tag st st' 1
           [mkToken 1 TOKEN_LITERAL "{{ not a statement }}"]).
  - unfold in_range. simpl. lia.
  - vm_compute. reflexivity.
  - vm_compute. reflexivity.
Defined.

(** C1, as the specification has it: the stream it gives for scenario 3,
    without a token for the endraw tag, is not the one Tokenize returns,
    with any number of turns. *)
Lemma C1_scenario_3_differs :
  ~ exists fuel : nat,
      Tokenize fuel Lexer_default "{% raw %}{{ not a statement }}{% endraw %}" =
      Returned [mkToken 1 TOKEN_TAG "raw";
                mkToken 1 TOKEN_LITERAL "{{ not a statement }}";
                mkToken 1 TOKEN_EOF ""].
Proof.
  intros [[|[|[|fuel]]] H]; vm_compute in H; discriminate.
Qed.

(** * Further properties of the code *)

(** ** strings.h *)

Lemma find_if_none (p : ascii -> bool) (s : str) :
  forallb (fun c => negb (p c)) s = true ->
  strings.find_if p s = List.length s.
Proof.
  induction s as [|a s IH]; simpl; [reflexivity|].
  intros H. apply andb_true_iff in H. destruct H as [Ha Hs].
  destruct (p a); [discriminate|]. now rewrite IH.
Qed.

Lemma find_if_here (p : ascii -> bool) (s : str) :
  match s with [] => True | a :: _ => p a = true end ->
  strings.find_if p s = 0.
Proof. destruct s as [|a s]; simpl; [reflexivity|]. now intros ->. Qed.

Lemma find_if_app (p : ascii -> bool) (l t : str) :
  forallb (fun c => negb (p c)) l = true ->
  strings.find_if p (l ++ t) = List.length l + strings.find_if p t.
Proof.
  induction l as [|a l IH]; simpl; [reflexivity|].
  intros H. apply andb_true_iff in H. destruct H as [Ha Hl].
  destruct (p a); [discriminate|]. now rewrite IH.
Qed.

Lemma lstrip_app (l t : str) :
  all_blank l -> no_blank_ahead t -> strings.lstrip (l ++ t) = t.
Proof.
  intros Hl Ht. unfold strings.lstrip.
  rewrite (find_if_app strings.notspace l t Hl),
    (find_if_here strings.notspace t Ht), Nat.add_0_r.
  apply skipn_length_app.
Qed.

Lemma rstrip_app (t r : str) :
  all_blank r -> no_blank_behind t -> strings.rstrip (t ++ r) = t.
Proof.
  intros Hr Ht. unfold strings.rstrip. rewrite rev_app_distr.
  rewrite (find_if_app strings.notspace (rev r) (rev t))
    by (unfold all_blank, blank in Hr; now rewrite forallb_rev).
  rewrite (find_if_here strings.notspace (rev t) Ht), Nat.add_0_r.
  rewrite length_rev, length_app.
  apply firstn_app_exact. lia.
Qed.

Lemma all_blank_app (a b : str) :
  all_blank (a ++ b) <-> all_blank a /\ all_blank b.
Proof. unfold all_blank. rewrite forallb_app. apply andb_true_iff. Qed.

Lemma lstrip_all_blank (s : str) : all_blank s -> strings.lstrip s = [].
Proof.
  intros H. unfold strings.lstrip.
  rewrite (find_if_none strings.notspace s H). apply skipn_all.
Qed.

Lemma no_blank_ahead_app (m r : str) :
  m <> [] -> no_blank_ahead m -> no_blank_ahead (m ++ r).
Proof. destruct m as [|a m]; [contradiction | now intros _]. Qed.

Lemma no_blank_behind_app (l m : str) :
  m <> [] -> no_blank_behind m -> no_blank_behind (l ++ m).
Proof.
  unfold no_blank_behind. rewrite rev_app_distr. intros Hm.
  apply no_blank_ahead_app. intros E. apply Hm.
  now rewrite <- (rev_involutive m), E.
Qed.

(** X1. strip gives the one middle part of its argument that has blanks
    on neither side and is surrounded by blanks only. *)
Theorem strip_unique (l m r : str) :
  all_blank l -> all_blank r ->
  no_blank_ahead m -> no_blank_behind m ->
  strings.strip (l ++ m ++ r) = m.
Proof.
  intros Hl Hr Ha Hb. unfold strings.strip.
  destruct m as [|a m].
  - simpl. rewrite lstrip_all_blank by now apply all_blank_app.
    reflexivity.
  - rewrite lstrip_app;
      [|exact Hl | apply no_blank_ahead_app; [discriminate | exact Ha]].
    now apply rstrip_app.
Qed.

Lemma strip_unique_witness :
  strings.strip (lit " 	" ++ lit "a b" ++ lit "
") = lit "a b".
Proof.
  apply strip_unique; try reflexivity.
Defined.

(** X2. Stripping twice is stripping once, for strip and for each of its
    two halves. *)
Theorem strip_idempotent (s : str) :
  strings.strip (strings.strip s) = strings.strip s /\
  strings.lstrip (strings.lstrip s) = strings.lstrip s /\
  strings.rstrip (strings.rstrip s) = strings.rstrip s.
Proof.
  split; [|split].
  - destruct (strip_spec s) as [l [r [_ [_ [_ [Ha Hb]]]]]].
    rewrite <- (app_nil_r (strings.strip s)) at 1.
    now apply (strip_unique [] (strings.strip s) []).
  - destruct (lstrip_spec s) as [l [_ [_ Ha]]].
    now apply (lstrip_app [] (strings.lstrip s)).
  - destruct (rstrip_spec s) as [r [_ [_ Hb]]].
    rewrite <- (app_nil_r (strings.rstrip s)) at 1.
    now apply rstrip_app.
Qed.

(** X3. strip returns the empty string exactly on the strings made of
    blanks only (newline, space, tab, carriage return), the empty string
    among them. *)
Theorem strip_empty_iff_blank (s : str) :
  strings.strip s = [] <-> all_blank s.
Proof.
  split.
  - intros E. destruct (strip_spec s) as [l [r [Es [Hl [Hr _]]]]].
    rewrite E in Es. rewrite Es. simpl. now apply all_blank_app.
  - intros H. unfold strings.strip. now rewrite lstrip_all_blank.
Qed.

(** X4. The two halves of strip commute: stripping the right end first
    and the left end second gives the same string as strip. *)
Theorem lstrip_rstrip_commute (s : str) :
  strings.lstrip (strings.rstrip s) = strings.strip s.
Proof.
  destruct (strip_spec s) as [l [r [Es [Hl [Hr [Ha Hb]]]]]].
  destruct (strings.strip s) as [|a m] eqn:E.
  - simpl in Es. assert (Hs : all_blank s) by (rewrite Es; now apply all_blank_app).
    replace (strings.rstrip s) with (@nil ascii); [reflexivity|].
    symmetry. rewrite <- (app_nil_l s). apply rstrip_app; [exact Hs | exact I].
  - rewrite Es at 1. rewrite app_assoc.
    rewrite rstrip_app;
      [|exact Hr | apply no_blank_behind_app; [discriminate | exact Hb]].
    now apply lstrip_app.
Qed.

(** ** The cursor *)

Lemma End_true_remaining (st : State) :
  in_range st -> End st = Some (true, st) -> remaining st = [].
Proof.
  intros Hr H. unfold End in H. injection H as H. apply Nat.eqb_eq in H.
  unfold remaining. rewrite H. apply skipn_all.
Qed.

(** X5. At the end of the source ReadUntil, Read and EatEnd return with
    the empty string and leave the cursor as it is, whatever the pattern,
    also when the pattern matches the empty string. *)
Theorem cursor_at_end_stays (pattern : regex) (strip_tags : bool) (st : State)
        (Hr : in_range st) (HE : End st = Some (true, st)) :
  (exists m, ReadUntil pattern st = Some (([], m), st)) /\
  (exists m, Read pattern st = Some (([], m), st)) /\
  (exists m, EatEnd pattern strip_tags st = Some (m, st)).
Proof.
  pose proof (End_true_remaining st Hr HE) as Z.
  split; [|split].
  - eexists. rewrite (ReadUntil_eq pattern st Hr), Z, until_text_nil.
    now rewrite advance_nil.
  - eexists. rewrite (Read_eq pattern st Hr), Z, anchored_text_nil.
    now rewrite advance_nil.
  - destruct (EatEnd_spec pattern strip_tags st Hr) as [m [st' [E [A _]]]].
    exists m. rewrite E, A, Z, eaten_nil. now rewrite advance_nil.
Qed.

Lemma cursor_at_end_stays_witness :
  let st := mkState "ab" 2 1 in
  (exists m, ReadUntil re_whitespace st = Some (([], m), st)) /\
  (exists m, Read re_whitespace st = Some (([], m), st)) /\
  (exists m, EatEnd re_whitespace true st = Some (m, st)).
Proof.
  intros st. apply (cursor_at_end_stays re_whitespace true st).
  - unfold in_range. simpl. lia.
  - reflexivity.
Defined.

(** X6. Read consumes the match of the pattern that starts at the cursor
    and nothing else: when the pattern matches there the text of that
    match is returned and the cursor moves past it, and when it does not
    match there the empty string is returned and the cursor stays, also
    when the pattern matches further on. *)
Theorem Read_is_anchored (pattern : regex) (st : State) (Hr : in_range st) :
  (forall n,
      match_here pattern (remaining st) = Some n ->
      exists m,
        Read pattern st =
          Some ((firstn n (remaining st), m),
                advance st (firstn n (remaining st))) /\
        List.length (firstn n (remaining st)) = n) /\
  (match_here pattern (remaining st) = None ->
   exists m, Read pattern st = Some (([], m), st)).
Proof.
  split.
  - intros n H. eexists. rewrite (Read_eq pattern st Hr).
    rewrite (anchored_text_here pattern _ n H). split; [reflexivity|].
    apply match_here_le in H. rewrite length_firstn. lia.
  - intros H. eexists. rewrite (Read_eq pattern st Hr).
    rewrite (anchored_text_miss pattern _ H). now rewrite advance_nil.
Qed.

Lemma Read_is_anchored_witness :
  let st := mkState "ab }}" 0 1 in
  (forall n,
      match_here pat_statement_end (remaining st) = Some n ->
      exists m,
        Read pat_statement_end st =
          Some ((firstn n (remaining st), m),
                advance st (firstn n (remaining st))) /\
        List.length (firstn n (remaining st)) = n) /\
  (match_here pat_statement_end (remaining st) = None ->
   exists m, Read pat_statement_end st = Some (([], m), st)).
Proof.
  intros st. apply (Read_is_anchored pat_statement_end st).
  unfold in_range. simpl. lia.
Defined.

(** X7. Read after ReadUntil with the same pattern consumes exactly the
    text of the match at which ReadUntil stopped (nothing when ReadUntil
    ran to the end of the source): the two calls split the text ahead
    into the text before the match, the match, and what the cursor is
    left in front of. *)
Theorem ReadUntil_then_Read (pattern : regex) (st : State) (Hr : in_range st) :
  exists (v : str) (m m' : smatch) (st1 st2 : State),
    ReadUntil pattern st = Some ((v, m), st1) /\
    Read pattern st1 = Some ((str0 m, m'), st2) /\
    remaining st = v ++ str0 m ++ remaining st2 /\
    (matched m = false -> End st2 = Some (true, st2)).
Proof.
  destruct (ReadUntil_spec pattern st Hr) as [st1 [E1 [A1 [R1 S1]]]].
  destruct (Read_spec pattern st1 R1) as [st2 [E2 [A2 [R2 S2]]]].
  exists (until_text pattern (remaining st)),
    (regex_search pattern (remaining st)),
    (regex_search pattern (remaining st1)), st1, st2.
  split; [exact E1|].
  assert (Q : anchored_text pattern (remaining st1) =
              str0 (regex_search pattern (remaining st))).
  { destruct (until_text_cases pattern (remaining st))
      as [[N [U _]]|[pre [m0 [rest [F [U [S [Hm _]]]]]]]].
    - rewrite N. simpl. rewrite U in S1.
      assert (Z : remaining st1 = []).
      { apply (f_equal (@List.length ascii)) in S1.
        rewrite length_app in S1.
        destruct (remaining st1); [reflexivity | simpl in S1; lia]. }
      rewrite Z. apply anchored_text_nil.
    - rewrite F. simpl. rewrite U, S in S1. apply app_inv_head in S1.
      rewrite <- S1, (anchored_text_here pattern _ _ Hm).
      now apply firstn_app_exact. }
  rewrite Q in *. split; [exact E2|].
  split; [rewrite S1 at 1; now rewrite S2 at 1|].
  intros Hno. destruct (regex_search pattern (remaining st)) eqn:F;
    [|discriminate].
  unfold until_text in S1. rewrite F in S1.
  assert (Z : remaining st1 = []).
  { apply (f_equal (@List.length ascii)) in S1. rewrite length_app in S1.
    destruct (remaining st1); [reflexivity | simpl in S1; lia]. }
  simpl in S2. rewrite Z in S2. symmetry in S2.
  unfold End. do 2 f_equal. apply Nat.eqb_eq.
  apply (f_equal (@List.length ascii)) in S2.
  rewrite in_range_remaining in S2 by exact R2.
  unfold in_range in R2. simpl in S2. lia.
Qed.

Lemma ReadUntil_then_Read_witness :
  let st := mkState "{{ x -}} y" 3 1 in
  exists (v : str) (m m' : smatch) (st1 st2 : State),
    ReadUntil pat_statement_end st = Some ((v, m), st1) /\
    Read pat_statement_end st1 = Some ((str0 m, m'), st2) /\
    remaining st = v ++ str0 m ++ remaining st2 /\
    (matched m = false -> End st2 = Some (true, st2)).
Proof.
  intros st. apply (ReadUntil_then_Read pat_statement_end st).
  unfold in_range. simpl. lia.
Defined.

(** X8. EatEnd reads the pattern at the cursor.  When strip_tags is set
    or the text it read holds a trim marker, it also consumes all the
    white space that follows, so that the cursor is left in front of a
    character that is not white space or at the end; otherwise it
    consumes the text of the pattern and nothing more.  With strip_tags
    set the white space is consumed even when the pattern did not match. *)
Theorem EatEnd_trims (pattern : regex) (strip_tags : bool) (st : State)
        (Hr : in_range st) :
  exists (m : smatch) (st' : State) (t ws : str),
    EatEnd pattern strip_tags st = Some (m, st') /\
    (exists m0, Read pattern st = Some ((t, m0), advance st t)) /\
    remaining st = t ++ ws ++ remaining st' /\
    all_space ws /\
    (strip_tags = true \/ In "-"%char t -> no_space_ahead (remaining st')) /\
    (strip_tags = false -> ~ In "-"%char t -> ws = []).
Proof.
  destruct (EatEnd_spec pattern strip_tags st Hr) as [m [st' [E [A [R S]]]]].
  set (t := anchored_text pattern (remaining st)) in *.
  destruct (anchored_text_split pattern (remaining st)) as [rest Et].
  fold t in Et.
  assert (Q : skipn (List.length t) (remaining st) = rest)
    by (rewrite Et; apply skipn_length_app).
  unfold eaten in S. fold t in S. cbv zeta in S. rewrite Q in S.
  destruct (re_whitespace_read rest) as [ws [Ew [Es Hw]]].
  destruct (strip_tags || contains "-" t) eqn:B.
  - exists m, st', t, ws. split; [exact E|].
    split; [eexists; apply Read_eq, Hr|].
    rewrite Ew in S. rewrite <- app_assoc in S.
    split; [exact S|]. split; [exact Hw|].
    assert (Rest : remaining st' = skip_spaces rest).
    { rewrite Et in S at 1. apply app_inv_head in S.
      rewrite Es in S at 1. now apply app_inv_head in S. }
    split; [intros _; rewrite Rest; apply skip_spaces_no_space|].
    intros -> Hn. simpl in B. apply contains_In in B. contradiction.
  - exists m, st', t, []. split; [exact E|].
    split; [eexists; apply Read_eq, Hr|].
    split; [exact S|]. split; [reflexivity|].
    apply orb_false_iff in B. destruct B as [B1 B2].
    split; [|reflexivity].
    intros [->|H]; [discriminate|].
    apply contains_In in H. congruence.
Qed.

Lemma EatEnd_trims_witness :
  let st := mkState "{{ x -}}  y" 4 1 in
  exists (m : smatch) (st' : State) (t ws : str),
    EatEnd pat_statement_end false st = Some (m, st') /\
    (exists m0, Read pat_statement_end st = Some ((t, m0), advance st t)) /\
    remaining st = t ++ ws ++ remaining st' /\
    all_space ws /\
    (false = true \/ In "-"%char t -> no_space_ahead (remaining st')) /\
    (false = false -> ~ In "-"%char t -> ws = []).
Proof.
  intros st. apply (EatEnd_trims pat_statement_end false st).
  unfold in_range. simpl. lia.
Defined.

(** ** The stream of tokens *)

Lemma lines_chain_app (a b c : nat) (l1 l2 : stream_t) :
  lines_chain a l1 b -> lines_chain b l2 c -> lines_chain a (l1 ++ l2) c.
Proof.
  revert a. induction l1 as [|t l1 IH]; simpl; intros a H1 H2.
  - destruct l2 as [|t l2]; simpl in *; [lia|]. split; [lia | apply H2].
  - split; [apply H1 | apply IH; [apply H1 | exact H2]].
Qed.

Lemma lines_chain_bounds (lo hi : nat) (l : stream_t) :
  lines_chain lo l hi ->
  lo <= hi /\ Forall (fun t => lo <= linenum t /\ linenum t <= hi) l.
Proof.
  revert lo. induction l as [|t l IH]; simpl; intros lo H.
  - split; [exact H | constructor].
  - destruct H as [H1 H2]. destruct (IH _ H2) as [H3 H4].
    split; [lia|]. constructor; [lia|].
    eapply Forall_impl; [|exact H4]. simpl. intros x. lia.
Qed.

Lemma lines_chain_pairwise (lo hi : nat) (pre mid post : stream_t)
      (a b : Token) :
  lines_chain lo (pre ++ a :: mid ++ b :: post) hi ->
  linenum a <= linenum b.
Proof.
  revert lo. induction pre as [|t pre IH]; simpl; intros lo H.
  - destruct H as [_ H]. apply lines_chain_bounds in H.
    destruct H as [_ H]. rewrite Forall_forall in H.
    apply (H b). apply in_or_app. right. now left.
  - destruct H as [_ H]. now apply IH in H.
Qed.

Lemma iteration_view_lines (lx : Lexer) (ln : nat) (rem : str) :
  lines_chain ln (fst (iteration_view lx ln rem))
    (ln + count newline (snd (iteration_view lx ln rem))).
Proof.
  unfold iteration_view, statement_view, tag_view, literal_view,
    expression_tokens.
  repeat match goal with
         | |- context [if ?b then _ else _] => destruct b
         | |- context [match strings.strip ?v with _ => _ end] =>
             destruct (strings.strip v)
         end;
    cbn [fst snd app lines_chain linenum]; rewrite ?count_app; lia.
Qed.

Lemma iteration_lines (lx : Lexer) (st st' : State) (pushed : stream_t) :
  in_range st ->
  iteration lx st = Some (pushed, st') ->
  in_range st' /\ lines_chain (linenum_ st) pushed (linenum_ st').
Proof.
  intros Hr E.
  destruct (iteration_agrees lx st Hr) as [st1 [E1 [A [R _]]]].
  rewrite E in E1. injection E1 as -> <-. split; [exact R|].
  rewrite A. apply iteration_view_lines.
Qed.

Lemma while_loop_lines (lx : Lexer) (fuel : nat) :
  forall (tokens tokens' : stream_t) (st st' : State),
    in_range st ->
    lines_chain 1 tokens (linenum_ st) ->
    while_loop fuel lx tokens st = Returned (tokens', st') ->
    lines_chain 1 tokens' (linenum_ st').
Proof.
  induction fuel as [|fuel IH]; intros tokens tokens' st st' Hr Hc H;
    [discriminate|].
  cbn [while_loop] in H. unfold End in H.
  destruct (it_ st =? List.length (source_ st)).
  - now injection H as <- <-.
  - destruct (iteration lx st) as [[pushed st1]|] eqn:E; [|discriminate].
    destruct (iteration_lines lx st st1 pushed Hr E) as [R1 C1].
    apply (IH _ _ _ _ R1) in H; [exact H|].
    eapply lines_chain_app; eassumption.
Qed.

Lemma while_loop_at_end (lx : Lexer) (fuel : nat) :
  forall (tokens tokens' : stream_t) (st st' : State),
    while_loop fuel lx tokens st = Returned (tokens', st') ->
    it_ st' = List.length (source_ st').
Proof.
  induction fuel as [|fuel IH]; intros tokens tokens' st st' H;
    [discriminate|].
  cbn [while_loop] in H. unfold End in H.
  destruct (it_ st =? List.length (source_ st)) eqn:HE.
  - injection H as _ <-. now apply Nat.eqb_eq.
  - destruct (iteration lx st) as [[pushed st1]|]; [|discriminate].
    now apply IH in H.
Qed.

(** What Tokenize returns, from what its loop returns. *)
Lemma Tokenize_returned (lx : Lexer) (fuel : nat) (source : str)
      (toks : stream_t) :
  Tokenize fuel lx source = Returned toks ->
  exists tokens st',
    while_loop fuel lx [] (State_new source) = Returned (tokens, st') /\
    toks = tokens ++ [mkToken (1 + count newline source) TOKEN_EOF ""] /\
    linenum_ st' = 1 + count newline source.
Proof.
  unfold Tokenize. intros H.
  destruct (while_loop fuel lx [] (State_new source))
    as [[tokens st']| |] eqn:W; try discriminate.
  pose proof (while_loop_inv lx fuel [] (State_new source)
                (cursor_inv_new source)) as Inv.
  rewrite W in Inv. destruct Inv as [Hs [_ [_ L]]].
  pose proof (while_loop_at_end lx fuel _ _ _ _ W) as HE.
  unfold lines_counted in L. rewrite HE, firstn_all, Hs in L. simpl in L.
  exists tokens, st'. split; [reflexivity|].
  unfold State_linenum in H. injection H as <-.
  split; [now rewrite L | exact L].
Qed.

(** X9. In the stream Tokenize returns, with any delimiters, the line
    numbers never decrease from one token to a later one, and every line
    number lies between 1 and 1 plus the number of newline characters of
    the source. *)
Theorem Tokenize_lines_monotone (lx : Lexer) (fuel : nat) (source : str)
        (toks : stream_t)
        (H : Tokenize fuel lx source = Returned toks) :
  (forall pre mid post a b,
      toks = pre ++ a :: mid ++ b :: post -> linenum a <= linenum b) /\
  Forall (fun t => 1 <= linenum t /\
                   linenum t <= 1 + count newline source) toks.
Proof.
  destruct (Tokenize_returned lx fuel source toks H)
    as [tokens [st' [W [-> L]]]].
  assert (C : lines_chain 1
                (tokens ++ [mkToken (1 + count newline source) TOKEN_EOF ""])
                (1 + count newline source)).
  { apply lines_chain_app with (b := linenum_ st').
    - apply (while_loop_lines lx fuel [] tokens (State_new source) st');
        [apply cursor_inv_new | simpl; lia | exact W].
    - simpl. lia. }
  split.
  - intros pre mid post a b E. rewrite E in C.
    now apply lines_chain_pairwise in C.
  - now apply lines_chain_bounds in C.
Qed.

Lemma Tokenize_lines_monotone_witness :
  let source := lit "a
{{ b
}}
c" in
  let toks := [mkToken 1 TOKEN_LITERAL "a
"; mkToken 2 TOKEN_STATEMENT "b"; mkToken 3 TOKEN_LITERAL "
c"; mkToken 4 TOKEN_EOF ""] in
  (forall pre mid post a b,
      toks = pre ++ a :: mid ++ b :: post -> linenum a <= linenum b) /\
  Forall (fun t => 1 <= linenum t /\
                   linenum t <= 1 + count newline source) toks.
Proof.
  intros source toks.
  apply (Tokenize_lines_monotone Lexer_default 4 source toks).
  vm_compute. reflexivity.
Defined.

Lemma expressions_follow_tags_weaken (b : bool) (l : stream_t) :
  expressions_follow_tags false l -> expressions_follow_tags b l.
Proof.
  destruct l as [|t l]; simpl; [trivial|].
  intros [H1 H2]. split; [|exact H2].
  intros E. specialize (H1 E). discriminate.
Qed.

Lemma expressions_follow_tags_app (b : bool) (l1 l2 : stream_t) :
  expressions_follow_tags b l1 ->
  expressions_follow_tags false l2 ->
  expressions_follow_tags b (l1 ++ l2).
Proof.
  revert b. induction l1 as [|t l1 IH]; simpl; intros b H1 H2.
  - now apply expressions_follow_tags_weaken.
  - split; [apply H1 | apply IH; [apply H1 | exact H2]].
Qed.

Lemma expressions_follow_tags_split (b : bool) (pre post : stream_t)
      (t : Token) :
  expressions_follow_tags b (pre ++ t :: post) ->
  type t = TOKEN_EXPRESSION ->
  (pre = [] /\ b = true) \/
  (exists pre' g, pre = pre' ++ [g] /\ type g = TOKEN_TAG).
Proof.
  revert b. induction pre as [|g pre IH]; simpl; intros b H E.
  - left. split; [reflexivity | now apply H].
  - right. destruct H as [_ H]. destruct (IH _ H E) as [[-> T]|[pre' [g' [-> T]]]].
    + exists [], g. split; [reflexivity|]. now apply str_eqb_eq.
    + exists (g :: pre'), g'. now split.
Qed.

Lemma iteration_view_shape (lx : Lexer) (ln : nat) (rem : str) :
  Forall scanned_kind (fst (iteration_view lx ln rem)) /\
  Forall (fun t => type t = TOKEN_EXPRESSION -> value t <> [])
    (fst (iteration_view lx ln rem)) /\
  expressions_follow_tags false (fst (iteration_view lx ln rem)).
Proof.
  unfold iteration_view, statement_view, tag_view, literal_view,
    expression_tokens, scanned_kind.
  repeat match goal with
         | |- context [if ?b then _ else _] => destruct b
         | |- context [match strings.strip ?v with _ => _ end] =>
             destruct (strings.strip v)
         end;
    cbn [fst app expressions_follow_tags type value];
    (split; [repeat constructor; tauto|]);
    (split; [repeat constructor; discriminate|]);
    repeat split; try discriminate; reflexivity.
Qed.

Lemma while_loop_shape (lx : Lexer) (fuel : nat) :
  forall (tokens tokens' : stream_t) (st st' : State),
    in_range st ->
    Forall scanned_kind tokens /\
    Forall (fun t => type t = TOKEN_EXPRESSION -> value t <> []) tokens /\
    expressions_follow_tags false tokens ->
    while_loop fuel lx tokens st = Returned (tokens', st') ->
    Forall scanned_kind tokens' /\
    Forall (fun t => type t = TOKEN_EXPRESSION -> value t <> []) tokens' /\
    expressions_follow_tags false tokens'.
Proof.
  induction fuel as [|fuel IH]; intros tokens tokens' st st' Hr Ht H;
    [discriminate|].
  cbn [while_loop] in H. unfold End in H.
  destruct (it_ st =? List.length (source_ st)).
  - now injection H as <- <-.
  - destruct (iteration_agrees lx st Hr) as [st1 [E [_ [R _]]]].
    rewrite E in H. apply (IH _ _ _ _ R) in H; [exact H|].
    destruct Ht as [T1 [T2 T3]].
    destruct (iteration_view_shape lx (linenum_ st) (remaining st))
      as [V1 [V2 V3]].
    split; [now apply Forall_app|]. split; [now apply Forall_app|].
    now apply expressions_follow_tags_app.
Qed.

(** X10. The stream Tokenize returns, with any delimiters, is made of
    Statement, Tag, Expression and Literal tokens followed by one
    end-of-input token, which has the empty text and the line number of
    the end of the source; no Illegal token and no other end-of-input
    token occurs; and every Expression token has a text that is not empty
    and comes right after a Tag token. *)
Theorem Tokenize_stream_shape (lx : Lexer) (fuel : nat) (source : str)
        (toks : stream_t)
        (H : Tokenize fuel lx source = Returned toks) :
  exists tokens : stream_t,
    toks = tokens ++ [mkToken (1 + count newline source) TOKEN_EOF ""] /\
    Forall scanned_kind tokens /\
    (forall pre t post,
        tokens = pre ++ t :: post ->
        type t = TOKEN_EXPRESSION ->
        value t <> [] /\
        exists pre' g, pre = pre' ++ [g] /\ type g = TOKEN_TAG).
Proof.
  destruct (Tokenize_returned lx fuel source toks H)
    as [tokens [st' [W [-> _]]]].
  exists tokens. split; [reflexivity|].
  destruct (while_loop_shape lx fuel [] tokens (State_new source) st')
    as [S1 [S2 S3]];
    [apply cursor_inv_new | repeat split; constructor | exact W |].
  split; [exact S1|].
  intros pre t post E T. split.
  - rewrite Forall_forall in S2. apply S2; [|exact T].
    rewrite E. apply in_or_app. right. now left.
  - rewrite E in S3.
    destruct (expressions_follow_tags_split _ _ _ _ S3 T) as [[_ F]|P];
      [discriminate | exact P].
Qed.

Lemma Tokenize_stream_shape_witness :
  let toks := [mkToken 1 TOKEN_LITERAL "a";
               mkToken 1 TOKEN_TAG "if";
               mkToken 1 TOKEN_EXPRESSION "x";
               mkToken 1 TOKEN_EOF ""] in
  exists tokens : stream_t,
    toks = tokens ++ [mkToken (1 + count newline (lit "a{% if x %}")) TOKEN_EOF ""] /\
    Forall scanned_kind tokens /\
    (forall pre t post,
        tokens = pre ++ t :: post ->
        type t = TOKEN_EXPRESSION ->
        value t <> [] /\
        exists pre' g, pre = pre' ++ [g] /\ type g = TOKEN_TAG).
Proof.
  intros toks.
  apply (Tokenize_stream_shape Lexer_default 3 (lit "a{% if x %}") toks).
  vm_compute. reflexivity.
Defined.

(** ** The text of the tokens *)

(** X11. With the name pattern both constructors install, the name of the
    Tag token the tag branch pushes holds no white space character and no
    closing delimiter of a tag. *)
Theorem tag_name_is_one_word (lx : Lexer) (st : State)
        (Hr : in_range st) (Hp : re_name_end_ lx = pat_name_end) :
  exists (ln : nat) (name : str) (more : stream_t) (st' : State),
    tag_branch lx st = Some (mkToken ln TOKEN_TAG name :: more, st') /\
    (forall c, In c name -> isspace c = false) /\
    (forall a b, name <> a ++ lit "%}" ++ b).
Proof.
  destruct (tag_branch_view lx st Hr) as [st' [E _]].
  unfold tag_view in E. rewrite Hp in E.
  set (rem1 := skipn (List.length (anchored_text (re_tag_start_ lx) (remaining st)))
                 (remaining st)) in *.
  set (name := until_text pat_name_end rem1) in *.
  destruct (until_text_split pat_name_end rem1) as [rest Es]. fold name in Es.
  pose proof (until_text_free pat_name_end rem1) as Free. fold name in Free.
  assert (P : (forall c, In c name -> isspace c = false) /\
              (forall a b, name <> a ++ lit "%}" ++ b)).
  { split.
    - intros c Hc. destruct (isspace c) eqn:Ec; [|reflexivity]. exfalso.
      apply in_split in Hc. destruct Hc as [a [b Hn]].
      apply (Free (List.length a) [c] (b ++ rest)).
      + rewrite Hn, length_app. simpl. lia.
      + rewrite Es, Hn, <- app_assoc. apply skipn_length_app.
      + apply matches_alt_l. now constructor.
    - intros a b Hn.
      apply (Free (List.length a) (lit "%}") (b ++ rest)).
      + rewrite Hn, !length_app. simpl. lia.
      + rewrite Es, Hn, <- !app_assoc. apply skipn_length_app.
      + apply matches_alt_r. cbn [seq fold_right].
        change (lit "%}") with ([] ++ ["%"%char] ++ ["}"%char] ++ []).
        repeat constructor. }
  destruct (str_eqb name "raw"); cbn [fst] in E.
  - eexists _, name, _, st'. split; [rewrite E, <- app_comm_cons; reflexivity|].
    exact P.
  - eexists _, name, _, st'. split; [exact E | exact P].
Qed.

Lemma tag_name_is_one_word_witness :
  let st := mkState "{% endif%}" 0 1 in
  exists (ln : nat) (name : str) (more : stream_t) (st' : State),
    tag_branch (Lexer_new "<<" ">>" "{%" "%}") st =
      Some (mkToken ln TOKEN_TAG name :: more, st') /\
    (forall c, In c name -> isspace c = false) /\
    (forall a b, name <> a ++ lit "%}" ++ b).
Proof.
  intros st. apply (tag_name_is_one_word (Lexer_new "<<" ">>" "{%" "%}") st).
  - unfold in_range. simpl. lia.
  - reflexivity.
Defined.

Lemma back_app_last (s : str) (c : ascii) : back (s ++ [c]) = Some c.
Proof. unfold back. now rewrite rev_app_distr. Qed.

(** The match of the literal-end pattern at an opening delimiter takes the
    trim marker when there is one. *)
Lemma pat_literal_end_match (b : ascii) (s : str) :
  b = "{"%char \/ b = "%"%char ->
  match_here pat_literal_end ("{"%char :: b :: s) =
  Some (if starts_with "-" s then 3 else 2).
Proof.
  intros Hb. unfold match_here, pat_literal_end. cbn [seq fold_right].
  run_steps. rewrite Ascii.eqb_refl. run_steps.
  assert (Ex : existsb (Ascii.eqb b) ["{"%char; "%"%char] = true)
    by (destruct Hb as [->| ->]; reflexivity).
  rewrite Ex. run_steps.
  destruct s as [|a s]; [reflexivity|]. run_steps.
  change (starts_with "-" (a :: s)) with (Ascii.eqb "-" a && true).
  rewrite andb_true_r, (Ascii.eqb_sym "-"%char a).
  destruct (Ascii.eqb a "-"); run_steps; unfold orelse;
    cbn [List.length]; f_equal; lia.
Qed.

(** X12. With the literal-end pattern both constructors install, and an
    opening delimiter somewhere ahead, the literal branch pushes one
    Literal token with the line number of the cursor.  The text it
    consumes holds no start of an opening delimiter and runs to the next
    one; the text of the token is the consumed text, without the line
    feeds, spaces, tabs and carriage returns at its right end when the
    opening delimiter that follows carries a trim marker, and whole
    otherwise. *)
Theorem literal_token_text (lx : Lexer) (st : State)
        (Hr : in_range st) (Hf : fits_int (source_ st))
        (Hp : re_literal_end_ lx = pat_literal_end)
        (Hd : exists q,
            starts_with "{{" (skipn q (remaining st)) = true \/
            starts_with "{%" (skipn q (remaining st)) = true) :
  exists (v r : str) (st' : State),
    literal_branch lx st =
      Some ([mkToken (linenum_ st) TOKEN_LITERAL v], st') /\
    remaining st = v ++ r ++ remaining st' /\
    (forall q, q < List.length (v ++ r) ->
               starts_with "{{" (skipn q (remaining st)) = false /\
               starts_with "{%" (skipn q (remaining st)) = false) /\
    (starts_with "{{" (remaining st') = true \/
     starts_with "{%" (remaining st') = true) /\
    (starts_with "{{-" (remaining st') = true \/
     starts_with "{%-" (remaining st') = true ->
     v = strings.rstrip (v ++ r) /\
     Forall stripped_char r /\ unstripped_behind v) /\
    (starts_with "{{-" (remaining st') = false ->
     starts_with "{%-" (remaining st') = false ->
     r = []).
Proof.
  destruct (literal_branch_view lx st Hr) as [st' [E [_ [_ S]]]].
  unfold literal_view in E, S. rewrite Hp in E, S. cbn [fst snd] in E, S.
  set (rem := remaining st) in *.
  pose proof (until_text_free pat_literal_end rem) as Free.
  assert (NoStart :
            forall q, q < List.length (until_text pat_literal_end rem) ->
                      starts_with "{{" (skipn q rem) = false /\
                      starts_with "{%" (skipn q rem) = false).
  { intros q Hq.
    split;
      match goal with
      | |- ?e = false => destruct e eqn:Es; [exfalso | reflexivity]
      end;
      apply starts_with_app in Es; destruct Es as [rest Es];
      apply (Free q _ rest Hq Es); apply pat_literal_end_words;
      eexists _, []; repeat split; solve [now left | now right]. }
  destruct (until_text_cases pat_literal_end rem)
    as [[N [U Hnone]]|[pre [m0 [rest [F [U [Es [Hm _]]]]]]]].
  - exfalso. destruct Hd as [q Hq].
    exact (pat_literal_end_at (skipn q rem) Hq (Hnone q)).
  - rewrite F in E. rewrite U in *.
    rewrite Es in S. apply app_inv_head in S.
    pose proof Hm as Hm'. apply match_here_sound in Hm'.
    destruct Hm' as [w [rest' [Ew [M L]]]].
    destruct (same_length_prefix _ _ _ _ Ew L) as [<- <-].
    apply pat_literal_end_words in M. destruct M as [b [d [Em0 [Hb Hdash]]]].
    assert (Start : starts_with "{{" (remaining st') = true \/
                    starts_with "{%" (remaining st') = true).
    { rewrite <- S, Em0. destruct Hb as [->| ->]; [left | right]; reflexivity. }
    rewrite Em0 in Hm. simpl app in Hm.
    rewrite (pat_literal_end_match b (d ++ rest) Hb) in Hm.
    destruct Hdash as [->| ->].
    + (* no trim marker in the match *)
      cbn [app List.length] in Hm.
      destruct (starts_with "-" rest) eqn:D; [discriminate|].
      assert (T : trim_marked (found pre m0) = Some false).
      { rewrite Em0. unfold trim_marked. cbn [str0].
        change ["{"%char; b] with (["{"%char] ++ [b]).
        rewrite back_app_last. f_equal.
        destruct Hb as [->| ->]; reflexivity. }
      rewrite T in E. exists pre, [], st'. rewrite app_nil_r.
      split; [exact E|]. split; [now rewrite Es, <- S|].
      split; [exact NoStart|]. split; [exact Start|].
      assert (ND : starts_with "{{-" (remaining st') = false /\
                   starts_with "{%-" (remaining st') = false).
      { rewrite <- S, Em0. simpl app.
        destruct rest as [|a rest]; [destruct Hb as [->| ->]; now split|].
        change (starts_with "-" (a :: rest)) with (Ascii.eqb "-" a && true) in D.
        rewrite andb_true_r in D.
        destruct Hb as [->| ->]; cbn [starts_with lit list_ascii_of_string];
          rewrite ?Ascii.eqb_refl, D; now split. }
      split; [intros [H|H]; destruct ND; congruence | reflexivity].
    + (* the match ends with the trim marker *)
      assert (T : trim_marked (found pre m0) = Some true).
      { rewrite Em0. unfold trim_marked. cbn [str0].
        change ("{"%char :: b :: ["-"%char]) with (["{"%char; b] ++ ["-"%char]).
        now rewrite back_app_last. }
      rewrite T in E.
      destruct (rstrip_spec pre) as [r [Er [Hr' Hb']]].
      exists (strings.rstrip pre), r, st'. rewrite <- Er.
      split; [exact E|].
      split; [now rewrite app_assoc, <- Er, Es, <- S|].
      split; [exact NoStart|]. split; [exact Start|].
      split.
      { intros _. split; [reflexivity|].
        split; [now apply all_blank_stripped|].
        now apply no_blank_ahead_unstripped. }
      intros H1 H2. exfalso. rewrite <- S, Em0 in H1, H2.
      destruct Hb as [->| ->]; [discriminate H1 | discriminate H2].
Qed.

Lemma literal_token_text_witness :
  let st := mkState "ab
  {%- if x %}" 0 1 in
  literal_branch Lexer_default st =
    Some ([mkToken 1 TOKEN_LITERAL "ab"], mkState "ab
  {%- if x %}" 5 2) /\
  exists (v r : str) (st' : State),
    literal_branch Lexer_default st =
      Some ([mkToken (linenum_ st) TOKEN_LITERAL v], st') /\
    remaining st = v ++ r ++ remaining st' /\
    (forall q, q < List.length (v ++ r) ->
               starts_with "{{" (skipn q (remaining st)) = false /\
               starts_with "{%" (skipn q (remaining st)) = false) /\
    (starts_with "{{" (remaining st') = true \/
     starts_with "{%" (remaining st') = true) /\
    (starts_with "{{-" (remaining st') = true \/
     starts_with "{%-" (remaining st') = true ->
     v = strings.rstrip (v ++ r) /\
     Forall stripped_char r /\ unstripped_behind v) /\
    (starts_with "{{-" (remaining st') = false ->
     starts_with "{%-" (remaining st') = false ->
     r = []).
Proof.
  intros st. split; [vm_compute; reflexivity|].
  apply (literal_token_text Lexer_default st).
  - unfold in_range. simpl. lia.
  - vm_compute. reflexivity.
  - reflexivity.
  - exists 5. right. reflexivity.
Defined.

(** ** Statements and tags that are not closed *)

Lemma at_end_of_length (st st' : State) (consumed : str) :
  in_range st' ->
  remaining st = consumed ++ remaining st' ->
  List.length (remaining st) <= List.length consumed ->
  End st' = Some (true, st') /\ remaining st = consumed.
Proof.
  intros R S L.
  assert (Z : remaining st' = []).
  { apply (f_equal (@List.length ascii)) in S. rewrite length_app in S.
    destruct (remaining st'); [reflexivity | simpl in S; lia]. }
  split; [|now rewrite S, Z, app_nil_r].
  apply (f_equal (@List.length ascii)) in Z.
  rewrite in_range_remaining in Z by exact R.
  unfold End. do 2 f_equal. apply Nat.eqb_eq.
  unfold in_range in R. simpl in Z. lia.
Qed.

(** When a search from the cursor fails, [ReadUntil] returns every tail
    of the text ahead whole. *)
Lemma until_text_tail (pattern : regex) (s : str) (n : nat) :
  regex_search pattern s = no_match ->
  until_text pattern (skipn n s) = skipn n s.
Proof.
  intros Hno. pose proof (regex_search_no_match pattern s Hno) as N.
  destruct (until_text_cases pattern (skipn n s))
    as [[_ [U _]]|[pre [m0 [rest [_ [_ [Es [Hm _]]]]]]]]; [exact U|].
  specialize (N (n + List.length pre)).
  rewrite <- skipn_skipn_add, Es, skipn_length_app in N. congruence.
Qed.

(** X13. With the default delimiters, a statement for which the search of
    the closing pattern fails has as its text the whole rest of the
    source after the opening delimiter, its trim marker if any and all
    the white space that follows, and the turn leaves the cursor at the
    end of the source; a tag for which the search of the closing pattern
    fails leaves the cursor at the end as well.  Nothing is raised. *)
Theorem unterminated_runs_to_end (st : State)
        (Hr : in_range st) (Hf : fits_int (source_ st)) :
  (starts_with "{{" (remaining st) = true ->
   regex_search (re_statement_end_ Lexer_default) (remaining st) = no_match ->
   exists (ln : nat) (d ws v : str) (st' : State),
     iteration Lexer_default st =
       Some ([mkToken ln TOKEN_STATEMENT v], st') /\
     remaining st = lit "{{" ++ d ++ ws ++ v /\
     dash_or_empty d /\ all_space ws /\
     (d = [] -> starts_with "{{-" (remaining st) = false) /\
     no_space_ahead v /\
     End st' = Some (true, st')) /\
  (starts_with "{{" (remaining st) = false ->
   starts_with "{%" (remaining st) = true ->
   regex_search (re_tag_end_ Lexer_default) (remaining st) = no_match ->
   exists (ln : nat) (name : str) (more : stream_t) (st' : State),
     iteration Lexer_default st =
       Some (mkToken ln TOKEN_TAG name :: more, st') /\
     End st' = Some (true, st')).
Proof.
  destruct (iteration_agrees Lexer_default st Hr) as [st' [E [_ [R S]]]].
  unfold iteration_view in E, S.
  change (statement_start_ Lexer_default) with (lit "{{") in E, S.
  change (tag_start_ Lexer_default) with (lit "{%") in E, S.
  set (rem := remaining st) in *.
  split.
  - intros H1 Hno. rewrite H1 in E, S.
    unfold statement_view in E, S. cbn [fst snd] in E, S.
    set (v1 := anchored_text (re_statement_start_ Lexer_default) rem) in *.
    rewrite (until_text_tail _ rem (List.length v1) Hno) in E, S.
    rewrite skipn_all, eaten_nil, app_nil_r in S.
    destruct (at_end_of_length st st' _ R S) as [HE Hrem].
    { fold rem. rewrite length_app, length_skipn. lia. }
    fold rem in Hrem.
    apply starts_with_app in H1. destruct H1 as [body Hb].
    change (lit "{{" ++ body) with ("{"%char :: "{"%char :: body) in Hb.
    destruct (pat_open_read "{" body) as [d [ws [O1 [O2 [Hd [Hw Hdash]]]]]].
    assert (V1 : v1 = "{"%char :: "{"%char :: d ++ ws)
      by (unfold v1; rewrite Hb; exact O1).
    assert (V : skipn (List.length v1) rem = skip_spaces (skip_dash body)).
    { rewrite V1, Hb. rewrite O2 at 1.
      replace ("{"%char :: "{"%char :: d ++ ws ++ skip_spaces (skip_dash body))
        with (("{"%char :: "{"%char :: d ++ ws) ++ skip_spaces (skip_dash body))
        by (simpl; now rewrite <- app_assoc).
      apply skipn_length_app. }
    rewrite V in E, Hrem.
    eexists _, d, ws, (skip_spaces (skip_dash body)), st'.
    split; [exact E|].
    split; [rewrite Hrem, V1; simpl; now rewrite <- app_assoc|].
    split; [exact Hd|]. split; [exact Hw|].
    split; [|split; [apply skip_spaces_no_space | exact HE]].
    intros Z. rewrite Hb. specialize (Hdash Z).
    destruct body as [|x body]; [reflexivity|].
    cbn [starts_with lit list_ascii_of_string] in Hdash |- *.
    rewrite !Ascii.eqb_refl. exact Hdash.
  - intros H1 H2 Hno. rewrite H1, H2 in E, S.
    unfold tag_view in E, S.
    set (v1 := anchored_text (re_tag_start_ Lexer_default) rem) in *.
    set (name := until_text (re_name_end_ Lexer_default)
                   (skipn (List.length v1) rem)) in *.
    assert (U : until_text (re_tag_end_ Lexer_default)
                  (skipn (List.length name) (skipn (List.length v1) rem)) =
                skipn (List.length name) (skipn (List.length v1) rem)).
    { rewrite skipn_skipn_add. now apply until_text_tail. }
    rewrite U in E, S.
    assert (L : List.length rem <=
                List.length (v1 ++ name ++
                             skipn (List.length name)
                               (skipn (List.length v1) rem)))
      by (rewrite !length_app, !length_skipn; lia).
    destruct (str_eqb name "raw"); cbn [fst snd] in E, S.
    + destruct (at_end_of_length st st' _ R S) as [HE _].
      { fold rem. rewrite !length_app in *. lia. }
      eexists _, name, _, st'.
      split; [rewrite E, <- app_comm_cons; reflexivity | exact HE].
    + destruct (at_end_of_length st st' _ R S) as [HE _].
      { fold rem. rewrite !length_app in *. lia. }
      eexists _, name, _, st'. split; [exact E | exact HE].
Qed.

Lemma unterminated_runs_to_end_witness :
  let st := mkState "x{{-  y } z" 1 1 in
  iteration Lexer_default st =
    Some ([mkToken 1 TOKEN_STATEMENT "y } z"], mkState "x{{-  y } z" 11 1) /\
  exists (ln : nat) (d ws v : str) (st' : State),
    iteration Lexer_default st =
      Some ([mkToken ln TOKEN_STATEMENT v], st') /\
    remaining st = lit "{{" ++ d ++ ws ++ v /\
    dash_or_empty d /\ all_space ws /\
    (d = [] -> starts_with "{{-" (remaining st) = false) /\
    no_space_ahead v /\
    End st' = Some (true, st').
Proof.
  intros st. split; [vm_compute; reflexivity|].
  assert (Hr : in_range st) by (unfold in_range; simpl; lia).
  assert (Hf : fits_int (source_ st)) by (vm_compute; reflexivity).
  apply (proj1 (unterminated_runs_to_end st Hr Hf)).
  - reflexivity.
  - vm_compute. reflexivity.
Defined.

(** ** The delimiters the lexer is built with *)

Lemma while_loop_end_delimiters (a b b' c d d' : str) (fuel : nat) :
  forall (tokens : stream_t) (st : State),
    while_loop fuel (Lexer_new a b c d) tokens st =
    while_loop fuel (Lexer_new a b' c d') tokens st.
Proof.
  induction fuel as [|fuel IH]; intros tokens st; [reflexivity|].
  cbn [while_loop]. destruct (End st) as [[[|] st1]|]; try reflexivity.
  change (iteration (Lexer_new a b' c d') st1)
    with (iteration (Lexer_new a b c d) st1).
  destruct (iteration (Lexer_new a b c d) st1) as [[pushed st2]|];
    [apply IH | reflexivity].
Qed.

(** X14. The closing delimiters given to the constructor are never read:
    two lexers built with the same opening delimiters return the same
    result on every source, whatever their closing delimiters. *)
Theorem end_delimiters_unused (a b b' c d d' : str) (fuel : nat)
        (source : str) :
  Tokenize fuel (Lexer_new a b c d) source =
  Tokenize fuel (Lexer_new a b' c d') source.
Proof.
  unfold Tokenize. now rewrite (while_loop_end_delimiters a b b' c d d').
Qed.

(** ** The size of the stream *)

Lemma iteration_view_length (lx : Lexer) (ln : nat) (rem : str) :
  List.length (fst (iteration_view lx ln rem)) <= 3.
Proof.
  unfold iteration_view, statement_view, tag_view, literal_view,
    expression_tokens.
  repeat match goal with
         | |- context [if ?b then _ else _] => destruct b
         | |- context [match strings.strip ?v with _ => _ end] =>
             destruct (strings.strip v)
         end;
    cbn [fst app List.length]; lia.
Qed.

Lemma while_loop_size (fuel : nat) :
  forall (tokens : stream_t) (st : State),
    in_range st ->
    List.length (source_ st) - it_ st < fuel ->
    exists tokens' st',
      while_loop fuel Lexer_default tokens st = Returned (tokens', st') /\
      List.length tokens' <=
      List.length tokens + 3 * (List.length (source_ st) - it_ st).
Proof.
  induction fuel as [|fuel IH]; intros tokens st Hr Hf; [lia|].
  cbn [while_loop]. unfold End.
  destruct (it_ st =? List.length (source_ st)) eqn:HE.
  - exists tokens, st. split; [reflexivity | lia].
  - destruct (iteration_agrees Lexer_default st Hr) as [st1 [E [A [R1 S1]]]].
    rewrite E.
    pose proof (iteration_view_progress (linenum_ st) (remaining st)
                  (End_false_remaining st Hr HE)) as P.
    pose proof (iteration_view_length Lexer_default (linenum_ st)
                  (remaining st)) as L.
    set (pushed := fst (iteration_view Lexer_default (linenum_ st)
                          (remaining st))) in *.
    set (consumed := snd (iteration_view Lexer_default (linenum_ st)
                            (remaining st))) in *.
    assert (Hit : it_ st1 = it_ st + List.length consumed)
      by (rewrite A; reflexivity).
    assert (Hsrc : source_ st1 = source_ st) by (rewrite A; reflexivity).
    pose proof R1 as R1'. unfold in_range in R1', Hr.
    apply Nat.eqb_neq in HE.
    destruct (IH (tokens ++ pushed) st1 R1) as [tokens' [st' [W B]]];
      [rewrite Hsrc, Hit; lia|].
    exists tokens', st'. split; [exact W|].
    rewrite length_app, Hsrc, Hit in B. rewrite Hsrc, Hit in R1'. lia.
Qed.

(** X15. With the default delimiters and a source of less than 2^31
    characters, Tokenize returns with one turn per character and the last
    test, and the stream it returns has at most three tokens for each
    character of the source, and the end-of-input token. *)
Theorem Tokenize_stream_size (source : str) (Hf : fits_int source) :
  exists toks : stream_t,
    Tokenize (S (List.length source)) Lexer_default source = Returned toks /\
    List.length toks <= 3 * List.length source + 1.
Proof.
  destruct (while_loop_size (S (List.length source)) [] (State_new source))
    as [tokens [st' [W B]]];
    [apply cursor_inv_new | simpl; lia |].
  unfold Tokenize. rewrite W. unfold State_linenum. eexists.
  split; [reflexivity|].
  rewrite length_app. simpl in *. lia.
Qed.

Lemma Tokenize_stream_size_witness :
  fits_int (lit "{%raw x%}") /\
  exists toks : stream_t,
    Tokenize (S (List.length (lit "{%raw x%}"))) Lexer_default "{%raw x%}" =
      Returned toks /\
    List.length toks <= 3 * List.length (lit "{%raw x%}") + 1.
Proof.
  assert (Hf : fits_int (lit "{%raw x%}")) by (vm_compute; reflexivity).
  split; [exact Hf|]. apply (Tokenize_stream_size "{%raw x%}" Hf).
Defined.

(** ** The lines of the tokens *)

(** X16. With the patterns the constructors install, the Tag token of a
    tag carries the line on which the tag name starts: 1 plus the number
    of newline characters of the source before the name, that is, before
    the position after the opening delimiter, its trim marker if any and
    the white space that follows.  An Expression token of the same tag
    carries the same line number, also when the text of the expression
    starts on a later line. *)
Theorem expression_line_is_tag_line (lx : Lexer) (st : State) (body : str)
        (Hs : re_tag_start_ lx = pat_tag_start)
        (Hn : re_name_end_ lx = pat_name_end)
        (He : re_tag_end_ lx = pat_tag_end)
        (Hi : cursor_inv st) (Hf : fits_int (source_ st))
        (Hrem : remaining st = lit "{%" ++ body) :
  exists (ln : nat) (d ws name rest : str) (more : stream_t) (st' : State),
    tag_branch lx st = Some (mkToken ln TOKEN_TAG name :: more, st') /\
    body = d ++ ws ++ name ++ rest /\
    dash_or_empty d /\ all_space ws /\
    (d = [] -> starts_with "-" body = false) /\
    no_space_ahead (name ++ rest) /\
    up_to_first name_end name rest /\
    ln = 1 + count newline
               (firstn (it_ st + 2 + List.length (d ++ ws)) (source_ st)) /\
    (forall t, In t more -> type t = TOKEN_EXPRESSION -> linenum t = ln).
Proof.
  destruct Hi as [Hr Hl].
  destruct (tag_branch_text lx st body Hs Hn He Hr Hrem)
    as (d & ws & name & v & t & trail & raw & st' & E & B & _ & _ & Hd & Hw &
        Hdash & N1 & U2 & _).
  exists (linenum_ st + count newline (d ++ ws)), d, ws, name,
    (v ++ t ++ trail ++ raw ++ remaining st').
  eexists _, st'. split; [exact E|]. split; [exact B|].
  split; [exact Hd|]. split; [exact Hw|]. split; [exact Hdash|].
  split; [exact N1|]. split; [exact U2|]. split.
  - replace (it_ st + 2 + List.length (d ++ ws))
      with (it_ st + (2 + List.length (d ++ ws))) by lia.
    rewrite Hl, firstn_add_skipn, count_app.
    fold (remaining st). rewrite Hrem, B.
    replace (lit "{%" ++ d ++ ws ++ name ++ v ++ t ++ trail ++ raw ++
             remaining st')
      with ((lit "{%" ++ d ++ ws) ++ name ++ v ++ t ++ trail ++ raw ++
            remaining st')
      by (now rewrite <- !app_assoc).
    rewrite firstn_app_exact by (rewrite !length_app; reflexivity).
    rewrite !count_app. change (count newline (lit "{%")) with 0. lia.
  - intros tk Hin Ht. apply in_app_or in Hin. destruct Hin as [Hin|Hin].
    + unfold expression_tokens in Hin.
      destruct (strings.strip v); [contradiction|].
      destruct Hin as [<-|[]]. reflexivity.
    + destruct (str_eqb name "raw"); [|contradiction].
      destruct Hin as [<-|[]]. discriminate Ht.
Qed.

Lemma expression_line_is_tag_line_witness :
  let st := mkState "a
{% if

 x %}" 2 2 in
  tag_branch Lexer_default st =
    Some ([mkToken 2 TOKEN_TAG "if"; mkToken 2 TOKEN_EXPRESSION "x"],
          mkState "a
{% if

 x %}" 14 4) /\
  exists (ln : nat) (d ws name rest : str) (more : stream_t) (st' : State),
    tag_branch Lexer_default st =
      Some (mkToken ln TOKEN_TAG name :: more, st') /\
    lit " if

 x %}" = d ++ ws ++ name ++ rest /\
    dash_or_empty d /\ all_space ws /\
    (d = [] -> starts_with "-" (lit " if

 x %}") = false) /\
    no_space_ahead (name ++ rest) /\
    up_to_first name_end name rest /\
    ln = 1 + count newline
               (firstn (it_ st + 2 + List.length (d ++ ws)) (source_ st)) /\
    (forall t, In t more -> type t = TOKEN_EXPRESSION -> linenum t = ln).
Proof.
  intros st. split; [vm_compute; reflexivity|].
  apply (expression_line_is_tag_line Lexer_default st (lit " if

 x %}")).
  - reflexivity.
  - reflexivity.
  - reflexivity.
  - split; [unfold in_range; simpl; lia | reflexivity].
  - vm_compute. reflexivity.
  - reflexivity.
Defined.

(** ** Where ReadUntil stops *)

(** X17. ReadUntil returns the text up to the leftmost position at which
    the pattern matches: no word of the pattern starts inside the text it
    returns, and the cursor is left in front of a word of the pattern,
    which is the text of the match, or at the end of the source when the
    pattern matches nowhere ahead. *)
Theorem ReadUntil_stops_at_first_match (pattern : regex) (st : State)
        (Hr : in_range st) :
  exists (v : str) (m : smatch) (st' : State),
    ReadUntil pattern st = Some ((v, m), st') /\
    remaining st = v ++ remaining st' /\
    (forall q w r,
        q < List.length v ->
        skipn q (remaining st) = w ++ r ->
        ~ matches pattern w) /\
    ((matched m = true /\
      matches pattern (str0 m) /\
      exists rest, remaining st' = str0 m ++ rest) \/
     (matched m = false /\
      End st' = Some (true, st') /\
      forall q w r, skipn q (remaining st) = w ++ r -> ~ matches pattern w)).
Proof.
  destruct (ReadUntil_spec pattern st Hr) as [st' [E [_ [R S]]]].
  exists (until_text pattern (remaining st)),
    (regex_search pattern (remaining st)), st'.
  split; [exact E|]. split; [exact S|].
  split; [apply until_text_free|].
  destruct (until_text_cases pattern (remaining st))
    as [[N [U Hq]]|[pre [m0 [rest [F [U [Es [Hm _]]]]]]]].
  - right. rewrite N. split; [reflexivity|]. split.
    + rewrite U in S.
      destruct (at_end_of_length st st' (remaining st) R S) as [HE _];
        [lia | exact HE].
    + intros q w r Eq M. apply (match_here_complete _ _ r) in M.
      rewrite <- Eq in M. now apply M.
  - left. rewrite F. cbn [matched str0]. split; [reflexivity|].
    rewrite U, Es in S. apply app_inv_head in S.
    apply match_here_sound in Hm. destruct Hm as [w [rest' [Ew [M L]]]].
    destruct (same_length_prefix _ _ _ _ Ew L) as [<- <-].
    split; [exact M | now exists rest].
Qed.

Lemma ReadUntil_stops_at_first_match_witness :
  let st := mkState "{% if  x %}" 3 1 in
  exists (v : str) (m : smatch) (st' : State),
    ReadUntil pat_name_end st = Some ((v, m), st') /\
    remaining st = v ++ remaining st' /\
    (forall q w r,
        q < List.length v ->
        skipn q (remaining st) = w ++ r ->
        ~ matches pat_name_end w) /\
    ((matched m = true /\
      matches pat_name_end (str0 m) /\
      exists rest, remaining st' = str0 m ++ rest) \/
     (matched m = false /\
      End st' = Some (true, st') /\
      forall q w r,
        skipn q (remaining st) = w ++ r -> ~ matches pat_name_end w)).
Proof.
  intros st. apply (ReadUntil_stops_at_first_match pat_name_end st).
  unfold in_range. simpl. lia.
Defined.

(** X18. With the tag-end pattern both constructors install, the text of
    an Expression token holds no closing delimiter of a tag. *)
Theorem tag_expression_holds_no_closing (lx : Lexer) (st st' : State)
        (pushed : stream_t)
        (Hr : in_range st) (Hp : re_tag_end_ lx = pat_tag_end)
        (E : tag_branch lx st = Some (pushed, st')) :
  forall t,
    In t pushed -> type t = TOKEN_EXPRESSION ->
    forall a b, value t <> a ++ lit "%}" ++ b.
Proof.
  destruct (tag_branch_view lx st Hr) as [st1 [E1 _]].
  rewrite E in E1. injection E1 as -> _.
  unfold tag_view. rewrite Hp.
  set (name := until_text (re_name_end_ lx) _).
  set (rem2 := skipn (List.length name) _).
  set (v := until_text pat_tag_end rem2).
  assert (X : forall t ln,
             In t (expression_tokens ln v) ->
             forall a b, value t <> a ++ lit "%}" ++ b).
  { intros t ln Ht a b Hv. unfold expression_tokens in Ht.
    destruct (strings.strip v) as [|c e] eqn:Es; [contradiction|].
    destruct Ht as [<-|[]]. cbn [value] in Hv.
    destruct (strip_spec v) as [l [r [Ev _]]]. rewrite Es, Hv in Ev.
    destruct (until_text_split pat_tag_end rem2) as [rest Er]. fold v in Er.
    apply (until_text_free pat_tag_end rem2
             (List.length (l ++ a)) (lit "%}") (b ++ r ++ rest)).
    - fold v. rewrite Ev, !length_app. simpl. lia.
    - rewrite Er, Ev, <- !app_assoc.
      rewrite (app_assoc l a), skipn_length_app. reflexivity.
    - apply pat_close_words. exists [], []. repeat split. now left. }
  intros t Ht Tt.
  destruct (str_eqb name "raw"); cbn [fst] in Ht.
  - rewrite <- app_comm_cons in Ht. destruct Ht as [<-|Ht]; [discriminate Tt|].
    apply in_app_or in Ht. destruct Ht as [Ht|[<-|[]]];
      [now apply (X t _ Ht) | discriminate Tt].
  - destruct Ht as [<-|Ht]; [discriminate Tt | now apply (X t _ Ht)].
Qed.

Lemma tag_expression_holds_no_closing_witness :
  value (mkToken 1 TOKEN_EXPRESSION "a % } b") <>
  lit "a % " ++ lit "%}" ++ lit " b".
Proof.
  apply (tag_expression_holds_no_closing Lexer_default
           (mkState "{% if a % } b %}" 0 1)
           (mkState "{% if a % } b %}" 16 1)
           [mkToken 1 TOKEN_TAG "if"; mkToken 1 TOKEN_EXPRESSION "a % } b"]).
  - unfold in_range. simpl. lia.
  - reflexivity.
  - vm_compute. reflexivity.
  - simpl. right. left. reflexivity.
  - reflexivity.
Defined.

(** ** The choice of the branch *)

Lemma starts_with_trans (a b c : str) :
  starts_with a b = true -> starts_with b c = true -> starts_with a c = true.
Proof.
  intros H1 H2. apply starts_with_app in H1, H2.
  destruct H1 as [r1 ->]. destruct H2 as [r2 ->].
  apply starts_with_app. exists (r1 ++ r2). now rewrite app_assoc.
Qed.

(** X19. A turn of the loop runs the statement branch when the opening
    delimiter of statements is at the cursor, else the tag branch when
    the opening delimiter of tags is, else the literal branch.  So a lexer
    whose opening delimiter of statements is a prefix of its opening
    delimiter of tags (the empty string, for one) never runs the tag
    branch. *)
Theorem branch_choice (lx : Lexer) (st : State) (Hr : in_range st) :
  (starts_with (statement_start_ lx) (remaining st) = true ->
   iteration lx st = statement_branch lx st) /\
  (starts_with (statement_start_ lx) (remaining st) = false ->
   starts_with (tag_start_ lx) (remaining st) = true ->
   iteration lx st = tag_branch lx st) /\
  (starts_with (statement_start_ lx) (remaining st) = false ->
   starts_with (tag_start_ lx) (remaining st) = false ->
   iteration lx st = literal_branch lx st) /\
  (starts_with (statement_start_ lx) (tag_start_ lx) = true ->
   iteration lx st = statement_branch lx st \/
   iteration lx st = literal_branch lx st).
Proof.
  assert (I : iteration lx st =
              if starts_with (statement_start_ lx) (remaining st)
              then statement_branch lx st
              else if starts_with (tag_start_ lx) (remaining st)
                   then tag_branch lx st
                   else literal_branch lx st).
  { unfold iteration, bind. rewrite At_eq by exact Hr.
    destruct (starts_with (statement_start_ lx) (remaining st));
      [reflexivity|].
    rewrite At_eq by exact Hr.
    now destruct (starts_with (tag_start_ lx) (remaining st)). }
  split; [|split; [|split]].
  - intros H. now rewrite I, H.
  - intros H1 H2. now rewrite I, H1, H2.
  - intros H1 H2. now rewrite I, H1, H2.
  - intros H. rewrite I.
    destruct (starts_with (statement_start_ lx) (remaining st)) eqn:H1;
      [now left|].
    destruct (starts_with (tag_start_ lx) (remaining st)) eqn:H2;
      [|now right].
    rewrite (starts_with_trans _ _ _ H H2) in H1. discriminate.
Qed.

Lemma branch_choice_witness :
  let lx := Lexer_new "{" "}" "{%" "%}" in
  let st := mkState "{% if x %}" 0 1 in
  iteration lx st = statement_branch lx st \/
  iteration lx st = literal_branch lx st.
Proof.
  intros lx st.
  assert (Hr : in_range st) by (unfold in_range; simpl; lia).
  apply (proj2 (proj2 (proj2 (branch_choice lx st Hr)))).
  reflexivity.
Defined.

(** ** When the loop advances *)

Lemma eaten_length (pattern : regex) (strip_tags : bool) (s : str) :
  List.length (anchored_text pattern s) <=
  List.length (eaten pattern strip_tags s).
Proof.
  unfold eaten.
  destruct (strip_tags || contains "-" (anchored_text pattern s));
    [rewrite length_app|]; lia.
Qed.

(** Reading up to a closing pattern and eating it consumes something of
    a text that is not empty. *)
Lemma closing_progress (c : ascii) (strip_tags : bool) (s : str) :
  s <> [] ->
  1 <= List.length (until_text (pat_close c) s) +
       List.length (eaten (pat_close c) strip_tags
                      (skipn (List.length (until_text (pat_close c) s)) s)).
Proof.
  intros Hne.
  destruct (until_text_cases (pat_close c) s)
    as [[_ [U _]]|[pre [m0 [rest [_ [U [Es [Hm _]]]]]]]].
  - rewrite U. destruct s; [contradiction | simpl; lia].
  - rewrite U. rewrite Es. rewrite skipn_length_app.
    pose proof (eaten_length (pat_close c) strip_tags (m0 ++ rest)) as L.
    rewrite (anchored_text_here _ _ _ Hm) in L.
    rewrite firstn_app_exact in L by reflexivity.
    apply match_here_sound in Hm. destruct Hm as [w [rest' [Ew [M Lw]]]].
    apply pat_close_words in M. destruct M as [ws [d [-> _]]].
    rewrite !length_app in Lw. simpl in Lw. lia.
Qed.

Lemma skipn_nil_length (n : nat) (s : str) :
  skipn n s = [] -> List.length s <= n.
Proof.
  intros H. apply (f_equal (@List.length ascii)) in H.
  rewrite length_skipn in H. simpl in H. lia.
Qed.

(** The text a turn of a lexer built by the constructor consumes is empty
    exactly when the turn stalls. *)
Lemma iteration_view_stall (a b c d : str) (ln : nat) (rem : str) :
  rem <> [] ->
  (snd (iteration_view (Lexer_new a b c d) ln rem) = [] <-> stalls a c rem).
Proof.
  intros Hne. unfold iteration_view, stalls.
  change (statement_start_ (Lexer_new a b c d)) with a.
  change (tag_start_ (Lexer_new a b c d)) with c.
  assert (Len : 1 <= List.length rem) by (destruct rem; [contradiction | simpl; lia]).
  destruct (starts_with a rem) eqn:Ha.
  - split; [|intros [H _]; discriminate].
    intros Z. exfalso. unfold statement_view in Z. cbn [snd] in Z.
    change (re_statement_end_ (Lexer_new a b c d)) with (pat_close "}") in Z.
    change (strip_tags_ (Lexer_new a b c d)) with false in Z.
    set (v1 := anchored_text _ rem) in Z.
    apply (f_equal (@List.length ascii)) in Z. rewrite !length_app in Z.
    destruct (skipn (List.length v1) rem) as [|x s1] eqn:Es.
    + apply skipn_nil_length in Es. simpl in Z. lia.
    + pose proof (closing_progress "}" false (x :: s1)
                    ltac:(discriminate)) as P.
      simpl in Z. simpl in P. lia.
  - destruct (starts_with c rem) eqn:Hc.
    + split; [|intros [_ [H _]]; discriminate].
      intros Z. exfalso. unfold tag_view in Z.
      change (re_tag_end_ (Lexer_new a b c d)) with (pat_close "%") in Z.
      change (strip_tags_ (Lexer_new a b c d)) with false in Z.
      set (v1 := anchored_text _ rem) in Z.
      set (name := until_text _ (skipn (List.length v1) rem)) in Z.
      assert (Z' : List.length
                     (v1 ++ name ++
                      until_text (pat_close "%")
                        (skipn (List.length name) (skipn (List.length v1) rem)) ++
                      eaten (pat_close "%") false
                        (skipn
                           (List.length
                              (until_text (pat_close "%")
                                 (skipn (List.length name)
                                    (skipn (List.length v1) rem))))
                           (skipn (List.length name)
                              (skipn (List.length v1) rem)))) = 0).
      { destruct (str_eqb name "raw"); cbn [snd] in Z;
          apply (f_equal (@List.length ascii)) in Z;
          rewrite !length_app in *; simpl in Z; lia. }
      rewrite !length_app in Z'.
      destruct (skipn (List.length name) (skipn (List.length v1) rem))
        as [|x s2] eqn:Es.
      * rewrite skipn_skipn_add in Es. apply skipn_nil_length in Es. lia.
      * pose proof (closing_progress "%" false (x :: s2)
                      ltac:(discriminate)) as P.
        simpl in Z'. simpl in P. lia.
    + unfold literal_view. cbn [snd].
      change (re_literal_end_ (Lexer_new a b c d)) with pat_literal_end.
      split.
      * intros Z. split; [reflexivity|]. split; [reflexivity|].
        destruct (until_text_cases pat_literal_end rem)
          as [[_ [U _]]|[pre [m0 [rest [_ [U [Es [Hm _]]]]]]]].
        -- rewrite U in Z. contradiction.
        -- rewrite U in Z. subst pre. simpl in Es. rewrite <- Es in Hm.
           now apply pat_literal_end_here in Hm.
      * intros [_ [_ Hs]]. apply pat_literal_end_at in Hs.
        destruct (until_text_cases pat_literal_end rem)
          as [[_ [_ N]]|[pre [m0 [rest [_ [U [_ [_ Hq]]]]]]]].
        -- specialize (N 0). simpl in N. contradiction.
        -- rewrite U. destruct pre as [|x pre]; [reflexivity|].
           specialize (Hq 0 ltac:(simpl; lia)). simpl in Hq. contradiction.
Qed.

Lemma while_loop_stuck (lx : Lexer) (st : State) (pushed : stream_t) :
  End st = Some (false, st) ->
  iteration lx st = Some (pushed, st) ->
  forall fuel tokens, while_loop fuel lx tokens st = OutOfFuel.
Proof.
  intros HE HI. induction fuel as [|fuel IH]; intros tokens; [reflexivity|].
  cbn [while_loop]. rewrite HE, HI. apply IH.
Qed.

(** X20. For a lexer built by the constructor and a source of less than
    2^31 characters, a turn of the loop before the end of the source never
    moves the iterator back, and it leaves the iterator where it is
    exactly when neither of the lexer's opening delimiters is at the
    cursor while the opening of a statement or of a tag, as the patterns
    have them, is.  In that case the cursor is unchanged as a whole and
    the loop does not end, with any number of turns. *)
Theorem loop_stalls_exactly_at_unrecognised_opening
        (a b c d : str) (st : State)
        (Hr : in_range st) (Hf : fits_int (source_ st))
        (HE : End st = Some (false, st)) :
  exists (pushed : stream_t) (st' : State),
    iteration (Lexer_new a b c d) st = Some (pushed, st') /\
    it_ st <= it_ st' /\
    (it_ st' = it_ st <-> stalls a c (remaining st)) /\
    (stalls a c (remaining st) ->
     st' = st /\
     forall fuel tokens,
       while_loop fuel (Lexer_new a b c d) tokens st = OutOfFuel).
Proof.
  destruct (iteration_agrees (Lexer_new a b c d) st Hr) as [st' [E [A _]]].
  assert (Hne : remaining st <> []).
  { apply End_false_remaining; [exact Hr|]. unfold End in HE.
    now injection HE. }
  pose proof (iteration_view_stall a b c d (linenum_ st) (remaining st) Hne)
    as Stall.
  set (consumed := snd (iteration_view (Lexer_new a b c d) (linenum_ st)
                          (remaining st))) in *.
  assert (P : it_ st' = it_ st + List.length consumed)
    by (rewrite A; reflexivity).
  eexists _, st'. split; [exact E|]. split; [lia|]. split.
  - rewrite <- Stall. rewrite P. split.
    + intros H. destruct consumed; [reflexivity | simpl in H; lia].
    + intros ->. simpl. lia.
  - intros Hs. apply Stall in Hs.
    assert (Est : st' = st) by (rewrite A, Hs; apply advance_nil).
    split; [exact Est|].
    rewrite Est in E. eapply while_loop_stuck; eassumption.
Qed.

Lemma loop_stalls_exactly_at_unrecognised_opening_witness :
  let st := mkState "a{% x" 1 1 in
  (exists (pushed : stream_t) (st' : State),
      iteration (Lexer_new "{{" "}}" "<%" "%>") st = Some (pushed, st') /\
      it_ st <= it_ st' /\
      (it_ st' = it_ st <-> stalls "{{" "<%" (remaining st)) /\
      (stalls "{{" "<%" (remaining st) ->
       st' = st /\
       forall fuel tokens,
         while_loop fuel (Lexer_new "{{" "}}" "<%" "%>") tokens st =
         OutOfFuel)) /\
  iteration (Lexer_new "{{" "}}" "<%" "%>") st =
    Some ([mkToken 1 TOKEN_LITERAL ""], st).
Proof.
  intros st. split; [|vm_compute; reflexivity].
  apply (loop_stalls_exactly_at_unrecognised_opening "{{" "}}" "<%" "%>" st).
  - unfold in_range. simpl. lia.
  - vm_compute. reflexivity.
  - reflexivity.
Defined.

(** ** The lexers on which Tokenize returns *)

Lemma stall_diverges (a b c d : str) (st : State) :
  in_range st ->
  End st = Some (false, st) ->
  stalls a c (remaining st) ->
  forall fuel tokens,
    while_loop fuel (Lexer_new a b c d) tokens st = OutOfFuel.
Proof.
  intros Hr HE Hs.
  destruct (iteration_agrees (Lexer_new a b c d) st Hr) as [st' [E [A _]]].
  assert (Hne : remaining st <> []).
  { apply End_false_remaining; [exact Hr|]. unfold End in HE.
    now injection HE. }
  apply (iteration_view_stall a b c d (linenum_ st) (remaining st) Hne) in Hs.
  rewrite Hs, advance_nil in A. rewrite A in E.
  eapply while_loop_stuck; eassumption.
Qed.

Lemma covers_never_stalls (a c : str) (rem : str) :
  covers a c = true -> ~ stalls a c rem.
Proof.
  unfold covers, stalls. intros Hc [Ha [Hb Hs]].
  apply andb_true_iff in Hc. destruct Hc as [C1 C2].
  apply orb_true_iff in C1, C2.
  destruct Hs as [Hs|Hs].
  - destruct C1 as [C|C]; rewrite (starts_with_trans _ _ _ C Hs) in *;
      discriminate.
  - destruct C2 as [C|C]; rewrite (starts_with_trans _ _ _ C Hs) in *;
      discriminate.
Qed.

Lemma while_loop_returns_covered (a b c d : str) (fuel : nat) :
  covers a c = true ->
  forall (tokens : stream_t) (st : State),
    in_range st ->
    List.length (source_ st) - it_ st < fuel ->
    exists tokens' st',
      while_loop fuel (Lexer_new a b c d) tokens st = Returned (tokens', st').
Proof.
  intros Hc. induction fuel as [|fuel IH]; intros tokens st Hr Hf; [lia|].
  cbn [while_loop]. unfold End.
  destruct (it_ st =? List.length (source_ st)) eqn:HE.
  - now exists tokens, st.
  - destruct (iteration_agrees (Lexer_new a b c d) st Hr)
      as [st1 [E [A [R1 _]]]].
    rewrite E.
    pose proof (End_false_remaining st Hr HE) as Hne.
    pose proof (iteration_view_stall a b c d (linenum_ st) (remaining st) Hne)
      as Stall.
    set (consumed := snd (iteration_view (Lexer_new a b c d) (linenum_ st)
                            (remaining st))) in *.
    assert (P : 1 <= List.length consumed).
    { destruct consumed; [|simpl; lia].
      exfalso. apply (covers_never_stalls a c (remaining st) Hc).
      now apply Stall. }
    assert (Hit : it_ st1 = it_ st + List.length consumed)
      by (rewrite A; reflexivity).
    assert (Hsrc : source_ st1 = source_ st) by (rewrite A; reflexivity).
    apply Nat.eqb_neq in HE. unfold in_range in Hr.
    apply IH; [exact R1 | rewrite Hsrc, Hit; lia].
Qed.

(** X21. One of the opening delimiters a lexer is built with is a prefix
    of the opening of a statement and one of them a prefix of the opening
    of a tag, as the patterns have them, exactly when Tokenize returns on
    every source of less than 2^31 characters, and then within one turn
    per character of the source and the last test.  When it is not so,
    there is a source of two characters on which Tokenize does not return,
    with any number of turns. *)
Theorem Tokenize_returns_iff_covers (a b c d : str) :
  (covers a c = true <->
   forall source : str,
     fits_int source ->
     exists toks,
       Tokenize (S (List.length source)) (Lexer_new a b c d) source =
       Returned toks) /\
  (covers a c = false <->
   exists source : str,
     List.length source = 2 /\
     forall fuel,
       Tokenize fuel (Lexer_new a b c d) source = OutOfFuel).
Proof.
  assert (Pos : covers a c = true ->
                forall source : str,
                  exists toks,
                    Tokenize (S (List.length source)) (Lexer_new a b c d)
                      source = Returned toks).
  { intros Hc source.
    destruct (while_loop_returns_covered a b c d (S (List.length source)) Hc
                [] (State_new source)) as [tokens [st' W]];
      [apply cursor_inv_new | simpl; lia |].
    unfold Tokenize. rewrite W. unfold State_linenum. eexists. reflexivity. }
  assert (Neg : covers a c = false ->
                exists source : str,
                  List.length source = 2 /\
                  forall fuel,
                    Tokenize fuel (Lexer_new a b c d) source = OutOfFuel).
  { intros Hc. unfold covers in Hc. apply andb_false_iff in Hc.
    assert (Stuck : exists source : str,
               List.length source = 2 /\ stalls a c source).
    { destruct Hc as [Hc|Hc]; apply orb_false_iff in Hc;
        destruct Hc as [Ha Hb].
      - exists (lit "{{"). split; [reflexivity|].
        split; [exact Ha|]. split; [exact Hb | now left].
      - exists (lit "{%"). split; [reflexivity|].
        split; [exact Ha|]. split; [exact Hb | now right]. }
    destruct Stuck as [source [Hlen Hs]]. exists source.
    split; [exact Hlen|]. intros fuel. unfold Tokenize.
    rewrite (stall_diverges a b c d (State_new source));
      [reflexivity | apply cursor_inv_new | | exact Hs].
    unfold End. cbn [State_new it_ source_]. now rewrite Hlen. }
  split; split.
  - intros Hc source _. now apply Pos.
  - intros Hall. destruct (covers a c) eqn:Hc; [reflexivity|]. exfalso.
    destruct (Neg eq_refl) as [source [Hlen Hno]].
    destruct (Hall source) as [toks H].
    + unfold fits_int. rewrite Hlen. reflexivity.
    + rewrite Hno in H. discriminate.
  - exact Neg.
  - intros [source [Hlen Hno]].
    destruct (covers a c) eqn:Hc; [|reflexivity]. exfalso.
    destruct (Pos eq_refl source) as [toks H].
    rewrite Hno in H. discriminate.
Qed.

Lemma Tokenize_returns_iff_covers_witness :
  (exists toks,
      Tokenize (S (List.length (lit "a{% b"))) (Lexer_new "{" "}}" "{%" "%}")
        "a{% b" = Returned toks) /\
  (exists source : str,
      List.length source = 2 /\
      forall fuel,
        Tokenize fuel (Lexer_new "<<" ">>" "{%" "%}") source = OutOfFuel).
Proof.
  split.
  - apply (proj1 (proj1 (Tokenize_returns_iff_covers "{" "}}" "{%" "%}"))
             eq_refl (lit "a{% b")).
    vm_compute. reflexivity.
  - apply (proj1 (proj2 (Tokenize_returns_iff_covers "<<" ">>" "{%" "%}"))).
    reflexivity.
Defined.
